(** * lib/wallet.js: account state and transaction construction

    A shallow embedding of the Ethereum wallet of [src/lib/wallet.js] and the
    properties its specification states about it.

    Layout: JavaScript values and exceptions; the decimal arithmetic of
    big.js and the integer parser of bn.js; hexadecimal buffers and private
    keys; the collaborator interfaces (cryptography, remote API); the wallet
    itself, function by function; the vocabulary of the properties and some
    concrete data; then the theorems.

    Conventions.
    - A function that may throw returns a [result]; [x <- e ;; k] stops at
      the first exception, as evaluation does.
    - A method that assigns to [this] takes the wallet and returns the
      wallet it leaves.
    - A promise is represented by the way it settles, and a callback by the
      event of its invocation; callbacks themselves do not throw.
    - Numbers are integers; amounts are the decimal strings the remote API
      and big.js exchange.
    - [JSON.parse (JSON.stringify o)] is [o] for the objects serialized
      here, so [serialize] and [deserialize] meet at the object.
    - The transaction library (ethereumjs-tx over ethereumjs-util and
      secp256k1) is given by what its field setters and its signing accept
      and keep; what secp256k1 and ethereumjs-util throw is not told
      apart further than [KeyError] and [UtilError]. *)

From Stdlib Require Import ZArith QArith Qabs List Bool Ascii String Lia.
From Stdlib Require Import Strings.Byte.
Import ListNotations.

Local Open Scope string_scope.
Local Open Scope Z_scope.

(** ** JavaScript values and exceptions *)

(** The dynamically typed values that flow through the wallet.  [JNum]
    carries an integer-valued number. *)
Inductive jsval : Type :=
| JUndefined
| JNull
| JNum (n : Z)
| JStr (s : string).

(** What the code throws or what a rejected promise carries. *)
Inductive exn : Type :=
| AssertionError (message : string)   (* assert(cond, message) *)
| Error (message : string)            (* throw new Error(message) *)
| BigError                            (* big.js on an invalid number *)
| KeyError                            (* secp256k1 on an invalid private key *)
| UtilError                           (* ethereumjs-util on an argument it refuses *)
| Rejection (reason : string).        (* a rejected promise of the remote API *)

Inductive result (A : Type) : Type :=
| OK (a : A)
| Throw (e : exn).
Arguments OK {A} a.
Arguments Throw {A} e.

Definition bind {A B : Type} (r : result A) (k : A -> result B) : result B :=
  match r with
  | OK a => k a
  | Throw e => Throw e
  end.

Notation "x <- r ;; k" := (bind r (fun x => k))
  (at level 61, r at next level, right associativity).

Definition is_ok {A : Type} (r : result A) : bool :=
  match r with OK _ => true | Throw _ => false end.

(** [Array.prototype.map] with a callback that may throw: the first
    exception aborts the traversal. *)
Fixpoint mapM {A B : Type} (f : A -> result B) (l : list A) : result (list B) :=
  match l with
  | [] => OK []
  | a :: l' => b <- f a ;; bs <- mapM f l' ;; OK (b :: bs)
  end.

(** ** Decimal digits *)

Definition is_digit (c : ascii) : bool :=
  ((48 <=? nat_of_ascii c) && (nat_of_ascii c <=? 57))%nat.

Definition digit_val (c : ascii) : Z := Z.of_nat (nat_of_ascii c) - 48.

Definition digit_char (d : Z) : ascii := ascii_of_nat (Z.to_nat (48 + d)).

Fixpoint all_digits (s : string) : bool :=
  match s with
  | EmptyString => true
  | String c s' => is_digit c && all_digits s'
  end.

(** Value of a digit string read left to right, starting from [acc]. *)
Fixpoint digits_val (acc : Z) (s : string) : Z :=
  match s with
  | EmptyString => acc
  | String c s' => digits_val (10 * acc + digit_val c) s'
  end.

(** Longest prefix of digits, and what follows it. *)
Fixpoint span_digits (s : string) : string * string :=
  match s with
  | EmptyString => (EmptyString, EmptyString)
  | String c s' =>
      if is_digit c
      then let (d, r) := span_digits s' in (String c d, r)
      else (EmptyString, s)
  end.

(** The [k] low decimal digits of [n], most significant first. *)
Fixpoint fixed_digits (k : nat) (n : Z) : string :=
  match k with
  | O => EmptyString
  | S k' => fixed_digits k' (n / 10) ++ String (digit_char (n mod 10)) EmptyString
  end.

Fixpoint num_digits_fuel (fuel : nat) (n : Z) : nat :=
  match fuel with
  | O => 1
  | S f => if n <? 10 then 1%nat else S (num_digits_fuel f (n / 10))
  end.

(** Number of decimal digits of [n >= 0] (one for zero). *)
Definition num_digits (n : Z) : nat := num_digits_fuel (Z.to_nat (Z.log2 n)) n.

(** Decimal expansion of [n >= 0] without leading zeros. *)
Definition nat_digits (n : Z) : string := fixed_digits (num_digits n) n.

(** [String(n)] for an integer-valued number. *)
Definition string_of_int (n : Z) : string :=
  if n <? 0 then "-" ++ nat_digits (- n) else nat_digits n.

(** ToString, as applied by ['-' + v] and by [n += ''] inside big.js. *)
Definition js_to_string (v : jsval) : string :=
  match v with
  | JUndefined => "undefined"
  | JNull => "null"
  | JNum n => string_of_int n
  | JStr s => s
  end.

(** ToBoolean: what [v ? a : b], [v || d] and [assert(v)] test. *)
Definition truthy (v : jsval) : bool :=
  match v with
  | JUndefined => false
  | JNull => false
  | JNum n => negb (n =? 0)
  | JStr s => negb (String.eqb s EmptyString)
  end.

(** ** big.js: exact decimal arithmetic *)

(** A Big is [coef / 10 ^ dp]. *)
Record Big_t : Type := mkBig { coef : Z; dp : nat }.

(** The rational number a Big denotes. *)
Definition bigQ (b : Big_t) : Q :=
  Qmake (coef b) (Z.to_pos (10 ^ Z.of_nat (dp b))).

(** Optional leading minus sign. *)
Definition split_sign (s : string) : bool * string :=
  match s with
  | String "-"%char s' => (true, s')
  | _ => (false, s)
  end.

(** Exponent part of a numeric literal: nothing, or [e] (either case), an
    optional sign and at least one digit. *)
Definition parse_exponent (s : string) : option Z :=
  match s with
  | EmptyString => Some 0
  | String c s' =>
      if (Ascii.eqb c "e" || Ascii.eqb c "E")%bool then
        let '(neg, ds) :=
          match s' with
          | String "+"%char r => (false, r)
          | String "-"%char r => (true, r)
          | _ => (false, s')
          end in
        match ds with
        | EmptyString => None
        | _ => if all_digits ds
               then Some (if neg then - digits_val 0 ds else digits_val 0 ds)
               else None
        end
      else None
  end.

(** What follows the sign in a numeric literal: digits with an optional
    point and further digits, or a point followed by digits; then an
    optional exponent.  [neg] tells whether a minus came first. *)
Definition parse_unsigned (neg : bool) (s1 : string) : option Big_t :=
  let (ip, r1) := span_digits s1 in
  let '(hasDot, fp, r2) :=
    match r1 with
    | String "."%char r => let (f, r') := span_digits r in (true, f, r')
    | _ => (false, EmptyString, r1)
    end in
  if (negb (String.eqb ip EmptyString) || (hasDot && negb (String.eqb fp EmptyString)))%bool then
    match parse_exponent r2 with
    | Some e =>
        let c := digits_val 0 (ip ++ fp) in
        let c := if neg then - c else c in
        let k := Z.of_nat (String.length fp) in
        Some (if k <=? e
              then mkBig (c * 10 ^ (e - k)) 0
              else mkBig c (Z.to_nat (k - e)))
    | None => None
    end
  else None.

(** The numeric literals big.js accepts, and their value. *)
Definition parse_big (s : string) : option Big_t :=
  let (neg, s1) := split_sign s in parse_unsigned neg s1.

(** [Big(v)]: the argument is converted to a string and parsed. *)
Definition Big (v : jsval) : result Big_t :=
  match parse_big (js_to_string v) with
  | Some b => OK b
  | None => Throw BigError
  end.

Definition big_plus (x y : Big_t) : Big_t :=
  let d := Nat.max (dp x) (dp y) in
  mkBig (coef x * 10 ^ Z.of_nat (d - dp x) + coef y * 10 ^ Z.of_nat (d - dp y)) d.

Definition big_neg (x : Big_t) : Big_t := mkBig (- coef x) (dp x).

Definition big_minus (x y : Big_t) : Big_t := big_plus x (big_neg y).

Definition big_times (x y : Big_t) : Big_t :=
  mkBig (coef x * coef y) (dp x + dp y).

Definition big_abs (x : Big_t) : Big_t := mkBig (Z.abs (coef x)) (dp x).

(** [x.lt(0)] *)
Definition big_lt0 (x : Big_t) : bool := coef x <? 0.

(** The methods take anything [Big] accepts as their argument. *)
Definition plus (x : Big_t) (v : jsval) : result Big_t :=
  y <- Big v ;; OK (big_plus x y).
Definition minus (x : Big_t) (v : jsval) : result Big_t :=
  y <- Big v ;; OK (big_minus x y).
Definition times (x : Big_t) (v : jsval) : result Big_t :=
  y <- Big v ;; OK (big_times x y).

(** big.js keeps no trailing zeros in the fraction. *)
Fixpoint strip_zeros (c : Z) (d : nat) : Big_t :=
  match d with
  | O => mkBig c O
  | S d' => if c mod 10 =? 0 then strip_zeros (c / 10) d' else mkBig c d
  end.

Definition normalize (b : Big_t) : Big_t := strip_zeros (coef b) (dp b).

(** [x.toFixed()]: plain notation, every digit, no exponent. *)
Definition toFixed (b : Big_t) : string :=
  let n := normalize b in
  let m := Z.abs (coef n) in
  let p := 10 ^ Z.of_nat (dp n) in
  (if coef n <? 0 then "-" else EmptyString)
  ++ nat_digits (m / p)
  ++ match dp n with
     | O => EmptyString
     | S _ => "." ++ fixed_digits (dp n) (m mod p)
     end.

(** The number a field denotes ([0] where big.js would throw). *)
Definition numQ (v : jsval) : Q :=
  match Big v with
  | OK b => bigQ b
  | Throw _ => 0%Q
  end.

Definition isNumeric (v : jsval) : bool := is_ok (Big v).

(** An unsigned numeric literal: numeric and without a leading minus. *)
Definition isUnsigned (v : jsval) : bool :=
  (isNumeric v && negb (fst (split_sign (js_to_string v))))%bool.

(** ** bn.js: integers from decimal strings *)

(** An optional minus followed by at least one digit. *)
Definition parse_int (s : string) : option Z :=
  let (neg, ds) := split_sign s in
  match ds with
  | EmptyString => None
  | _ => if all_digits ds
         then Some (if neg then - digits_val 0 ds else digits_val 0 ds)
         else None
  end.

(** ** Buffers in hexadecimal *)

Definition hex_digit (n : N) : ascii :=
  match String.get (N.to_nat n) "0123456789abcdef" with
  | Some c => c
  | None => "0"%char
  end.

Definition hex_val (c : ascii) : option N :=
  let n := N_of_ascii c in
  if ((48 <=? n) && (n <=? 57))%N then Some (n - 48)%N
  else if ((97 <=? n) && (n <=? 102))%N then Some (n - 87)%N
  else if ((65 <=? n) && (n <=? 70))%N then Some (n - 55)%N
  else None.

Definition byte_to_hex (b : byte) : string :=
  let n := Byte.to_N b in
  String (hex_digit (n / 16)) (String (hex_digit (n mod 16)) EmptyString).

(** [buf.toString('hex')] *)
Fixpoint hex_encode (buf : list byte) : string :=
  match buf with
  | [] => EmptyString
  | b :: buf' => byte_to_hex b ++ hex_encode buf'
  end.

(** [new Buffer(str, 'hex')]: two characters a byte, up to the first pair
    that is not hexadecimal. *)
Fixpoint hex_decode (str : string) : list byte :=
  match str with
  | String c1 (String c2 rest) =>
      match hex_val c1, hex_val c2 with
      | Some h, Some l =>
          match Byte.of_N (16 * h + l) with
          | Some b => b :: hex_decode rest
          | None => []
          end
      | _, _ => []
      end
  | _ => []
  end.

(** [ethUtil.bufferToHex] *)
Definition bufferToHex (buf : list byte) : string := "0x" ++ hex_encode buf.

Fixpoint all_hex (str : string) : bool :=
  match str with
  | EmptyString => true
  | String c str' =>
      match hex_val c with
      | Some _ => all_hex str'
      | None => false
      end
  end.

(** [ethUtil.isHexString]: [0x] followed by hexadecimal digits only. *)
Definition isHexString (v : string) : bool :=
  match v with
  | String "0"%char (String "x"%char rest) => all_hex rest
  | _ => false
  end.

(** [ethUtil.stripHexPrefix] on a hexadecimal string. *)
Definition stripHexPrefix (v : string) : string :=
  match v with
  | String "0"%char (String "x"%char rest) => rest
  | _ => v
  end.

(** [ethUtil.padToEven] *)
Definition padToEven (str : string) : string :=
  if Nat.even (String.length str) then str else String "0"%char str.

(** Big-endian value of a buffer. *)
Definition be_val (buf : list byte) : Z :=
  fold_left (fun acc b => 256 * acc + Z.of_N (Byte.to_N b)) buf 0.

(** Order of the group of secp256k1. *)
Definition secp256k1_n : Z :=
  115792089237316195423570985008687907852837564279074904382605163141518161494337.

(** [ethUtil.isValidPrivate]: 32 bytes, a scalar in [1, n - 1]. *)
Definition isValidPrivate (privateKey : list byte) : bool :=
  (Nat.eqb (List.length privateKey) 32
   && (0 <? be_val privateKey)
   && (be_val privateKey <? secp256k1_n))%bool.

(** ** Transactions *)

(** A transaction as the remote API lists it, and as the history keeps it
    once normalized. *)
Record Tx : Type := mkTx {
  tx_from : string;
  tx_to : string;
  tx_value : jsval;
  tx_gas : jsval;
  tx_gasPrice : jsval;
  tx_gasUsed : jsval;
  tx_fee : jsval;
  tx_confirmations : Z
}.

Definition set_fee (tx : Tx) (fee : jsval) : Tx :=
  mkTx (tx_from tx) (tx_to tx) (tx_value tx) (tx_gas tx) (tx_gasPrice tx)
       (tx_gasUsed tx) fee (tx_confirmations tx).

Definition set_value (tx : Tx) (value : jsval) : Tx :=
  mkTx (tx_from tx) (tx_to tx) value (tx_gas tx) (tx_gasPrice tx)
       (tx_gasUsed tx) (tx_fee tx) (tx_confirmations tx).

(** The object handed to [new EthereumTx({...})]: the nonce is a number,
    the gas price, the gas limit and the value are [BN]s, the recipient is
    a string. *)
Record TxData : Type := mkTxData {
  d_nonce : Z;
  d_gasPrice : Z;
  d_gasLimit : Z;
  d_to : string;
  d_value : Z;
  d_chainId : Z
}.

(** The fields as an [EthereumTx] keeps them.  Each is a buffer; the
    numeric ones are kept without leading zeros and are given here by the
    natural number they spell, most significant byte first. *)
Record TxFields : Type := mkTxFields {
  f_nonce : Z;
  f_gasPrice : Z;
  f_gasLimit : Z;
  f_to : list byte;
  f_value : Z;
  f_chainId : Z
}.

(** An [EthereumTx]: its fields and, once [sign] has run, a signature. *)
Record EthereumTx : Type := mkEthereumTx {
  fields : TxFields;
  signature : option (list byte)
}.

(** ** Collaborators *)

(** The cryptographic and encoding capabilities the wallet consumes as they
    are: key derivation from the seed, address computation, signing, the
    wire encoding of a transaction, and what the libraries make of an
    argument outside the domain described here: bn.js of a string that is
    not a decimal integer, ethereumjs-util of a recipient that is not a
    hexadecimal string and of a nonce below zero ([None] where it
    throws). *)
Class Crypto : Type := {
  hdMasterKey : jsval -> list byte;
  privateToAddress : list byte -> list byte;
  ecsign : TxFields -> list byte -> list byte;
  rlp_serialize : EthereumTx -> list byte;
  bn_other : string -> Z;
  toBuffer_other : string -> option (list byte);
  intToBuffer_other : Z -> option Z
}.

Record BalanceInfo : Type := mkBalanceInfo {
  bi_balance : jsval;
  bi_confirmedBalance : jsval
}.

(** The remote API; a promise is represented by the way it settles. *)
Record API : Type := mkAPI {
  addresses_balance : string -> Z -> result BalanceInfo;
  addresses_txsCount : string -> result Z;
  common_gasPrice : result string;
  addresses_txs : string -> result (list Tx);
  transactions_propagate : string -> result string;
  transactions_get : string -> string -> result Tx
}.

Inductive request : Type :=
| ReqBalance (address : string) (minConf : Z)
| ReqTxsCount (address : string)
| ReqGasPrice
| ReqTxs (address : string)
| ReqPropagate (rawtx : string)
| ReqGet (txId : string) (address : string).

(** [Promise.all]: rejected with the reason of the promise that is rejected
    first, fulfilled with every value otherwise.  [order] lists the promises
    in the order in which they settle. *)
Definition rejection {A : Type} (r : result A) : option exn :=
  match r with
  | OK _ => None
  | Throw e => Some e
  end.

Fixpoint first_rejection (order : list nat) (rs : list (option exn)) : option exn :=
  match order with
  | [] => None
  | i :: order' =>
      match nth i rs None with
      | Some e => Some e
      | None => first_rejection order' rs
      end
  end.

Definition Promise_all4 {A B C D : Type} (order : list nat)
    (p0 : result A) (p1 : result B) (p2 : result C) (p3 : result D)
    : result (A * B * C * D) :=
  match first_rejection order [rejection p0; rejection p1; rejection p2; rejection p3] with
  | Some e => Throw e
  | None => a <- p0 ;; b <- p1 ;; c <- p2 ;; d <- p3 ;; OK (a, b, c, d)
  end.

(** ** The wallet *)

(** An [ethereumjs-wallet] instance: a private key. *)
Record EtherWallet : Type := mkEtherWallet { privKey : list byte }.

Record Wallet : Type := mkWallet {
  networkName : jsval;
  balance : jsval;
  confirmedBalance : jsval;
  historyTxs : list Tx;
  txsCount : Z;
  etherWallet : EtherWallet;
  addressString : string;
  gasPrice : string;
  gasLimit : string;
  minConf : Z
}.

(** The argument of the constructor.  [opt_txDone] tells whether a [txDone]
    callback was passed; [opt_minConf] is [None] when the key is absent. *)
Record Options : Type := mkOptions {
  opt_seed : jsval;
  opt_networkName : jsval;
  opt_minConf : option Z;
  opt_txDone : bool
}.

(** The argument of [createImportTx]. *)
Record ImportOptions : Type := mkImportOptions {
  io_amount : jsval;
  io_fee : jsval;
  io_txsCount : Z;
  io_to : string;
  io_privateKey : list byte
}.

(** The object [serialize] hands to [JSON.stringify] and [deserialize] gets
    back from [JSON.parse]. *)
Record Serialized : Type := mkSerialized {
  s_networkName : jsval;
  s_balance : jsval;
  s_confirmedBalance : jsval;
  s_historyTxs : list Tx;
  s_txsCount : Z;
  s_privateKey : string;
  s_addressString : string;
  s_gasPrice : string;
  s_gasLimit : string;
  s_minConf : Z
}.

(** What the outside observes: requests sent to the remote API and the
    callbacks invoked, in order. *)
Inductive event : Type :=
| Remote (r : request)
| Done (err : option exn) (wallet : option Wallet)
| TxDone (err : option exn) (wallet : option Wallet)
| Callback (err : option exn) (historyTx : option Tx).

(** What [new Wallet(options)] leaves behind; see [new_Wallet]. *)
Record Construction : Type := mkConstruction {
  returned : option Wallet;
  events : list event;
  settled : option Wallet
}.

(** [Array.prototype.reduce] with a callback that may throw. *)
Fixpoint reduceM {A B : Type} (f : B -> A -> result B) (l : list A) (init : B) : result B :=
  match l with
  | [] => OK init
  | a :: l' => b <- f init a ;; reduceM f l' b
  end.

(** What [transformTxs] takes and returns: an array when [Array.isArray]
    holds of its argument and a single transaction otherwise. *)
Definition txs_t (isArray : bool) : Type := if isArray then list Tx else Tx.

Section WalletJs.

Context {crypto : Crypto}.

(** [new BN(str)]. *)
Definition BN (str : string) : Z :=
  match parse_int str with
  | Some n => n
  | None => bn_other str
  end.

(** [EthereumWallet.fromPrivateKey], which checks the key. *)
Definition fromPrivateKey (priv : list byte) : result EtherWallet :=
  if isValidPrivate priv then OK (mkEtherWallet priv)
  else Throw (Error "Private key does not satisfy the curve requirements (ie. it is invalid)").

Definition getPrivateKey (w : EtherWallet) : list byte := privKey w.

Definition getPrivateKeyString (w : EtherWallet) : string := bufferToHex (privKey w).

Definition getAddressString (w : EtherWallet) : string :=
  bufferToHex (privateToAddress (privKey w)).

(** [ethUtil.toBuffer] of a string: a hexadecimal string gives the bytes
    it spells, an odd number of digits being read with a leading zero. *)
Definition toBuffer (v : string) : result (list byte) :=
  if isHexString v then OK (hex_decode (padToEven (stripHexPrefix v)))
  else match toBuffer_other v with
       | Some b => OK b
       | None => Throw UtilError
       end.

(** [ethUtil.toBuffer] of a number, as the natural number the buffer
    spells. *)
Definition intToBuffer (i : Z) : result Z :=
  if 0 <=? i then OK i
  else match intToBuffer_other i with
       | Some n => OK n
       | None => Throw UtilError
       end.

(** The setter of a numeric field of a transaction (length 32, shorter
    allowed): leading zeros are dropped and at most 32 bytes may remain. *)
Definition atMost32 (name : string) (v : Z) : result Z :=
  if v <? 2 ^ 256 then OK v
  else Throw (AssertionError ("The field " ++ name ++ " must not have more 32 bytes")).

(** The setter of the recipient (length 20, empty allowed). *)
Definition exactly20 (name : string) (v : list byte) : result (list byte) :=
  if (Nat.eqb (List.length v) 0 || Nat.eqb (List.length v) 20)%bool then OK v
  else Throw (AssertionError ("The field " ++ name ++ " must have byte length of 20")).

(** [new EthereumTx(data)]: the fields are assigned in the order nonce,
    gasPrice, gasLimit, to, value, each through its setter, which asserts
    the length of the buffer it is given.  A [BN] is stored by its
    magnitude ([toArrayLike] drops the sign). *)
Definition new_EthereumTx (data : TxData) : result EthereumTx :=
  nonce <- (i <- intToBuffer (d_nonce data) ;; atMost32 "nonce" i) ;;
  gasPrice <- atMost32 "gasPrice" (Z.abs (d_gasPrice data)) ;;
  gasLimit <- atMost32 "gasLimit" (Z.abs (d_gasLimit data)) ;;
  to <- (v <- toBuffer (d_to data) ;; exactly20 "to" v) ;;
  value <- atMost32 "value" (Z.abs (d_value data)) ;;
  OK (mkEthereumTx (mkTxFields nonce gasPrice gasLimit to value (d_chainId data)) None).

(** [tx.sign(privateKey)]: [ecsign] of the hash of the fields, which
    secp256k1 refuses for a key that is not a valid scalar. *)
Definition sign (tx : EthereumTx) (privateKey : list byte) : result EthereumTx :=
  if isValidPrivate privateKey
  then OK (mkEthereumTx (fields tx) (Some (ecsign (fields tx) privateKey)))
  else Throw KeyError.

Definition transformTx (address : string) (tx : Tx) : result Tx :=
  fee <- (if truthy (tx_gasUsed tx)
          then g <- Big (tx_gasUsed tx) ;;
               f <- times g (tx_gasPrice tx) ;;
               OK (JStr (toFixed f))
          else OK (JNum (-1))) ;;
  let tx := set_fee tx fee in
  let tx := if String.eqb (tx_from tx) address
            then set_value tx (JStr ("-" ++ js_to_string (tx_value tx)))
            else tx in
  OK tx.

Definition transformTxs (address : string) {isArray : bool}
    : txs_t isArray -> result (txs_t isArray) :=
  match isArray with
  | true => mapM (transformTx address)
  | false => transformTx address
  end.

Definition doneError (options : Options) (err : exn) : list event :=
  Done (Some err) None
  :: (if opt_txDone options then [TxDone (Some err) None] else []).

(** The handler the constructor attaches to the four lookups: it stores
    the results in [that] and calls back.  The second component is [that]
    as the handler leaves it. *)
Definition new_Wallet_then (options : Options) (that : Wallet)
    (results : BalanceInfo * Z * string * list Tx) : list event * Wallet :=
  let '(r0, r1, r2, r3) := results in
  let that :=
    mkWallet (networkName that) (bi_balance r0) (bi_confirmedBalance r0)
             (historyTxs that) r1 (etherWallet that) (addressString that) r2
             (gasLimit that) (minConf that) in
  match transformTxs (isArray := true) (addressString that) r3 with
  | OK txs =>
      let that :=
        mkWallet (networkName that) (balance that) (confirmedBalance that)
                 txs (txsCount that) (etherWallet that) (addressString that)
                 (gasPrice that) (gasLimit that) (minConf that) in
      (Done None (Some that)
       :: (if opt_txDone options then [TxDone None (Some that)] else []),
       that)
  | Throw err => (doneError options err, that)
  end.

(** [new Wallet(options)].  A [Throw] is an exception that leaves the
    constructor.  Otherwise [returned] is the instance as the [new]
    expression hands it to the caller ([None]: no field assigned),
    [events] lists what the constructor and its promise handlers do, and
    [settled] is the same instance once the handlers have run. *)
Definition new_Wallet (api : API) (order : list nat) (options : Options)
    : result Construction :=
  let seed := opt_seed options in
  if negb (truthy seed)
  then OK (mkConstruction None
             (doneError options (AssertionError "seed cannot be empty")) None)
  else
    ew <- fromPrivateKey (hdMasterKey seed) ;;
    let this :=
      mkWallet (opt_networkName options) (JNum 0) (JNum 0) [] 0
               ew (getAddressString ew) "0" "21000"
               (match opt_minConf options with
                | Some n => if n =? 0 then 5 else n
                | None => 5
                end) in
    let that := this in
    let (handled, that') :=
      match Promise_all4 order
              (addresses_balance api (addressString that) (minConf that))
              (addresses_txsCount api (addressString that))
              (common_gasPrice api)
              (addresses_txs api (addressString that)) with
      | OK results => new_Wallet_then options that results
      | Throw err => (doneError options err, that)
      end in
    OK (mkConstruction
          (Some this)
          ([Remote (ReqBalance (addressString that) (minConf that));
            Remote (ReqTxsCount (addressString that));
            Remote ReqGasPrice;
            Remote (ReqTxs (addressString that))] ++ handled)%list
          (Some that')).

Definition getBalance (this : Wallet) : jsval := balance this.

Definition getNextAddress (this : Wallet) : string := addressString this.

Definition getPendingSpends (this : Wallet) : result Big_t :=
  let that := this in
  zero <- Big (JNum 0) ;;
  reduceM (fun sum tx =>
             if ((tx_confirmations tx <? minConf that)
                 && String.eqb (tx_from tx) (addressString that))%bool
             then v <- Big (tx_value tx) ;;
                  g <- Big (tx_gas tx) ;;
                  c <- times g (tx_gasPrice tx) ;;
                  let amount := big_plus (big_abs v) c in
                  OK (big_plus sum amount)
             else OK sum)
          (historyTxs that) zero.

Definition getDefaultFee (this : Wallet) : result Big_t :=
  g <- Big (JStr (gasLimit this)) ;;
  times g (JStr (gasPrice this)).

(** The handler that [processTx] attaches to the fetched transaction. *)
Definition processTx_then (that : Wallet) (historyTx : Tx) : result (Wallet * Tx) :=
  historyTx <- transformTxs (isArray := false) (addressString that) historyTx ;;
  g <- Big (tx_gas historyTx) ;;
  maxFee <- times g (tx_gasPrice historyTx) ;;
  b <- Big (balance that) ;;
  b <- plus b (tx_value historyTx) ;;
  let balance' := JStr (toFixed (big_minus b maxFee)) in
  let txsCount' :=
    if String.eqb (tx_from historyTx) (addressString that)
    then txsCount that + 1
    else txsCount that in
  OK (mkWallet (networkName that) balance' (confirmedBalance that)
               (historyTx :: historyTxs that) txsCount'
               (etherWallet that) (addressString that) (gasPrice that)
               (gasLimit that) (minConf that),
      historyTx).

Definition processTx (api : API) (this : Wallet) (txId : string) : Wallet * list event :=
  let that := this in
  match transactions_get api txId (addressString that) with
  | OK historyTx =>
      match processTx_then that historyTx with
      | OK (that', historyTx') =>
          (that', [Remote (ReqGet txId (addressString that));
                   Callback None (Some historyTx')])
      | Throw err =>
          (that, [Remote (ReqGet txId (addressString that));
                  Callback (Some err) None])
      end
  | Throw err =>
      (that, [Remote (ReqGet txId (addressString that));
              Callback (Some err) None])
  end.

Definition sendTx (api : API) (this : Wallet) (tx : EthereumTx) : Wallet * list event :=
  let that := this in
  let rawtx := "0x" ++ hex_encode (rlp_serialize tx) in
  match transactions_propagate api rawtx with
  | OK txId =>
      let (that', evs) := processTx api that txId in
      (that', Remote (ReqPropagate rawtx) :: evs)
  | Throw err =>
      (that, [Remote (ReqPropagate rawtx); Callback (Some err) None])
  end.

Definition createPrivateKey (str : string) : result (list byte) :=
  let str :=
    match str with
    | String "0"%char (String "x"%char rest) => rest
    | _ => str
    end in
  let privateKey := hex_decode str in
  if negb (isValidPrivate privateKey)
  then Throw (Error "Invalid private key")
  else OK privateKey.

Definition createImportTx (this : Wallet) (options : ImportOptions) : result EthereumTx :=
  a <- Big (io_amount options) ;;
  amount <- minus a (io_fee options) ;;
  if big_lt0 amount
  then Throw (Error "Insufficient funds")
  else
    tx <- new_EthereumTx
            (mkTxData (io_txsCount options)
                      (BN (gasPrice this))
                      (BN (gasLimit this))
                      (io_to options)
                      (BN (toFixed amount))
                      1) ;;
    sign tx (io_privateKey options).

Definition serialize (this : Wallet) : Serialized :=
  mkSerialized (networkName this)
               (getBalance this)
               (confirmedBalance this)
               (historyTxs this)
               (txsCount this)
               (getPrivateKeyString (etherWallet this))
               (getAddressString (etherWallet this))
               (gasPrice this)
               (gasLimit this)
               (minConf this).

Definition deserialize (json : Serialized) : result Wallet :=
  let deserialized := json in
  privateKey <- createPrivateKey (s_privateKey deserialized) ;;
  ew <- fromPrivateKey privateKey ;;
  OK (mkWallet (s_networkName deserialized)
               (s_balance deserialized)
               (s_confirmedBalance deserialized)
               (s_historyTxs deserialized)
               (s_txsCount deserialized)
               ew
               (s_addressString deserialized)
               (s_gasPrice deserialized)
               (s_gasLimit deserialized)
               (s_minConf deserialized)).

End WalletJs.

(** ** The wallet, continued *)

(** The gate of [lib/validator.js], which is not among the sources:
    [validator.transaction({wallet, to, value})] returns or throws. *)
Class Validator : Type := {
  validator_transaction : Wallet -> string -> string -> result unit
}.

(** What the promise of [getImportTxOptions] is fulfilled with. *)
Record ImportSource : Type := mkImportSource {
  src_privateKey : list byte;
  src_amount : jsval;
  src_txsCount : Z
}.

(** [Promise.all] of two promises; see [Promise_all4]. *)
Definition Promise_all2 {A B : Type} (order : list nat)
    (p0 : result A) (p1 : result B) : result (A * B) :=
  match first_rejection order [rejection p0; rejection p1] with
  | Some e => Throw e
  | None => a <- p0 ;; b <- p1 ;; OK (a, b)
  end.

(** The line feed of ['address,privatekey\n']. *)
Definition newline : string := String (ascii_of_nat 10) EmptyString.

(** [str.substr(start)] *)
Fixpoint substr (start : nat) (str : string) : string :=
  match start, str with
  | O, _ => str
  | S n, String _ str' => substr n str'
  | S _, EmptyString => EmptyString
  end.

Section WalletJsContinued.

Context {crypto : Crypto} {validator : Validator}.

Definition createTx (this : Wallet) (to : string) (value : string) : result EthereumTx :=
  _ <- validator_transaction this to value ;;
  tx <- new_EthereumTx
          (mkTxData (txsCount this)
                    (BN (gasPrice this))
                    (BN (gasLimit this))
                    to
                    (BN value)
                    1) ;;
  sign tx (getPrivateKey (etherWallet this)).

Definition getTransactionHistory (this : Wallet) : list Tx := historyTxs this.

(** [getImportTxOptions(privateKey)].  [ethUtil.privateToPublic] comes
    first and throws, out of the function and before any request, on a key
    that is not a valid scalar.  Otherwise the function returns a promise:
    the result gives the requests sent and the way the promise settles.
    The address is that of the key, [pubToAddress (privateToPublic key)]. *)
Definition getImportTxOptions (api : API) (order : list nat) (this : Wallet)
    (privateKey : list byte) : result (list event * result ImportSource) :=
  let that := this in
  if negb (isValidPrivate privateKey)
  then Throw KeyError
  else
    let address := bufferToHex (privateToAddress privateKey) in
    OK ([Remote (ReqBalance address (minConf that)); Remote (ReqTxsCount address)],
        results <- Promise_all2 order
                     (addresses_balance api address (minConf that))
                     (addresses_txsCount api address) ;;
        OK (mkImportSource privateKey
                           (bi_confirmedBalance (fst results))
                           (snd results))).

Definition exportPrivateKeys (this : Wallet) : string :=
  let str := "address,privatekey" ++ newline in
  str ++ ((addressString this ++ ",")
          ++ substr 2 (getPrivateKeyString (etherWallet this))).

End WalletJsContinued.

(** * Vocabulary of the properties *)

(** Whether a string begins with a digit. *)
Definition starts_with_digit (s : string) : bool :=
  match s with
  | EmptyString => false
  | String c _ => is_digit c
  end.

(** The digits [toFixed] prints for [m / 10 ^ d], with [m >= 0]. *)
Definition unsigned_digits (m : Z) (d : nat) : string :=
  nat_digits (m / 10 ^ Z.of_nat d)
  ++ match d with
     | O => EmptyString
     | S _ => "." ++ fixed_digits d (m mod 10 ^ Z.of_nat d)
     end.

(** The fee [transformTx] computes. *)
Definition feeOf (tx : Tx) : result jsval :=
  if truthy (tx_gasUsed tx)
  then g <- Big (tx_gasUsed tx) ;;
       f <- times g (tx_gasPrice tx) ;;
       OK (JStr (toFixed f))
  else OK (JNum (-1)).

Definition feeNumeric (tx : Tx) : bool :=
  implb (truthy (tx_gasUsed tx))
        (isNumeric (tx_gasUsed tx) && isNumeric (tx_gasPrice tx)).

(** The transaction [transformTx] returns once the fee is known. *)
Definition normalizedWith (address : string) (tx : Tx) (fee : jsval) : Tx :=
  if String.eqb (tx_from tx) address
  then set_value (set_fee tx fee) (JStr ("-" ++ js_to_string (tx_value tx)))
  else set_fee tx fee.

(** The sum the specification describes: over the history entries with
    fewer than [minConf] confirmations that this address sent, the absolute
    value plus gas times gas price. *)
Definition isPending (w : Wallet) (tx : Tx) : bool :=
  ((tx_confirmations tx <? minConf w)
   && String.eqb (tx_from tx) (addressString w))%bool.

Definition spendQ (tx : Tx) : Q :=
  (Qabs (numQ (tx_value tx)) + numQ (tx_gas tx) * numQ (tx_gasPrice tx))%Q.

Definition pendingSpendsQ (w : Wallet) : Q :=
  fold_right Qplus 0%Q (map spendQ (filter (isPending w) (historyTxs w))).

Definition numericSpend (tx : Tx) : bool :=
  (isNumeric (tx_value tx) && isNumeric (tx_gas tx) && isNumeric (tx_gasPrice tx))%bool.

Definition pendingNumeric (w : Wallet) : bool :=
  forallb (fun tx => implb (isPending w tx) (numericSpend tx)) (historyTxs w).

Definition isRemote (ev : event) : bool :=
  match ev with
  | Remote _ => true
  | _ => false
  end.

(** The callbacks invoked, in order. *)
Definition callbacks (evs : list event) : list event :=
  filter (fun ev => negb (isRemote ev)) evs.

(** The requests sent to the remote API, in order. *)
Definition requests (evs : list event) : list event := filter isRemote evs.

(** A quantity whose magnitude fits the 32 bytes of a numeric field. *)
Definition fits32 (z : Z) : Prop := Z.abs z < 2 ^ 256.

(** A decimal integer whose magnitude fits 32 bytes. *)
Definition isQuantity (s : string) : bool :=
  match parse_int s with
  | Some z => Z.abs z <? 2 ^ 256
  | None => false
  end.

(** An error of the libraries that build and sign a transaction. *)
Definition libraryError (e : exn) : Prop :=
  match e with
  | AssertionError _ | UtilError | KeyError => True
  | _ => False
  end.

Section Vocabulary.

Context {crypto : Crypto}.

(** A recipient that reads as the 20 bytes [b]. *)
Definition recipient (to : string) (b : list byte) : Prop :=
  toBuffer to = OK b /\ List.length b = 20%nat.

(** The stored address is the address of the key material. *)
Definition addressInvariant (w : Wallet) : Prop :=
  addressString w = getAddressString (etherWallet w).

Definition validKey (w : Wallet) : Prop :=
  isValidPrivate (privKey (etherWallet w)) = true.

(** What [options.minConf || 5] evaluates to. *)
Definition minConfOrDefault (options : Options) : Z :=
  match opt_minConf options with
  | Some n => if n =? 0 then 5 else n
  | None => 5
  end.

Definition lookupRequests (address : string) (mc : Z) : list event :=
  [Remote (ReqBalance address mc); Remote (ReqTxsCount address);
   Remote ReqGasPrice; Remote (ReqTxs address)].

(** How the four lookups of the constructor are rejected, if they are. *)
Definition lookupRejections (api : API) (address : string) (mc : Z) : list (option exn) :=
  [rejection (addresses_balance api address mc);
   rejection (addresses_txsCount api address);
   rejection (common_gasPrice api);
   rejection (addresses_txs api address)].

(** The instance as the synchronous part of the constructor leaves it. *)
Definition initialWallet (options : Options) (ew : EtherWallet) : Wallet :=
  mkWallet (opt_networkName options) (JNum 0) (JNum 0) [] 0
           ew (getAddressString ew) "0" "21000" (minConfOrDefault options).

(** The callbacks of a successful construction. *)
Definition doneWith (options : Options) (that : Wallet) : list event :=
  Done None (Some that)
  :: (if opt_txDone options then [TxDone None (Some that)] else []).

(** A wallet whose every field is set from the key of the seed and from the
    results of the four lookups. *)
Definition fullyPopulated (api : API) (options : Options) (w : Wallet) : Prop :=
  exists ew r0 r1 r2 r3 txs,
    fromPrivateKey (hdMasterKey (opt_seed options)) = OK ew
    /\ addresses_balance api (getAddressString ew) (minConfOrDefault options) = OK r0
    /\ addresses_txsCount api (getAddressString ew) = OK r1
    /\ common_gasPrice api = OK r2
    /\ addresses_txs api (getAddressString ew) = OK r3
    /\ mapM (transformTx (getAddressString ew)) r3 = OK txs
    /\ w = mkWallet (opt_networkName options) (bi_balance r0) (bi_confirmedBalance r0)
                    txs r1 ew (getAddressString ew) r2 "21000"
                    (minConfOrDefault options).

(** How a construction ends once the seed has passed the assertion and
    given a key [ew]: a lookup was rejected; or the history did not
    normalize; or the wallet [w] was populated and delivered. *)
Inductive ending (api : API) (options : Options) (ew : EtherWallet)
  : list event -> Wallet -> Prop :=
| ending_rejected (err : exn) :
    In (Some err)
       (lookupRejections api (getAddressString ew) (minConfOrDefault options)) ->
    ending api options ew (doneError options err) (initialWallet options ew)
| ending_thrown (err : exn) r0 r1 r2 r3 :
    addresses_balance api (getAddressString ew) (minConfOrDefault options) = OK r0 ->
    addresses_txsCount api (getAddressString ew) = OK r1 ->
    common_gasPrice api = OK r2 ->
    addresses_txs api (getAddressString ew) = OK r3 ->
    mapM (transformTx (getAddressString ew)) r3 = Throw err ->
    ending api options ew (doneError options err)
           (mkWallet (opt_networkName options) (bi_balance r0) (bi_confirmedBalance r0)
                     [] r1 ew (getAddressString ew) r2 "21000"
                     (minConfOrDefault options))
| ending_delivered (w : Wallet) :
    fullyPopulated api options w ->
    ending api options ew (doneWith options w) w.

End Vocabulary.

(** ** Concrete data *)

(** A record with a valid private key; [address] is stored as given. *)
Definition recordWithAddress (address : string) : Serialized :=
  mkSerialized (JStr "ethereum") (JStr "0") (JStr "0") [] 0
               "0x0000000000000000000000000000000000000000000000000000000000000001"
               address "0" "21000" 5.

(** A private key (the scalar 1) and stand-ins for the cryptography. *)
Definition key1 : list byte := repeat x00 31 ++ [x01].

Definition testCrypto : Crypto :=
  {| hdMasterKey := fun _ => key1;
     privateToAddress := fun k => firstn 20 (rev k);
     ecsign := fun _ _ => [x1b];
     rlp_serialize := fun _ => [xf8; x65];
     bn_other := fun _ => 0;
     toBuffer_other := fun v => Some (list_byte_of_string v);
     intToBuffer_other := fun _ => None |}.

(** The address of [key1] under [testCrypto]. *)
Definition address1 : string := "0x0100000000000000000000000000000000000000".

(** The history of the specification's example, followed by an entry of
    another sender and by a confirmed entry. *)
Definition history1 : list Tx :=
  [mkTx address1 "0xb0b" (JStr "-50") (JStr "21000") (JStr "1") JUndefined (JNum (-1)) 1;
   mkTx "0xb0b" address1 (JStr "70") (JStr "21000") (JStr "1") JUndefined (JNum (-1)) 0;
   mkTx address1 "0xb0b" (JStr "-10") (JStr "21000") (JStr "3") (JStr "21000") (JStr "63000") 12].

Definition wallet1 : Wallet :=
  mkWallet (JStr "ethereum") (JStr "100000") (JStr "90000") history1 2
           (mkEtherWallet key1) address1 "2" "21000" 5.

(** A transaction sent from [address1], as the remote API returns it. *)
Definition rawTx1 : Tx :=
  mkTx address1 "0xb0b" (JStr "30") (JStr "21000") (JStr "2") JUndefined JUndefined 0.

Definition api1 : API :=
  mkAPI (fun _ _ => OK (mkBalanceInfo (JStr "100000") (JStr "90000")))
        (fun _ => OK 2)
        (OK "2")
        (fun _ => OK [rawTx1])
        (fun _ => OK "0x7e57")
        (fun _ _ => OK rawTx1).

(** The same API with the gas price lookup rejected. *)
Definition api_noGasPrice : API :=
  mkAPI (addresses_balance api1) (addresses_txsCount api1)
        (Throw (Rejection "gas price unavailable"))
        (addresses_txs api1) (transactions_propagate api1) (transactions_get api1).

(** The same API with the broadcast rejected. *)
Definition api_noPropagate : API :=
  mkAPI (addresses_balance api1) (addresses_txsCount api1) (common_gasPrice api1)
        (addresses_txs api1)
        (fun _ => Throw (Rejection "broadcast refused"))
        (transactions_get api1).

Definition options1 : Options := mkOptions (JStr "c0ffee") (JStr "ethereum") (Some 0) true.

Definition import_100_150 : ImportOptions :=
  mkImportOptions (JStr "100") (JStr "150") 7 address1 key1.

Definition import_150_150 : ImportOptions :=
  mkImportOptions (JStr "150") (JStr "150") 7 address1 key1.

(** The bytes [address1] spells. *)
Definition addressBytes1 : list byte := x01 :: repeat x00 19.

Definition tx1 : EthereumTx := mkEthereumTx (mkTxFields 2 2 21000 addressBytes1 30 1) None.

(** ** Vocabulary of the further properties *)

(** What [createPrivateKey] decodes: the string without a leading [0x]. *)
Definition strip0x (str : string) : string :=
  match str with
  | String "0"%char (String "x"%char rest) => rest
  | _ => str
  end.

(** [c.toUpperCase()] and [str.toUpperCase()] on ASCII. *)
Definition upper_ascii (c : ascii) : ascii :=
  let n := nat_of_ascii c in
  if ((97 <=? n) && (n <=? 122))%nat then ascii_of_nat (n - 32) else c.

Fixpoint toUpperCase (str : string) : string :=
  match str with
  | EmptyString => EmptyString
  | String c str' => String (upper_ascii c) (toUpperCase str')
  end.

(** Whether [c] occurs in a string, and the string cut at the first [c]. *)
Fixpoint contains (c : ascii) (str : string) : bool :=
  match str with
  | EmptyString => false
  | String d str' => (Ascii.eqb d c || contains c str')%bool
  end.

Fixpoint split_at (c : ascii) (str : string) : string * option string :=
  match str with
  | EmptyString => (EmptyString, None)
  | String d str' =>
      if Ascii.eqb d c then (EmptyString, Some str')
      else let (before, after) := split_at c str' in (String d before, after)
  end.

(** The argument a caller hands to [createImportTx]: what
    [getImportTxOptions] gave, with the fee and the recipient added. *)
Definition importOptions (src : ImportSource) (fee : jsval) (to : string) : ImportOptions :=
  mkImportOptions (src_amount src) fee (src_txsCount src) to (src_privateKey src).

(** A wallet that [new Wallet(options)] hands over in any way: returned,
    left behind by the handlers, or passed to a callback. *)
Definition handedOver (c : Construction) (w : Wallet) : Prop :=
  returned c = Some w
  \/ settled c = Some w
  \/ (exists e, In (Done e (Some w)) (events c))
  \/ (exists e, In (TxDone e (Some w)) (events c)).

(** Pending entries whose gas and gas price carry no minus sign. *)
Definition pendingUnsigned (w : Wallet) : bool :=
  forallb (fun tx => implb (isPending w tx)
                           (isUnsigned (tx_gas tx) && isUnsigned (tx_gasPrice tx)))
          (historyTxs w).

(** Validators that accept and that reject everything. *)
Definition acceptAll : Validator :=
  {| validator_transaction := fun _ _ _ => OK tt |}.

Definition rejectAll : Validator :=
  {| validator_transaction := fun _ _ _ => Throw (Error "Invalid address") |}.

(** A history entry whose gas used is not a number. *)
Definition badTx : Tx :=
  mkTx "0xb0b" "0xa11ce" (JStr "5") (JStr "21000") (JStr "2") (JStr "n/a") JUndefined 3.

Definition api_badHistory : API :=
  mkAPI (addresses_balance api1) (addresses_txsCount api1) (common_gasPrice api1)
        (fun _ => OK [rawTx1; badTx])
        (transactions_propagate api1) (transactions_get api1).

(** * Sanity checks *)

Example toFixed_strips_zeros : toFixed (mkBig 1500 2) = "15".
Proof. reflexivity. Qed.

Example toFixed_negative : toFixed (mkBig (-1505) 2) = "-15.05".
Proof. reflexivity. Qed.

Example toFixed_small : toFixed (mkBig 5 3) = "0.005".
Proof. reflexivity. Qed.

Example parse_big_fraction : parse_big "-15.050" = Some (mkBig (-15050) 3).
Proof. reflexivity. Qed.

Example parse_big_exponent : parse_big "1.5e3" = Some (mkBig 1500 0).
Proof. reflexivity. Qed.

Example parse_big_leading_point : parse_big ".5E-2" = Some (mkBig 5 3).
Proof. reflexivity. Qed.

Example parse_big_trailing_point : parse_big "5." = Some (mkBig 5 0).
Proof. reflexivity. Qed.

Example parse_big_rejects :
  map parse_big ["--5"; "."; "1e"; "12a"; "+5"; " 5"; "0x10"; "undefined"]
  = [None; None; None; None; None; None; None; None].
Proof. reflexivity. Qed.

Example string_of_int_negative : string_of_int (-120) = "-120".
Proof. reflexivity. Qed.

Example createPrivateKey_key1 :
  createPrivateKey (s_privateKey (recordWithAddress address1)) = OK key1.
Proof. reflexivity. Qed.

Example createPrivateKey_short : createPrivateKey "0x01" = Throw (Error "Invalid private key").
Proof. reflexivity. Qed.

Example getAddressString_key1 :
  @getAddressString testCrypto (mkEtherWallet key1) = address1.
Proof. reflexivity. Qed.

Example getDefaultFee_wallet1 :
  (fee <- getDefaultFee wallet1 ;; OK (toFixed fee)) = OK "42000".
Proof. reflexivity. Qed.

Example getPendingSpends_wallet1 :
  (s <- getPendingSpends wallet1 ;; OK (toFixed s)) = OK "21050".
Proof. reflexivity. Qed.

Example transformTx_rawTx1 :
  transformTx address1 rawTx1
  = OK (mkTx address1 "0xb0b" (JStr "-30") (JStr "21000") (JStr "2")
             JUndefined (JNum (-1)) 0).
Proof. reflexivity. Qed.

Example transformTx_gasUsed_falsy :
  map (fun u => r <- transformTx address1
                      (mkTx "0xb0b" address1 (JStr "30") (JStr "21000") (JStr "2")
                            u JUndefined 0) ;;
                OK (tx_fee r, tx_value r))
      [JUndefined; JNull; JNum 0; JStr EmptyString; JStr "0"; JNum 21000]
  = [OK (JNum (-1), JStr "30"); OK (JNum (-1), JStr "30");
     OK (JNum (-1), JStr "30"); OK (JNum (-1), JStr "30");
     OK (JStr "0", JStr "30"); OK (JStr "42000", JStr "30")].
Proof. reflexivity. Qed.

Example processTx_wallet1 :
  let w := fst (processTx api1 wallet1 "0x7e57") in
  balance w = JStr "57970" /\ txsCount w = 3
  /\ List.length (historyTxs w) = 4%nat.
Proof. repeat split. Qed.

Example createImportTx_100_150 :
  @createImportTx testCrypto wallet1 import_100_150
  = Throw (Error "Insufficient funds").
Proof. reflexivity. Qed.

Example createTx_malformed_recipient :
  @createTx testCrypto acceptAll wallet1 "0xb0b" "30"
  = Throw (AssertionError "The field to must have byte length of 20").
Proof. reflexivity. Qed.

Example createTx_negative_value :
  @createTx testCrypto acceptAll wallet1 address1 "-5"
  = OK (mkEthereumTx (mkTxFields 2 2 21000 addressBytes1 5 1) (Some [x1b])).
Proof. reflexivity. Qed.

Example createImportTx_malformed_recipient :
  @createImportTx testCrypto wallet1
    (mkImportOptions (JStr "150") (JStr "150") 7 "0xb0b" key1)
  = Throw (AssertionError "The field to must have byte length of 20").
Proof. reflexivity. Qed.

Example createImportTx_invalid_key :
  @createImportTx testCrypto wallet1
    (mkImportOptions (JStr "150") (JStr "150") 7 address1 [])
  = Throw KeyError.
Proof. reflexivity. Qed.

Example getImportTxOptions_invalid_key :
  @getImportTxOptions testCrypto api1 [0; 1]%nat wallet1 [] = Throw KeyError.
Proof. reflexivity. Qed.

Example createImportTx_150_150 :
  @createImportTx testCrypto wallet1 import_150_150
  = OK (mkEthereumTx (mkTxFields 7 2 21000 addressBytes1 0 1) (Some [x1b])).
Proof. reflexivity. Qed.

(** * Properties *)

(** ** Digit strings *)

Lemma append_nil_r (s : string) : s ++ EmptyString = s.
Proof. induction s as [|c s IH]; simpl; [reflexivity | now rewrite IH]. Qed.

Lemma length_append (s1 s2 : string) :
  String.length (s1 ++ s2) = (String.length s1 + String.length s2)%nat.
Proof. induction s1 as [|c s1 IH]; simpl; [reflexivity | now rewrite IH]. Qed.

Lemma digit_char_is_digit (d : Z) : 0 <= d < 10 -> is_digit (digit_char d) = true.
Proof.
  intros Hd.
  assert (Hc : d = 0 \/ d = 1 \/ d = 2 \/ d = 3 \/ d = 4 \/ d = 5 \/ d = 6
               \/ d = 7 \/ d = 8 \/ d = 9) by lia.
  repeat (destruct Hc as [-> | Hc]; [reflexivity |]); subst; reflexivity.
Qed.

Lemma digit_val_char (d : Z) : 0 <= d < 10 -> digit_val (digit_char d) = d.
Proof.
  intros Hd.
  assert (Hc : d = 0 \/ d = 1 \/ d = 2 \/ d = 3 \/ d = 4 \/ d = 5 \/ d = 6
               \/ d = 7 \/ d = 8 \/ d = 9) by lia.
  repeat (destruct Hc as [-> | Hc]; [reflexivity |]); subst; reflexivity.
Qed.

Lemma digit_val_range (c : ascii) : is_digit c = true -> 0 <= digit_val c < 10.
Proof.
  unfold is_digit, digit_val. intros H.
  apply andb_true_iff in H as [H1 H2].
  apply Nat.leb_le in H1. apply Nat.leb_le in H2. lia.
Qed.

Lemma all_digits_app (s1 s2 : string) :
  all_digits (s1 ++ s2) = (all_digits s1 && all_digits s2)%bool.
Proof.
  induction s1 as [|c s1 IH]; simpl; [reflexivity |].
  now rewrite IH, andb_assoc.
Qed.

Lemma digits_val_app (acc : Z) (s1 s2 : string) :
  digits_val acc (s1 ++ s2) = digits_val (digits_val acc s1) s2.
Proof. revert acc. induction s1 as [|c s1 IH]; intros acc; simpl; [reflexivity | apply IH]. Qed.

Lemma digits_val_acc (acc : Z) (s : string) :
  digits_val acc s = acc * 10 ^ Z.of_nat (String.length s) + digits_val 0 s.
Proof.
  revert acc. induction s as [|c s IH]; intros acc.
  - simpl. lia.
  - cbn [digits_val String.length]. rewrite IH, (IH (10 * 0 + digit_val c)).
    rewrite Nat2Z.inj_succ, Z.pow_succ_r by lia. ring.
Qed.

Lemma fixed_digits_length (k : nat) (n : Z) : String.length (fixed_digits k n) = k.
Proof.
  revert n. induction k as [|k IH]; intros n; simpl; [reflexivity|].
  rewrite length_append, IH. simpl. lia.
Qed.

Lemma fixed_digits_all (k : nat) (n : Z) : all_digits (fixed_digits k n) = true.
Proof.
  revert n. induction k as [|k IH]; intros n; simpl; [reflexivity|].
  rewrite all_digits_app, IH. simpl.
  rewrite digit_char_is_digit; [reflexivity|].
  apply Z.mod_pos_bound. lia.
Qed.

Lemma fixed_digits_val (k : nat) (n : Z) :
  digits_val 0 (fixed_digits k n) = n mod 10 ^ Z.of_nat k.
Proof.
  revert n. induction k as [|k IH]; intros n.
  - simpl. now rewrite Z.mod_1_r.
  - cbn [fixed_digits]. rewrite digits_val_app, IH. cbn [digits_val].
    rewrite digit_val_char by (apply Z.mod_pos_bound; lia).
    rewrite Nat2Z.inj_succ, Z.pow_succ_r by lia.
    assert (Hp : 0 < 10 ^ Z.of_nat k) by (apply Z.pow_pos_nonneg; lia).
    rewrite Z.rem_mul_r by lia. lia.
Qed.

Lemma num_digits_fuel_bound (fuel : nat) (n : Z) :
  0 <= n < 2 ^ Z.of_nat (S fuel) ->
  n < 10 ^ Z.of_nat (num_digits_fuel fuel n).
Proof.
  revert n. induction fuel as [|f IH]; intros n Hn.
  - simpl in *. lia.
  - cbn [num_digits_fuel]. destruct (Z.ltb_spec n 10) as [Hlt|Hge].
    + simpl. lia.
    + rewrite Nat2Z.inj_succ, Z.pow_succ_r by lia.
      rewrite (Nat2Z.inj_succ (S f)), Z.pow_succ_r in Hn by lia.
      assert (Hq : n / 10 < 10 ^ Z.of_nat (num_digits_fuel f (n / 10))).
      { apply IH. split; [apply Z.div_pos; lia|].
        apply Z.div_lt_upper_bound; lia. }
      pose proof (Z.div_mod n 10 ltac:(lia)) as Hdm.
      pose proof (Z.mod_pos_bound n 10 ltac:(lia)). lia.
Qed.

Lemma num_digits_bound (n : Z) : 0 <= n -> n < 10 ^ Z.of_nat (num_digits n).
Proof.
  intros Hn. unfold num_digits.
  destruct (Z.eq_dec n 0) as [->|Hnz]; [reflexivity|].
  apply num_digits_fuel_bound. split; [assumption|].
  rewrite Nat2Z.inj_succ, Z2Nat.id by apply Z.log2_nonneg.
  apply (Z.log2_spec n). lia.
Qed.

Lemma num_digits_fuel_pos (fuel : nat) (n : Z) : (1 <= num_digits_fuel fuel n)%nat.
Proof. destruct fuel; simpl; [lia|]. destruct (n <? 10); lia. Qed.

Lemma nat_digits_all (n : Z) : all_digits (nat_digits n) = true.
Proof. apply fixed_digits_all. Qed.

Lemma nat_digits_nonempty (n : Z) : nat_digits n <> EmptyString.
Proof.
  unfold nat_digits. intros H.
  pose proof (fixed_digits_length (num_digits n) n) as Hl.
  rewrite H in Hl. simpl in Hl.
  pose proof (num_digits_fuel_pos (Z.to_nat (Z.log2 n)) n). unfold num_digits in Hl. lia.
Qed.

Lemma nat_digits_val (n : Z) : 0 <= n -> digits_val 0 (nat_digits n) = n.
Proof.
  intros Hn. unfold nat_digits. rewrite fixed_digits_val.
  apply Z.mod_small. split; [assumption | now apply num_digits_bound].
Qed.

Lemma span_digits_app (ds r : string) :
  all_digits ds = true -> starts_with_digit r = false ->
  span_digits (ds ++ r) = (ds, r).
Proof.
  intros Hds Hr. induction ds as [|c ds IH].
  - simpl. destruct r as [|c r]; [reflexivity|]. simpl in *. now rewrite Hr.
  - simpl in *. apply andb_true_iff in Hds as [Hc Hds].
    rewrite Hc, IH by assumption. reflexivity.
Qed.

(** ** big.js: printing and reading back *)

Lemma pow10_pos (k : nat) : 0 < 10 ^ Z.of_nat k.
Proof. apply Z.pow_pos_nonneg; lia. Qed.

Lemma strip_zeros_scale (c : Z) (d : nat) :
  coef (strip_zeros c d) * 10 ^ Z.of_nat d = c * 10 ^ Z.of_nat (dp (strip_zeros c d)).
Proof.
  revert c. induction d as [|d IH]; intros c; cbn [strip_zeros].
  - reflexivity.
  - destruct (Z.eqb_spec (c mod 10) 0) as [Hz|Hnz]; [|reflexivity].
    rewrite Nat2Z.inj_succ, Z.pow_succ_r by lia.
    pose proof (Z.div_mod c 10 ltac:(lia)) as Hdm. rewrite Hz in Hdm.
    specialize (IH (c / 10)).
    replace (coef (strip_zeros (c / 10) d) * (10 * 10 ^ Z.of_nat d))
      with (10 * (coef (strip_zeros (c / 10) d) * 10 ^ Z.of_nat d)) by ring.
    rewrite IH. set (q := c / 10) in *. rewrite Hdm. ring.
Qed.

Lemma bigQ_normalize (b : Big_t) : bigQ (normalize b) == bigQ b.
Proof.
  unfold normalize, bigQ, Qeq. cbn [Qnum Qden].
  rewrite !Z2Pos.id by apply pow10_pos.
  apply strip_zeros_scale.
Qed.

Lemma split_sign_digits (s r : string) :
  s <> EmptyString -> all_digits s = true -> split_sign (s ++ r) = (false, s ++ r).
Proof.
  intros Hne Hs. destruct s as [|c s]; [congruence|].
  cbn [all_digits] in Hs. apply andb_true_iff in Hs as [Hc _].
  cbn [append]. unfold split_sign.
  destruct (Ascii.eqb_spec c "-") as [->|Hn]; [discriminate Hc|].
  destruct c as [[] [] [] [] [] [] [] []]; try reflexivity. congruence.
Qed.

Lemma parse_unsigned_digits (neg : bool) (m : Z) (d : nat) :
  0 <= m ->
  parse_unsigned neg (unsigned_digits m d) = Some (mkBig (if neg then - m else m) d).
Proof.
  intros Hm. unfold parse_unsigned, unsigned_digits.
  pose proof (pow10_pos d) as Hp.
  destruct d as [|d].
  - rewrite span_digits_app by (apply nat_digits_all || reflexivity).
    pose proof (nat_digits_nonempty (m / 10 ^ Z.of_nat 0)) as Hne.
    apply String.eqb_neq in Hne. rewrite Hne. cbn [negb orb parse_exponent].
    rewrite append_nil_r, nat_digits_val by (apply Z.div_pos; lia).
    cbn [String.length Z.of_nat Z.leb Z.compare].
    change (10 ^ Z.of_nat 0) with 1. rewrite Z.div_1_r.
    f_equal. f_equal. destruct neg; change (10 ^ (0 - 0)) with 1; lia.
  - rewrite span_digits_app by (apply nat_digits_all || reflexivity).
    cbn [append].
    rewrite <- (append_nil_r (fixed_digits (S d) _)) at 1.
    rewrite span_digits_app by (apply fixed_digits_all || reflexivity).
    pose proof (nat_digits_nonempty (m / 10 ^ Z.of_nat (S d))) as Hne.
    apply String.eqb_neq in Hne. rewrite Hne. cbn [negb orb parse_exponent].
    rewrite fixed_digits_length.
    destruct (Z.leb_spec (Z.of_nat (S d)) 0) as [Hle|Hgt]; [lia|].
    rewrite digits_val_app, digits_val_acc, fixed_digits_length, fixed_digits_val.
    rewrite nat_digits_val by (apply Z.div_pos; lia).
    rewrite Z.sub_0_r, Nat2Z.id.
    pose proof (Z.div_mod m (10 ^ Z.of_nat (S d)) ltac:(lia)) as Hdm.
    rewrite Z.mod_mod by lia.
    rewrite (Z.mul_comm (m / 10 ^ Z.of_nat (S d))), <- Hdm. reflexivity.
Qed.

Lemma toFixed_unfold (b : Big_t) :
  toFixed b =
  (if coef (normalize b) <? 0 then "-" else EmptyString)
  ++ unsigned_digits (Z.abs (coef (normalize b))) (dp (normalize b)).
Proof. reflexivity. Qed.

(** Reading back what [toFixed] printed gives the same number, in lowest
    terms. *)
Lemma parse_big_toFixed (b : Big_t) : parse_big (toFixed b) = Some (normalize b).
Proof.
  rewrite toFixed_unfold. unfold parse_big.
  destruct (normalize b) as [c d]. cbn [coef dp].
  destruct (Z.ltb_spec c 0) as [Hneg|Hpos].
  - cbn [append split_sign].
    rewrite parse_unsigned_digits by lia. f_equal. f_equal. lia.
  - cbn [append]. unfold unsigned_digits at 1.
    rewrite split_sign_digits by (apply nat_digits_nonempty || apply nat_digits_all).
    fold (unsigned_digits (Z.abs c) d).
    rewrite parse_unsigned_digits by lia. f_equal. f_equal. lia.
Qed.

Lemma Big_toFixed (b : Big_t) : Big (JStr (toFixed b)) = OK (normalize b).
Proof. unfold Big. cbn [js_to_string]. now rewrite parse_big_toFixed. Qed.

Lemma numQ_toFixed (b : Big_t) : numQ (JStr (toFixed b)) == bigQ b.
Proof. unfold numQ. rewrite Big_toFixed. apply bigQ_normalize. Qed.

(** ** big.js: the arithmetic is exact *)

Lemma pow10_split (a d : nat) :
  (a <= d)%nat -> 10 ^ Z.of_nat d = 10 ^ Z.of_nat (d - a) * 10 ^ Z.of_nat a.
Proof.
  intros H. rewrite <- Z.pow_add_r by lia. f_equal. lia.
Qed.

Lemma bigQ_plus (x y : Big_t) : bigQ (big_plus x y) == bigQ x + bigQ y.
Proof.
  destruct x as [cx dx], y as [cy dy].
  unfold big_plus, bigQ, Qeq, Qplus. cbn [coef dp Qnum Qden].
  rewrite Pos2Z.inj_mul, !Z2Pos.id by apply pow10_pos.
  set (d := Nat.max dx dy).
  pose proof (pow10_split dx d ltac:(lia)) as Hx.
  pose proof (pow10_split dy d ltac:(lia)) as Hy.
  set (A := 10 ^ Z.of_nat (d - dx)) in *. set (B := 10 ^ Z.of_nat (d - dy)) in *.
  set (X := 10 ^ Z.of_nat dx) in *. set (Y := 10 ^ Z.of_nat dy) in *.
  replace ((cx * A + cy * B) * (X * Y))
    with (cx * (A * X) * Y + cy * (B * Y) * X) by ring.
  rewrite <- Hx, <- Hy. ring.
Qed.

Lemma bigQ_neg (x : Big_t) : bigQ (big_neg x) == - bigQ x.
Proof. unfold big_neg, bigQ, Qeq, Qopp. cbn [coef dp Qnum Qden]. ring. Qed.

Lemma bigQ_minus (x y : Big_t) : bigQ (big_minus x y) == bigQ x - bigQ y.
Proof. unfold big_minus, Qminus. now rewrite bigQ_plus, bigQ_neg. Qed.

Lemma bigQ_times (x y : Big_t) : bigQ (big_times x y) == bigQ x * bigQ y.
Proof.
  unfold big_times, bigQ, Qeq, Qmult. cbn [coef dp Qnum Qden].
  rewrite Pos2Z.inj_mul, !Z2Pos.id by apply pow10_pos.
  rewrite Nat2Z.inj_add, Z.pow_add_r by lia. ring.
Qed.

Lemma bigQ_abs (x : Big_t) : bigQ (big_abs x) == Qabs (bigQ x).
Proof. reflexivity. Qed.

Lemma big_lt0_spec (x : Big_t) : big_lt0 x = true <-> (bigQ x < 0)%Q.
Proof.
  unfold big_lt0, bigQ, Qlt. cbn [Qnum Qden]. rewrite Z.ltb_lt. lia.
Qed.

(** ** Numeric fields *)

Lemma isNumeric_Big (v : jsval) :
  isNumeric v = true -> exists b, Big v = OK b /\ numQ v = bigQ b.
Proof.
  unfold isNumeric, numQ. destruct (Big v) as [b|e]; [|discriminate].
  intros _. now exists b.
Qed.

Ltac numeric H b Hb Hq :=
  destruct (isNumeric_Big _ H) as (b & Hb & Hq).

(** ** Fees and pending spends *)

Lemma reduce_pending (w : Wallet) (l : list Tx) (acc : Big_t) :
  forallb (fun tx => implb (isPending w tx) (numericSpend tx)) l = true ->
  exists s,
    reduceM (fun sum tx =>
               if ((tx_confirmations tx <? minConf w)
                   && String.eqb (tx_from tx) (addressString w))%bool
               then v <- Big (tx_value tx) ;;
                    g <- Big (tx_gas tx) ;;
                    c <- times g (tx_gasPrice tx) ;;
                    let amount := big_plus (big_abs v) c in
                    OK (big_plus sum amount)
               else OK sum) l acc = OK s
    /\ bigQ s == bigQ acc + fold_right Qplus 0%Q (map spendQ (filter (isPending w) l)).
Proof.
  revert acc. induction l as [|tx l IH]; intros acc Hall.
  - exists acc. split; [reflexivity|]. simpl. ring.
  - cbn [forallb] in Hall. apply andb_true_iff in Hall as [Htx Hall].
    cbn [reduceM filter]. fold (isPending w tx).
    destruct (isPending w tx) eqn:Hp.
    + cbn [implb] in Htx. unfold numericSpend in Htx.
      apply andb_true_iff in Htx as [Htx Hgp].
      apply andb_true_iff in Htx as [Hv Hg].
      numeric Hv v Ev Qv. numeric Hg g Eg Qg. numeric Hgp p Ep Qp.
      unfold times. rewrite Ev, Eg, Ep. cbn [bind].
      destruct (IH (big_plus acc (big_plus (big_abs v) (big_times g p))) Hall)
        as (s & Hs & Hq).
      exists s. split; [exact Hs|].
      rewrite Hq, !bigQ_plus, bigQ_times, bigQ_abs. cbn [map fold_right].
      unfold spendQ. rewrite Qv, Qg, Qp. ring.
    + cbn [bind]. apply IH. exact Hall.
Qed.

(** C4.  [getPendingSpends] returns, exactly, the sum over the history
    entries that have fewer than [minConf] confirmations and were sent from
    this wallet's address of the absolute value of the entry plus its gas
    times its gas price; all other entries contribute nothing.  (The wallet
    is one whose pending entries carry numeric fields.) *)
Theorem getPendingSpends_exact (w : Wallet) :
  pendingNumeric w = true ->
  exists s, getPendingSpends w = OK s /\ bigQ s == pendingSpendsQ w.
Proof.
  intros Hn. unfold getPendingSpends.
  change (Big (JNum 0)) with (OK (mkBig 0 0)). cbn [bind].
  destruct (reduce_pending w (historyTxs w) (mkBig 0 0) Hn) as (s & Hs & Hq).
  exists s. split; [exact Hs|].
  rewrite Hq. unfold pendingSpendsQ. change (bigQ (mkBig 0 0)) with 0%Q. ring.
Qed.

(** C9.  [getDefaultFee] is the exact product of the stored gas limit and
    gas price; with gas limit 21000 and gas price 2 it prints as 42000. *)
Theorem getDefaultFee_exact (w : Wallet) :
  isNumeric (JStr (gasLimit w)) = true ->
  isNumeric (JStr (gasPrice w)) = true ->
  exists fee,
    getDefaultFee w = OK fee
    /\ bigQ fee == numQ (JStr (gasLimit w)) * numQ (JStr (gasPrice w))
    /\ (gasLimit w = "21000" -> gasPrice w = "2" -> toFixed fee = "42000").
Proof.
  intros Hl Hp. numeric Hl l El Ql. numeric Hp p Ep Qp.
  unfold getDefaultFee, times. rewrite El, Ep. cbn [bind].
  exists (big_times l p). split; [reflexivity|]. split.
  - rewrite bigQ_times, Ql, Qp. reflexivity.
  - intros Gl Gp. rewrite Gl in El. rewrite Gp in Ep.
    vm_compute in El. vm_compute in Ep.
    injection El as <-. injection Ep as <-. reflexivity.
Qed.

(** ** Private keys in hexadecimal *)

Lemma hex_decode_byte (b : byte) (rest : string) :
  hex_decode (byte_to_hex b ++ rest) = b :: hex_decode rest.
Proof. destruct b; reflexivity. Qed.

Lemma hex_decode_encode (buf : list byte) : hex_decode (hex_encode buf) = buf.
Proof.
  induction buf as [|b buf IH]; [reflexivity|].
  cbn [hex_encode]. rewrite hex_decode_byte, IH. reflexivity.
Qed.

(** Parsing the hexadecimal form of a valid private key gives the key back. *)
Lemma createPrivateKey_bufferToHex (k : list byte) :
  isValidPrivate k = true -> createPrivateKey (bufferToHex k) = OK k.
Proof.
  intros Hk. unfold createPrivateKey, bufferToHex. cbn [append].
  rewrite hex_decode_encode, Hk. reflexivity.
Qed.

Lemma fromPrivateKey_valid (k : list byte) :
  isValidPrivate k = true -> fromPrivateKey k = OK (mkEtherWallet k).
Proof. intros Hk. unfold fromPrivateKey. now rewrite Hk. Qed.

Lemma fromPrivateKey_OK (k : list byte) (ew : EtherWallet) :
  fromPrivateKey k = OK ew -> isValidPrivate k = true /\ ew = mkEtherWallet k.
Proof.
  unfold fromPrivateKey. destruct (isValidPrivate k); [|discriminate].
  intros [= <-]. now split.
Qed.

(** ** Serialization *)

Section Persistence.

Context {crypto : Crypto}.

(** C6 (as the code has it).  Deserializing what [serialize] produced
    gives back every persisted field (network name, balance, confirmed
    balance, history, transaction count, gas price, gas limit, minimum
    confirmations) and the key material, rebuilt from the persisted
    private key.  The address that comes back is the address of that key:
    it is the address of the wallet exactly when the wallet stored the
    address of its key, and then the wallet itself comes back.  (An
    account state holds a valid private key.) *)
Theorem deserialize_serialize (w : Wallet) :
  validKey w ->
  createPrivateKey (s_privateKey (serialize w)) = OK (privKey (etherWallet w))
  /\ exists w',
       deserialize (serialize w) = OK w'
       /\ networkName w' = networkName w
       /\ balance w' = balance w
       /\ confirmedBalance w' = confirmedBalance w
       /\ historyTxs w' = historyTxs w
       /\ txsCount w' = txsCount w
       /\ gasPrice w' = gasPrice w
       /\ gasLimit w' = gasLimit w
       /\ minConf w' = minConf w
       /\ etherWallet w' = etherWallet w
       /\ addressString w' = getAddressString (etherWallet w)
       /\ (addressString w' = addressString w <-> addressInvariant w)
       /\ (addressInvariant w -> w' = w).
Proof.
  intros Hk. unfold validKey in Hk.
  assert (Hc : createPrivateKey (s_privateKey (serialize w))
               = OK (privKey (etherWallet w))).
  { unfold serialize, getPrivateKeyString. cbn [s_privateKey].
    now apply createPrivateKey_bufferToHex. }
  split; [exact Hc|].
  unfold deserialize. rewrite Hc. cbn [bind].
  rewrite fromPrivateKey_valid by exact Hk. cbn [bind].
  eexists. split; [reflexivity|].
  destruct w as [nn b cb h c [k] a gp gl mc].
  unfold serialize, getBalance, addressInvariant.
  cbn [s_networkName s_balance s_confirmedBalance s_historyTxs s_txsCount
       s_addressString s_gasPrice s_gasLimit s_minConf networkName balance
       confirmedBalance historyTxs txsCount etherWallet addressString gasPrice
       gasLimit minConf privKey].
  repeat (split; [reflexivity|]). split.
  - split; intros H; now symmetry.
  - intros ->. reflexivity.
Qed.

(** ** Sending *)

Lemma processTx_then_frame (that that' : Wallet) (raw tx' : Tx) :
  processTx_then that raw = OK (that', tx') ->
  etherWallet that' = etherWallet that
  /\ addressString that' = addressString that
  /\ networkName that' = networkName that
  /\ confirmedBalance that' = confirmedBalance that
  /\ gasPrice that' = gasPrice that
  /\ gasLimit that' = gasLimit that
  /\ minConf that' = minConf that.
Proof.
  unfold processTx_then, transformTxs.
  destruct (transformTx _ raw) as [t|e]; [|discriminate]. cbn [bind].
  destruct (Big (tx_gas t)) as [g|e]; [|discriminate]. cbn [bind].
  destruct (times g (tx_gasPrice t)) as [m|e]; [|discriminate]. cbn [bind].
  destruct (Big (balance that)) as [b|e]; [|discriminate]. cbn [bind].
  destruct (plus b (tx_value t)) as [b'|e]; [|discriminate]. cbn [bind].
  intros [= <- <-]. cbn. repeat split.
Qed.

Lemma processTx_frame (api : API) (this : Wallet) (txId : string) :
  etherWallet (fst (processTx api this txId)) = etherWallet this
  /\ addressString (fst (processTx api this txId)) = addressString this.
Proof.
  unfold processTx.
  destruct (transactions_get api txId (addressString this)) as [raw|e]; [|now split].
  destruct (processTx_then this raw) as [[that' tx']|e] eqn:E; [|now split].
  cbn [fst]. apply processTx_then_frame in E. tauto.
Qed.

Lemma sendTx_frame (api : API) (this : Wallet) (tx : EthereumTx) :
  etherWallet (fst (sendTx api this tx)) = etherWallet this
  /\ addressString (fst (sendTx api this tx)) = addressString this.
Proof.
  unfold sendTx.
  destruct (transactions_propagate api _) as [txId|e]; [|now split].
  pose proof (processTx_frame api this txId) as H.
  destruct (processTx api this txId) as [that' evs]. exact H.
Qed.

(** C7.  When the broadcast fails, or the broadcast succeeds and the fetch
    of the resulting transaction fails, [sendTx] hands that error, and
    nothing else, to its callback and leaves the wallet as it was. *)
Theorem sendTx_failure (api : API) (this : Wallet) (tx : EthereumTx) (err : exn) :
  let rawtx := "0x" ++ hex_encode (rlp_serialize tx) in
  transactions_propagate api rawtx = Throw err
  \/ (exists txId, transactions_propagate api rawtx = OK txId
                   /\ transactions_get api txId (addressString this) = Throw err) ->
  fst (sendTx api this tx) = this
  /\ callbacks (snd (sendTx api this tx)) = [Callback (Some err) None]
  /\ balance (fst (sendTx api this tx)) = balance this
  /\ txsCount (fst (sendTx api this tx)) = txsCount this
  /\ historyTxs (fst (sendTx api this tx)) = historyTxs this.
Proof.
  intros rawtx H.
  assert (G : fst (sendTx api this tx) = this
              /\ callbacks (snd (sendTx api this tx)) = [Callback (Some err) None]).
  { unfold sendTx. fold rawtx.
    destruct H as [Hp | (txId & Hp & Hg)]; rewrite Hp.
    - split; reflexivity.
    - unfold processTx. rewrite Hg. split; reflexivity. }
  destruct G as [G1 G2]. rewrite G1. repeat split. exact G2.
Qed.

End Persistence.

(** ** History normalization *)

Lemma split_sign_false (s : string) :
  fst (split_sign s) = false -> split_sign s = (false, s).
Proof.
  destruct s as [|c s]; [reflexivity|]. unfold split_sign.
  destruct c as [[] [] [] [] [] [] [] []]; try reflexivity. discriminate.
Qed.

Lemma parse_unsigned_neg (s : string) (b : Big_t) :
  parse_unsigned false s = Some b -> parse_unsigned true s = Some (big_neg b).
Proof.
  unfold parse_unsigned.
  destruct (span_digits s) as [ip r1].
  destruct (match r1 with
            | String "."%char r => let (f, r') := span_digits r in (true, f, r')
            | _ => (false, EmptyString, r1)
            end) as [[hasDot fp] r2].
  destruct (negb (ip =? EmptyString)%string || hasDot && negb (fp =? EmptyString)%string)%bool;
    [|discriminate].
  destruct (parse_exponent r2) as [e|]; [|discriminate].
  destruct (Z.of_nat (String.length fp) <=? e); intros [= <-];
    unfold big_neg; cbn [coef dp]; do 2 f_equal. ring.
Qed.

(** Prefixing a minus to an unsigned numeric literal negates it. *)
Lemma Big_minus_prefix (v : jsval) :
  isUnsigned v = true ->
  exists b, Big v = OK b
            /\ Big (JStr ("-" ++ js_to_string v)) = OK (big_neg b).
Proof.
  unfold isUnsigned, isNumeric. intros H.
  apply andb_true_iff in H as [Hn Hs].
  apply negb_true_iff in Hs. apply split_sign_false in Hs.
  unfold Big in *. cbn [js_to_string append].
  unfold parse_big in *. rewrite Hs in Hn. cbn [split_sign].
  destruct (parse_unsigned false (js_to_string v)) as [b|] eqn:E; [|discriminate].
  exists b. rewrite Hs, E. split; [reflexivity|].
  now rewrite (parse_unsigned_neg _ _ E).
Qed.

Lemma numQ_minus_prefix (v : jsval) :
  isUnsigned v = true ->
  numQ (JStr ("-" ++ js_to_string v)) == - numQ v.
Proof.
  intros H. destruct (Big_minus_prefix v H) as (b & E1 & E2).
  unfold numQ. rewrite E1, E2. apply bigQ_neg.
Qed.

Lemma isUnsigned_numeric (v : jsval) : isUnsigned v = true -> isNumeric v = true.
Proof. unfold isUnsigned. intros H. now apply andb_true_iff in H as [H _]. Qed.

Lemma feeOf_OK (tx : Tx) :
  feeNumeric tx = true ->
  exists fee,
    feeOf tx = OK fee
    /\ (if truthy (tx_gasUsed tx)
        then numQ fee == numQ (tx_gasUsed tx) * numQ (tx_gasPrice tx)
        else fee = JNum (-1)).
Proof.
  unfold feeNumeric, feeOf. destruct (truthy (tx_gasUsed tx)); cbn [implb].
  - intros H. apply andb_true_iff in H as [Hu Hp].
    numeric Hu g Eg Qg. numeric Hp p Ep Qp.
    unfold times. rewrite Eg, Ep. cbn [bind].
    eexists. split; [reflexivity|].
    rewrite numQ_toFixed, bigQ_times, Qg, Qp. reflexivity.
  - intros _. eexists. split; reflexivity.
Qed.

Lemma transformTx_OK (address : string) (tx : Tx) :
  feeNumeric tx = true ->
  exists fee,
    transformTx address tx = OK (normalizedWith address tx fee)
    /\ (if truthy (tx_gasUsed tx)
        then numQ fee == numQ (tx_gasUsed tx) * numQ (tx_gasPrice tx)
        else fee = JNum (-1)).
Proof.
  intros Hf. destruct (feeOf_OK tx Hf) as (fee & Efee & Hfee).
  exists fee. split; [|exact Hfee].
  change (transformTx address tx)
    with (fee <- feeOf tx ;; OK (normalizedWith address tx fee)).
  now rewrite Efee.
Qed.

Lemma normalizedWith_fields (address : string) (tx : Tx) (fee : jsval) :
  tx_fee (normalizedWith address tx fee) = fee
  /\ tx_from (normalizedWith address tx fee) = tx_from tx
  /\ tx_to (normalizedWith address tx fee) = tx_to tx
  /\ tx_gas (normalizedWith address tx fee) = tx_gas tx
  /\ tx_gasPrice (normalizedWith address tx fee) = tx_gasPrice tx
  /\ tx_gasUsed (normalizedWith address tx fee) = tx_gasUsed tx
  /\ tx_confirmations (normalizedWith address tx fee) = tx_confirmations tx.
Proof.
  unfold normalizedWith. destruct (String.eqb (tx_from tx) address); repeat split.
Qed.

Lemma normalizedWith_value (address : string) (tx : Tx) (fee : jsval) :
  tx_value (normalizedWith address tx fee)
  = (if String.eqb (tx_from tx) address
     then JStr ("-" ++ js_to_string (tx_value tx))
     else tx_value tx).
Proof.
  unfold normalizedWith. destruct (String.eqb (tx_from tx) address); reflexivity.
Qed.

Lemma normalizedWith_numeric (address : string) (tx : Tx) (fee : jsval) :
  isUnsigned (tx_value tx) = true ->
  isNumeric (tx_value (normalizedWith address tx fee)) = true
  /\ numQ (tx_value (normalizedWith address tx fee))
     == (if String.eqb (tx_from tx) address
         then - numQ (tx_value tx) else numQ (tx_value tx)).
Proof.
  intros Hv. rewrite normalizedWith_value.
  destruct (String.eqb (tx_from tx) address).
  - split; [|now apply numQ_minus_prefix].
    destruct (Big_minus_prefix _ Hv) as (b & _ & E).
    unfold isNumeric. now rewrite E.
  - split; [now apply isUnsigned_numeric | reflexivity].
Qed.

(** C2.  Normalizing a raw transaction sets its fee to gas used times gas
    price when the transaction reports its gas used (the field is truthy,
    which is what the code tests: an absent field, null, the number 0 and
    the empty string report nothing), and to the number -1, which is not
    zero, otherwise; it negates the value exactly when the sender is this
    wallet's address, and touches no other field.  (A raw transaction
    carries an unsigned numeric value, and numeric gas used and gas price
    when it reports gas used.) *)
Theorem transformTx_normalizes (address : string) (tx : Tx) :
  feeNumeric tx = true ->
  isUnsigned (tx_value tx) = true ->
  exists tx',
    transformTx address tx = OK tx'
    /\ (truthy (tx_gasUsed tx) = true ->
        numQ (tx_fee tx') == numQ (tx_gasUsed tx) * numQ (tx_gasPrice tx))
    /\ (truthy (tx_gasUsed tx) = false ->
        tx_fee tx' = JNum (-1) /\ tx_fee tx' <> JNum 0 /\ ~ numQ (tx_fee tx') == 0)
    /\ (tx_from tx = address ->
        tx_value tx' = JStr ("-" ++ js_to_string (tx_value tx))
        /\ numQ (tx_value tx') == - numQ (tx_value tx))
    /\ (tx_from tx <> address -> tx_value tx' = tx_value tx)
    /\ tx_from tx' = tx_from tx /\ tx_to tx' = tx_to tx
    /\ tx_gas tx' = tx_gas tx /\ tx_gasPrice tx' = tx_gasPrice tx
    /\ tx_gasUsed tx' = tx_gasUsed tx
    /\ tx_confirmations tx' = tx_confirmations tx.
Proof.
  intros Hf Hv.
  destruct (transformTx_OK address tx Hf) as (fee & Et & Hfee).
  exists (normalizedWith address tx fee). split; [exact Et|].
  destruct (normalizedWith_fields address tx fee)
    as (Efee & Efrom & Eto & Egas & Egp & Egu & Econf).
  destruct (normalizedWith_numeric address tx fee Hv) as [_ Hq].
  rewrite Efee, normalizedWith_value in *.
  split; [intros Ht; now rewrite Ht in Hfee|].
  split.
  { intros Ht. rewrite Ht in Hfee. subst fee.
    split; [reflexivity|]. split; [discriminate|].
    vm_compute. discriminate. }
  split.
  { intros Heq. apply String.eqb_eq in Heq. rewrite Heq in *. now split. }
  split.
  { intros Hne. apply String.eqb_neq in Hne. now rewrite Hne. }
  repeat split; assumption.
Qed.

(** ** Recording a transaction *)

(** C3.  Once the sent transaction has been fetched, [processTx] sets the
    balance to balance + value - maxFee, where value is the normalized,
    signed value of the transaction and maxFee its gas times its gas price;
    it increments [txsCount] by one exactly when the sender is this
    wallet's address; and it puts the normalized entry at the front of the
    history.  (The balance and the fetched transaction carry numeric
    fields, the value unsigned.) *)
Theorem processTx_records (api : API) (this : Wallet) (txId : string) (raw : Tx) :
  transactions_get api txId (addressString this) = OK raw ->
  isNumeric (balance this) = true ->
  isUnsigned (tx_value raw) = true ->
  isNumeric (tx_gas raw) = true ->
  isNumeric (tx_gasPrice raw) = true ->
  feeNumeric raw = true ->
  exists historyTx,
    transformTx (addressString this) raw = OK historyTx
    /\ numQ (balance (fst (processTx api this txId)))
       == numQ (balance this) + numQ (tx_value historyTx)
          - numQ (tx_gas raw) * numQ (tx_gasPrice raw)
    /\ numQ (tx_value historyTx)
       == (if String.eqb (tx_from raw) (addressString this)
           then - numQ (tx_value raw) else numQ (tx_value raw))
    /\ txsCount (fst (processTx api this txId))
       = (if String.eqb (tx_from raw) (addressString this)
          then txsCount this + 1 else txsCount this)
    /\ historyTxs (fst (processTx api this txId)) = historyTx :: historyTxs this
    /\ callbacks (snd (processTx api this txId)) = [Callback None (Some historyTx)].
Proof.
  intros Hget Hb Hv Hg Hp Hf.
  destruct (transformTx_OK (addressString this) raw Hf) as (fee & Et & _).
  set (t := normalizedWith (addressString this) raw fee) in *.
  destruct (normalizedWith_fields (addressString this) raw fee)
    as (_ & Hfrom & _ & Hgas & Hgp & _).
  destruct (normalizedWith_numeric (addressString this) raw fee Hv) as [Hnv Hval].
  fold t in Hfrom, Hgas, Hgp, Hnv, Hval.
  exists t. split; [exact Et|].
  numeric Hb b Eb Qb. numeric Hg g Eg Qg. numeric Hp p Ep Qp. numeric Hnv v Ev Qv.
  assert (Ethen : processTx_then this raw
                  = OK (mkWallet (networkName this)
                          (JStr (toFixed (big_minus (big_plus b v) (big_times g p))))
                          (confirmedBalance this) (t :: historyTxs this)
                          (if String.eqb (tx_from raw) (addressString this)
                           then txsCount this + 1 else txsCount this)
                          (etherWallet this) (addressString this) (gasPrice this)
                          (gasLimit this) (minConf this), t)).
  { unfold processTx_then, transformTxs, times, plus.
    rewrite Et. cbn [bind]. rewrite Hgas, Hgp, Hfrom, Eg, Ep, Eb, Ev.
    reflexivity. }
  unfold processTx. rewrite Hget, Ethen. cbn [fst snd balance txsCount historyTxs].
  split.
  { rewrite numQ_toFixed, bigQ_minus, bigQ_plus, bigQ_times, Qb, Qv, Qg, Qp.
    reflexivity. }
  split; [exact Hval|]. repeat split.
Qed.

(** ** Integers through big.js and bn.js *)

Lemma strip_zeros_int (d : nat) (c z : Z) :
  c = z * 10 ^ Z.of_nat d -> strip_zeros c d = mkBig z 0.
Proof.
  revert c. induction d as [|d IH]; intros c Hc; cbn [strip_zeros].
  - rewrite Hc. f_equal. change (10 ^ Z.of_nat 0) with 1. ring.
  - rewrite Nat2Z.inj_succ, Z.pow_succ_r in Hc by lia.
    assert (Hc' : c = z * 10 ^ Z.of_nat d * 10) by (rewrite Hc; ring).
    assert (Hm : c mod 10 = 0) by (rewrite Hc'; apply Z.mod_mul; lia).
    rewrite Hm. cbn [Z.eqb]. apply IH.
    rewrite Hc'. now rewrite Z.div_mul by lia.
Qed.

Lemma normalize_int (b : Big_t) (z : Z) :
  bigQ b == inject_Z z -> normalize b = mkBig z 0.
Proof.
  unfold bigQ, Qeq, inject_Z, normalize. cbn [Qnum Qden].
  rewrite Z2Pos.id by apply pow10_pos. intros H.
  apply strip_zeros_int. lia.
Qed.

Lemma all_digits_split_sign (ds : string) :
  ds <> EmptyString -> all_digits ds = true -> split_sign ds = (false, ds).
Proof.
  intros Hne Hd. rewrite <- (append_nil_r ds). now apply split_sign_digits.
Qed.

(** bn.js reads back the integer that [toFixed] printed. *)
Lemma parse_int_toFixed (b : Big_t) (z : Z) :
  bigQ b == inject_Z z -> parse_int (toFixed b) = Some z.
Proof.
  intros H. rewrite toFixed_unfold, (normalize_int b z H). cbn [coef dp].
  unfold unsigned_digits. change (10 ^ Z.of_nat 0) with 1.
  rewrite Z.div_1_r, append_nil_r. unfold parse_int.
  pose proof (nat_digits_nonempty (Z.abs z)) as Hne.
  pose proof (nat_digits_all (Z.abs z)) as Hall.
  destruct (Z.ltb_spec z 0) as [Hneg|Hpos].
  - cbn [append split_sign]. rewrite Hall.
    destruct (nat_digits (Z.abs z)) eqn:E; [congruence|]. rewrite <- E.
    rewrite nat_digits_val by lia. f_equal. lia.
  - cbn [append]. rewrite all_digits_split_sign by assumption. rewrite Hall.
    destruct (nat_digits (Z.abs z)) eqn:E; [congruence|]. rewrite <- E.
    rewrite nat_digits_val by lia. f_equal. lia.
Qed.

Section ImportTx.

Context {crypto : Crypto}.

Lemma BN_toFixed (b : Big_t) (z : Z) : bigQ b == inject_Z z -> BN (toFixed b) = z.
Proof. intros H. unfold BN. now rewrite (parse_int_toFixed b z H). Qed.

Lemma isQuantity_fits (s : string) : isQuantity s = true -> fits32 (BN s).
Proof.
  unfold isQuantity, fits32, BN. destruct (parse_int s) as [z|]; [|discriminate].
  apply Z.ltb_lt.
Qed.

(** *** What the transaction library accepts *)

Lemma all_hex_byte (b : byte) (rest : string) :
  all_hex (byte_to_hex b ++ rest) = all_hex rest.
Proof. destruct b; reflexivity. Qed.

Lemma all_hex_encode (buf : list byte) : all_hex (hex_encode buf) = true.
Proof.
  induction buf as [|b buf IH]; [reflexivity|].
  cbn [hex_encode]. now rewrite all_hex_byte.
Qed.

Lemma even_length_byte (b : byte) (rest : string) :
  Nat.even (String.length (byte_to_hex b ++ rest)) = Nat.even (String.length rest).
Proof. reflexivity. Qed.

Lemma padToEven_hex_encode (buf : list byte) : padToEven (hex_encode buf) = hex_encode buf.
Proof.
  unfold padToEven.
  assert (H : Nat.even (String.length (hex_encode buf)) = true).
  { induction buf as [|b buf IH]; [reflexivity|].
    cbn [hex_encode]. now rewrite even_length_byte. }
  now rewrite H.
Qed.

(** The hexadecimal form of a buffer reads as that buffer. *)
Lemma toBuffer_bufferToHex (buf : list byte) : toBuffer (bufferToHex buf) = OK buf.
Proof.
  unfold toBuffer, bufferToHex. cbn [append isHexString stripHexPrefix].
  now rewrite all_hex_encode, padToEven_hex_encode, hex_decode_encode.
Qed.

Lemma atMost32_fits (name : string) (v : Z) : v < 2 ^ 256 -> atMost32 name v = OK v.
Proof. intros H. unfold atMost32. apply Z.ltb_lt in H. now rewrite H. Qed.

Lemma atMost32_OK (name : string) (v r : Z) :
  atMost32 name v = OK r -> r = v /\ v < 2 ^ 256.
Proof.
  unfold atMost32. destruct (Z.ltb_spec v (2 ^ 256)); [|discriminate].
  intros [= <-]. now split.
Qed.

Lemma atMost32_Throw (name : string) (v : Z) (e : exn) :
  atMost32 name v = Throw e -> libraryError e.
Proof.
  unfold atMost32. destruct (v <? 2 ^ 256); [discriminate|]. intros [= <-]. exact I.
Qed.

Lemma exactly20_OK (name : string) (v r : list byte) :
  exactly20 name v = OK r -> r = v /\ (List.length v = 0 \/ List.length v = 20)%nat.
Proof.
  unfold exactly20.
  destruct (Nat.eqb_spec (List.length v) 0) as [H0|H0]; cbn [orb].
  - intros [= <-]. split; [reflexivity | now left].
  - destruct (Nat.eqb_spec (List.length v) 20) as [H20|H20]; [|discriminate].
    intros [= <-]. split; [reflexivity | now right].
Qed.

Lemma exactly20_Throw (name : string) (v : list byte) (e : exn) :
  exactly20 name v = Throw e ->
  libraryError e /\ List.length v <> 0%nat /\ List.length v <> 20%nat.
Proof.
  unfold exactly20.
  destruct (Nat.eqb_spec (List.length v) 0) as [H0|H0]; cbn [orb]; [discriminate|].
  destruct (Nat.eqb_spec (List.length v) 20) as [H20|H20]; [discriminate|].
  intros [= <-]. now repeat split.
Qed.

Lemma toBuffer_Throw (v : string) (e : exn) : toBuffer v = Throw e -> libraryError e.
Proof.
  unfold toBuffer. destruct (isHexString v); [discriminate|].
  destruct (toBuffer_other v); [discriminate|]. intros [= <-]. exact I.
Qed.

Lemma intToBuffer_Throw (i : Z) (e : exn) : intToBuffer i = Throw e -> libraryError e.
Proof.
  unfold intToBuffer. destruct (0 <=? i); [discriminate|].
  destruct (intToBuffer_other i); [discriminate|]. intros [= <-]. exact I.
Qed.

Lemma intToBuffer_natural (i : Z) : 0 <= i -> intToBuffer i = OK i.
Proof. intros H. unfold intToBuffer. apply Z.leb_le in H. now rewrite H. Qed.

(** A transaction is constructed from a natural nonce, quantities that fit
    32 bytes and a recipient of 20 bytes; it keeps the magnitudes. *)
Lemma new_EthereumTx_builds (data : TxData) (b : list byte) :
  0 <= d_nonce data < 2 ^ 256 ->
  fits32 (d_gasPrice data) ->
  fits32 (d_gasLimit data) ->
  recipient (d_to data) b ->
  fits32 (d_value data) ->
  new_EthereumTx data
  = OK (mkEthereumTx
          (mkTxFields (d_nonce data) (Z.abs (d_gasPrice data)) (Z.abs (d_gasLimit data))
                      b (Z.abs (d_value data)) (d_chainId data))
          None).
Proof.
  intros [Hn0 Hn] Hp Hl [Hb Hlen] Hv. unfold new_EthereumTx.
  rewrite (intToBuffer_natural _ Hn0). cbn [bind].
  rewrite (atMost32_fits _ _ Hn). cbn [bind].
  rewrite (atMost32_fits _ _ Hp). cbn [bind].
  rewrite (atMost32_fits _ _ Hl). cbn [bind].
  rewrite Hb. cbn [bind]. unfold exactly20. rewrite Hlen. cbn [Nat.eqb orb bind].
  rewrite (atMost32_fits _ _ Hv). reflexivity.
Qed.

(** What a constructed transaction tells about the data it came from. *)
Lemma new_EthereumTx_OK (data : TxData) (tx : EthereumTx) :
  new_EthereumTx data = OK tx ->
  signature tx = None
  /\ intToBuffer (d_nonce data) = OK (f_nonce (fields tx))
  /\ f_gasPrice (fields tx) = Z.abs (d_gasPrice data)
  /\ f_gasLimit (fields tx) = Z.abs (d_gasLimit data)
  /\ toBuffer (d_to data) = OK (f_to (fields tx))
  /\ (List.length (f_to (fields tx)) = 0 \/ List.length (f_to (fields tx)) = 20)%nat
  /\ f_value (fields tx) = Z.abs (d_value data)
  /\ f_chainId (fields tx) = d_chainId data
  /\ f_nonce (fields tx) < 2 ^ 256
  /\ fits32 (d_gasPrice data) /\ fits32 (d_gasLimit data) /\ fits32 (d_value data).
Proof.
  unfold new_EthereumTx.
  destruct (intToBuffer (d_nonce data)) as [i|e]; [|discriminate]. cbn [bind].
  destruct (atMost32 "nonce" i) as [n|e] eqn:En; [|discriminate]. cbn [bind].
  destruct (atMost32 "gasPrice" _) as [p|e] eqn:Ep; [|discriminate]. cbn [bind].
  destruct (atMost32 "gasLimit" _) as [l|e] eqn:El; [|discriminate]. cbn [bind].
  destruct (toBuffer (d_to data)) as [v|e]; [|discriminate]. cbn [bind].
  destruct (exactly20 "to" v) as [t|e] eqn:Et; [|discriminate]. cbn [bind].
  destruct (atMost32 "value" _) as [w|e] eqn:Ew; [|discriminate]. cbn [bind].
  intros [= <-]. cbn [fields signature f_nonce f_gasPrice f_gasLimit f_to f_value f_chainId].
  apply atMost32_OK in En as [-> Hn]. apply atMost32_OK in Ep as [-> Hp].
  apply atMost32_OK in El as [-> Hl]. apply atMost32_OK in Ew as [-> Hw].
  apply exactly20_OK in Et as [-> Ht]. unfold fits32. now repeat split.
Qed.

Lemma new_EthereumTx_Throw (data : TxData) (e : exn) :
  new_EthereumTx data = Throw e -> libraryError e.
Proof.
  unfold new_EthereumTx.
  destruct (intToBuffer (d_nonce data)) as [i|e0] eqn:Ei; cbn [bind].
  2:{ intros [= <-]. exact (intToBuffer_Throw _ _ Ei). }
  destruct (atMost32 "nonce" i) as [n|e0] eqn:En; cbn [bind].
  2:{ intros [= <-]. exact (atMost32_Throw _ _ _ En). }
  destruct (atMost32 "gasPrice" _) as [p|e0] eqn:Ep; cbn [bind].
  2:{ intros [= <-]. exact (atMost32_Throw _ _ _ Ep). }
  destruct (atMost32 "gasLimit" _) as [l|e0] eqn:El; cbn [bind].
  2:{ intros [= <-]. exact (atMost32_Throw _ _ _ El). }
  destruct (toBuffer (d_to data)) as [v|e0] eqn:Ev; cbn [bind].
  2:{ intros [= <-]. exact (toBuffer_Throw _ _ Ev). }
  destruct (exactly20 "to" v) as [t|e0] eqn:Et; cbn [bind].
  2:{ intros [= <-]. exact (proj1 (exactly20_Throw _ _ _ Et)). }
  destruct (atMost32 "value" _) as [w|e0] eqn:Ew; cbn [bind].
  2:{ intros [= <-]. exact (atMost32_Throw _ _ _ Ew). }
  discriminate.
Qed.

(** A recipient that reads as a buffer of another length is refused. *)
Lemma new_EthereumTx_recipient (data : TxData) (v : list byte) :
  toBuffer (d_to data) = OK v ->
  List.length v <> 0%nat -> List.length v <> 20%nat ->
  is_ok (new_EthereumTx data) = false.
Proof.
  intros Hv H0 H20.
  destruct (new_EthereumTx data) as [tx|e] eqn:E; [|reflexivity].
  apply new_EthereumTx_OK in E as (_ & _ & _ & _ & Ht & Hlen & _).
  rewrite Hv in Ht. injection Ht as ->. tauto.
Qed.

Lemma sign_valid (tx : EthereumTx) (k : list byte) :
  isValidPrivate k = true ->
  sign tx k = OK (mkEthereumTx (fields tx) (Some (ecsign (fields tx) k))).
Proof. intros H. unfold sign. now rewrite H. Qed.

Lemma sign_OK (tx tx' : EthereumTx) (k : list byte) :
  sign tx k = OK tx' ->
  isValidPrivate k = true
  /\ fields tx' = fields tx
  /\ signature tx' = Some (ecsign (fields tx') k).
Proof.
  unfold sign. destruct (isValidPrivate k); [|discriminate].
  intros [= <-]. now repeat split.
Qed.

Lemma sign_Throw (tx : EthereumTx) (k : list byte) (e : exn) :
  sign tx k = Throw e -> e = KeyError /\ isValidPrivate k = false.
Proof.
  unfold sign. destruct (isValidPrivate k); [discriminate|].
  intros [= <-]. now split.
Qed.

(** Building and signing: what comes back, and what is thrown. *)
Lemma build_OK (data : TxData) (k : list byte) (tx : EthereumTx) :
  (t <- new_EthereumTx data ;; sign t k) = OK tx ->
  isValidPrivate k = true
  /\ signature tx = Some (ecsign (fields tx) k)
  /\ intToBuffer (d_nonce data) = OK (f_nonce (fields tx))
  /\ f_gasPrice (fields tx) = Z.abs (d_gasPrice data)
  /\ f_gasLimit (fields tx) = Z.abs (d_gasLimit data)
  /\ toBuffer (d_to data) = OK (f_to (fields tx))
  /\ (List.length (f_to (fields tx)) = 0 \/ List.length (f_to (fields tx)) = 20)%nat
  /\ f_value (fields tx) = Z.abs (d_value data)
  /\ f_chainId (fields tx) = d_chainId data.
Proof.
  destruct (new_EthereumTx data) as [t|e] eqn:E; [|discriminate]. cbn [bind].
  intros H. apply sign_OK in H as (Hk & Hf & Hs).
  apply new_EthereumTx_OK in E as (_ & Hn & Hp & Hl & Ht & Hlen & Hv & Hc & _).
  split; [exact Hk|]. split; [exact Hs|]. rewrite Hf. now repeat split.
Qed.

Lemma build_Throw (data : TxData) (k : list byte) (e : exn) :
  (t <- new_EthereumTx data ;; sign t k) = Throw e -> libraryError e.
Proof.
  destruct (new_EthereumTx data) as [t|e0] eqn:E; cbn [bind].
  - intros H. apply sign_Throw in H as [-> _]. exact I.
  - intros [= <-]. exact (new_EthereumTx_Throw _ _ E).
Qed.

Lemma build_succeeds (data : TxData) (k b : list byte) :
  0 <= d_nonce data < 2 ^ 256 ->
  fits32 (d_gasPrice data) ->
  fits32 (d_gasLimit data) ->
  recipient (d_to data) b ->
  fits32 (d_value data) ->
  isValidPrivate k = true ->
  (t <- new_EthereumTx data ;; sign t k)
  = OK (let f := mkTxFields (d_nonce data) (Z.abs (d_gasPrice data))
                            (Z.abs (d_gasLimit data)) b (Z.abs (d_value data))
                            (d_chainId data) in
        mkEthereumTx f (Some (ecsign f k))).
Proof.
  intros Hn Hp Hl Hb Hv Hk.
  rewrite (new_EthereumTx_builds data b Hn Hp Hl Hb Hv). cbn [bind].
  now rewrite sign_valid.
Qed.

Lemma build_invalid_key (data : TxData) (k : list byte) :
  isValidPrivate k = false -> is_ok (t <- new_EthereumTx data ;; sign t k) = false.
Proof.
  intros Hk. destruct (new_EthereumTx data) as [t|e]; [|reflexivity]. cbn [bind].
  unfold sign. now rewrite Hk.
Qed.

Lemma build_bad_recipient (data : TxData) (k v : list byte) :
  toBuffer (d_to data) = OK v ->
  List.length v <> 0%nat -> List.length v <> 20%nat ->
  is_ok (t <- new_EthereumTx data ;; sign t k) = false.
Proof.
  intros Hv H0 H20. pose proof (new_EthereumTx_recipient data v Hv H0 H20) as H.
  destruct (new_EthereumTx data); [discriminate | reflexivity].
Qed.

(** *** Importing *)

(** The data [createImportTx] hands to the transaction. *)
Lemma createImportTx_result (this : Wallet) (options : ImportOptions) (a f : Big_t) :
  Big (io_amount options) = OK a ->
  Big (io_fee options) = OK f ->
  createImportTx this options
  = (if big_lt0 (big_minus a f)
     then Throw (Error "Insufficient funds")
     else t <- new_EthereumTx
                 (mkTxData (io_txsCount options) (BN (gasPrice this))
                           (BN (gasLimit this)) (io_to options)
                           (BN (toFixed (big_minus a f))) 1) ;;
          sign t (io_privateKey options)).
Proof. intros Ea Ef. unfold createImportTx, minus. now rewrite Ea, Ef. Qed.

Lemma big_minus_lt0 (a f : Big_t) :
  big_lt0 (big_minus a f) = true <-> (bigQ a < bigQ f)%Q.
Proof.
  rewrite big_lt0_spec, bigQ_minus. split; intros H.
  - apply Qlt_minus_iff in H.
    setoid_replace (0 - (bigQ a - bigQ f))%Q with (bigQ f + - bigQ a)%Q in H by ring.
    now apply Qlt_minus_iff.
  - apply Qlt_minus_iff.
    setoid_replace (0 - (bigQ a - bigQ f))%Q with (bigQ f + - bigQ a)%Q by ring.
    now apply Qlt_minus_iff in H.
Qed.

Lemma createImportTx_funds (this : Wallet) (options : ImportOptions) (a f : Big_t) :
  Big (io_amount options) = OK a ->
  Big (io_fee options) = OK f ->
  (createImportTx this options = Throw (Error "Insufficient funds")
   <-> (bigQ a < bigQ f)%Q).
Proof.
  intros Ea Ef. rewrite (createImportTx_result this options a f Ea Ef).
  rewrite <- big_minus_lt0. destruct (big_lt0 (big_minus a f)).
  - split; reflexivity.
  - split; [|discriminate]. intros H. apply build_Throw in H. destruct H.
Qed.

Lemma createImportTx_builds (this : Wallet) (options : ImportOptions) (a f : Big_t)
    (z : Z) (b : list byte) :
  Big (io_amount options) = OK a ->
  Big (io_fee options) = OK f ->
  (bigQ f <= bigQ a)%Q ->
  bigQ a - bigQ f == inject_Z z ->
  z < 2 ^ 256 ->
  0 <= io_txsCount options < 2 ^ 256 ->
  isQuantity (gasPrice this) = true ->
  isQuantity (gasLimit this) = true ->
  recipient (io_to options) b ->
  isValidPrivate (io_privateKey options) = true ->
  0 <= z
  /\ createImportTx this options
     = OK (let f := mkTxFields (io_txsCount options) (Z.abs (BN (gasPrice this)))
                               (Z.abs (BN (gasLimit this))) b z 1 in
           mkEthereumTx f (Some (ecsign f (io_privateKey options)))).
Proof.
  intros Ea Ef Hle Hz Hz256 Hn Hp Hl Hb Hk.
  apply isQuantity_fits in Hp. apply isQuantity_fits in Hl.
  assert (Hz0 : 0 <= z).
  { rewrite Zle_Qle, <- Hz. change (inject_Z 0) with 0%Q.
    exact (proj1 (Qle_minus_iff (bigQ f) (bigQ a)) Hle). }
  split; [exact Hz0|].
  rewrite (createImportTx_result this options a f Ea Ef).
  destruct (big_lt0 (big_minus a f)) eqn:E.
  { apply big_minus_lt0 in E. exfalso. exact (Qlt_not_le _ _ E Hle). }
  assert (Hbn : BN (toFixed (big_minus a f)) = z).
  { apply BN_toFixed. now rewrite bigQ_minus. }
  rewrite (build_succeeds _ _ b); cbn [d_nonce d_gasPrice d_gasLimit d_to d_value d_chainId];
    try assumption.
  - rewrite Hbn. now rewrite (Z.abs_eq z Hz0).
  - rewrite Hbn. unfold fits32. now rewrite (Z.abs_eq z Hz0).
Qed.

(** What [createImportTx] tells about a transaction it returned. *)
Lemma createImportTx_OK (this : Wallet) (options : ImportOptions) (tx : EthereumTx) :
  createImportTx this options = OK tx ->
  isValidPrivate (io_privateKey options) = true
  /\ signature tx = Some (ecsign (fields tx) (io_privateKey options))
  /\ intToBuffer (io_txsCount options) = OK (f_nonce (fields tx))
  /\ f_gasPrice (fields tx) = Z.abs (BN (gasPrice this))
  /\ f_gasLimit (fields tx) = Z.abs (BN (gasLimit this))
  /\ toBuffer (io_to options) = OK (f_to (fields tx))
  /\ (List.length (f_to (fields tx)) = 0 \/ List.length (f_to (fields tx)) = 20)%nat
  /\ f_chainId (fields tx) = 1.
Proof.
  unfold createImportTx.
  destruct (Big (io_amount options)) as [a|e]; [|discriminate]. cbn [bind].
  destruct (minus a (io_fee options)) as [m|e]; [|discriminate]. cbn [bind].
  destruct (big_lt0 m); [discriminate|]. intros H.
  apply build_OK in H as (Hk & Hs & Hn & Hp & Hl & Ht & Hlen & _ & Hc).
  now repeat split.
Qed.

(** C1 (as the code has it).  [createImportTx] computes the amount to send
    as amount - fee.  It throws "Insufficient funds", building nothing,
    exactly when the amount is less than the fee.  Otherwise it hands the
    transaction library the nonce [options.txsCount], this wallet's gas
    price and gas limit, the recipient and the amount to send, and signs
    with [options.privateKey]: given a recipient of 20 bytes, a valid key
    and quantities that fit 32 bytes (amounts being whole numbers of the
    base unit), it returns the signed transaction with these fields.  A
    transaction comes back only for a valid key and a recipient of 20
    bytes or none: otherwise the transaction library throws. *)
Theorem createImportTx_spec (this : Wallet) (options : ImportOptions) :
  isNumeric (io_amount options) = true ->
  isNumeric (io_fee options) = true ->
  (createImportTx this options = Throw (Error "Insufficient funds")
   <-> (numQ (io_amount options) < numQ (io_fee options))%Q)
  /\ (forall (z : Z) (b : list byte),
         (numQ (io_fee options) <= numQ (io_amount options))%Q ->
         numQ (io_amount options) - numQ (io_fee options) == inject_Z z ->
         z < 2 ^ 256 ->
         0 <= io_txsCount options < 2 ^ 256 ->
         isQuantity (gasPrice this) = true ->
         isQuantity (gasLimit this) = true ->
         recipient (io_to options) b ->
         isValidPrivate (io_privateKey options) = true ->
         exists tx,
           createImportTx this options = OK tx
           /\ f_nonce (fields tx) = io_txsCount options
           /\ f_gasPrice (fields tx) = Z.abs (BN (gasPrice this))
           /\ f_gasLimit (fields tx) = Z.abs (BN (gasLimit this))
           /\ f_to (fields tx) = b
           /\ f_value (fields tx) = z
           /\ f_chainId (fields tx) = 1
           /\ signature tx = Some (ecsign (fields tx) (io_privateKey options)))
  /\ (forall tx,
         createImportTx this options = OK tx ->
         (numQ (io_fee options) <= numQ (io_amount options))%Q
         /\ isValidPrivate (io_privateKey options) = true
         /\ toBuffer (io_to options) = OK (f_to (fields tx))
         /\ (List.length (f_to (fields tx)) = 0
             \/ List.length (f_to (fields tx)) = 20)%nat).
Proof.
  intros Ha Hf. numeric Ha a Ea Qa. numeric Hf f Ef Qf. rewrite Qa, Qf.
  pose proof (createImportTx_funds this options a f Ea Ef) as Hfunds.
  split; [exact Hfunds|]. split.
  - intros z b Hle Hz Hz256 Hn Hp Hl Hb Hk.
    destruct (createImportTx_builds this options a f z b
                Ea Ef Hle Hz Hz256 Hn Hp Hl Hb Hk) as [_ E].
    eexists. split; [exact E|].
    cbn [fields signature f_nonce f_gasPrice f_gasLimit f_to f_value f_chainId].
    now repeat split.
  - intros tx E.
    pose proof (createImportTx_OK this options tx E)
      as (Hk & _ & _ & _ & _ & Ht & Hlen & _).
    split; [|now repeat split].
    apply Qnot_lt_le. intros Hlt. apply Hfunds in Hlt. rewrite E in Hlt. discriminate.
Qed.

End ImportTx.

(** ** Construction *)

Lemma first_rejection_In (order : list nat) (rs : list (option exn)) (e : exn) :
  first_rejection order rs = Some e -> In (Some e) rs.
Proof.
  induction order as [|i order IH]; cbn [first_rejection]; [discriminate|].
  destruct (nth i rs None) as [e'|] eqn:E; [|exact IH].
  intros [= <-].
  destruct (Nat.lt_ge_cases i (List.length rs)) as [Hlt|Hge].
  - rewrite <- E. now apply nth_In.
  - rewrite nth_overflow in E by exact Hge. discriminate.
Qed.

Lemma Promise_all4_Throw {A B C D : Type} (order : list nat)
    (p0 : result A) (p1 : result B) (p2 : result C) (p3 : result D) (e : exn) :
  Promise_all4 order p0 p1 p2 p3 = Throw e ->
  In (Some e) [rejection p0; rejection p1; rejection p2; rejection p3].
Proof.
  unfold Promise_all4.
  destruct (first_rejection order _) as [e'|] eqn:E.
  - intros [= <-]. now apply first_rejection_In in E.
  - destruct p0 as [a|e0]; cbn [bind rejection In].
    2:{ intros [= <-]. now left. }
    destruct p1 as [b|e1]; cbn [bind rejection In].
    2:{ intros [= <-]. right. now left. }
    destruct p2 as [c|e2]; cbn [bind rejection In].
    2:{ intros [= <-]. right. right. now left. }
    destruct p3 as [d|e3]; cbn [bind rejection In].
    2:{ intros [= <-]. right. right. right. now left. }
    discriminate.
Qed.

Lemma Promise_all4_OK {A B C D : Type} (order : list nat)
    (p0 : result A) (p1 : result B) (p2 : result C) (p3 : result D) a b c d :
  Promise_all4 order p0 p1 p2 p3 = OK (a, b, c, d) ->
  p0 = OK a /\ p1 = OK b /\ p2 = OK c /\ p3 = OK d.
Proof.
  unfold Promise_all4.
  destruct (first_rejection order _); [discriminate|].
  destruct p0, p1, p2, p3; cbn [bind]; try discriminate.
  intros [= <- <- <- <-]. repeat split.
Qed.

Lemma OK_inj {A : Type} (a b : A) : OK a = OK b -> a = b.
Proof. now intros [= ->]. Qed.

Lemma Some_inj {A : Type} (a b : A) : Some a = Some b -> a = b.
Proof. now intros [= ->]. Qed.

Lemma first_rejection_none (order : list nat) :
  first_rejection order [None; None; None; None] = None.
Proof.
  induction order as [|i order IH]; [reflexivity|]. cbn [first_rejection].
  destruct i as [|[|[|[|[|i]]]]]; exact IH.
Qed.

Lemma Promise_all4_fulfilled {A B C D : Type} (order : list nat) (a : A) (b : B) (c : C) (d : D) :
  Promise_all4 order (OK a) (OK b) (OK c) (OK d) = OK (a, b, c, d).
Proof. unfold Promise_all4. cbn [rejection]. now rewrite first_rejection_none. Qed.

Section Construction.

Context {crypto : Crypto}.

Lemma callbacks_lookupRequests (address : string) (mc : Z) (evs : list event) :
  callbacks (lookupRequests address mc ++ evs) = callbacks evs.
Proof. reflexivity. Qed.

Lemma requests_lookupRequests (address : string) (mc : Z) (evs : list event) :
  requests (lookupRequests address mc ++ evs) = (lookupRequests address mc ++ requests evs)%list.
Proof. reflexivity. Qed.

Lemma callbacks_doneError (options : Options) (err : exn) :
  callbacks (doneError options err) = doneError options err.
Proof. unfold doneError. destruct (opt_txDone options); reflexivity. Qed.

Lemma requests_doneError (options : Options) (err : exn) :
  requests (doneError options err) = [].
Proof. unfold doneError. destruct (opt_txDone options); reflexivity. Qed.

Lemma callbacks_doneWith (options : Options) (w : Wallet) :
  callbacks (doneWith options w) = doneWith options w.
Proof. unfold doneWith. destruct (opt_txDone options); reflexivity. Qed.

Lemma doneError_no_wallet (options : Options) (err : exn) (ev : event) :
  In ev (doneError options err) ->
  ev = Done (Some err) None \/ ev = TxDone (Some err) None.
Proof.
  unfold doneError. destruct (opt_txDone options); cbn [In]; intuition auto.
Qed.

Lemma doneWith_wallet (options : Options) (w : Wallet) (ev : event) :
  In ev (doneWith options w) ->
  ev = Done None (Some w) \/ ev = TxDone None (Some w).
Proof.
  unfold doneWith. destruct (opt_txDone options); cbn [In]; intuition auto.
Qed.

Lemma lookupRequests_remote (address : string) (mc : Z) (ev : event) :
  In ev (lookupRequests address mc) -> isRemote ev = true.
Proof.
  unfold lookupRequests. cbn [In].
  intros [<-|[<-|[<-|[<-|[]]]]]; reflexivity.
Qed.

Lemma new_Wallet_empty_seed (api : API) (order : list nat) (options : Options) :
  truthy (opt_seed options) = false ->
  new_Wallet api order options
  = OK (mkConstruction None
          (doneError options (AssertionError "seed cannot be empty")) None).
Proof. intros Hseed. unfold new_Wallet. now rewrite Hseed. Qed.

Lemma new_Wallet_no_key (api : API) (order : list nat) (options : Options) (err : exn) :
  truthy (opt_seed options) = true ->
  fromPrivateKey (hdMasterKey (opt_seed options)) = Throw err ->
  new_Wallet api order options = Throw err.
Proof. intros Hseed Hew. unfold new_Wallet. now rewrite Hseed, Hew. Qed.

Lemma new_Wallet_cases (api : API) (order : list nat) (options : Options)
    (ew : EtherWallet) :
  truthy (opt_seed options) = true ->
  fromPrivateKey (hdMasterKey (opt_seed options)) = OK ew ->
  exists tail last,
    new_Wallet api order options
    = OK (mkConstruction
            (Some (initialWallet options ew))
            (lookupRequests (getAddressString ew) (minConfOrDefault options) ++ tail)%list
            (Some last))
    /\ ending api options ew tail last.
Proof.
  intros Hseed Hew. unfold new_Wallet. rewrite Hseed, Hew. cbn [negb bind].
  cbn [addressString minConf].
  fold (minConfOrDefault options). fold (initialWallet options ew).
  fold (lookupRequests (getAddressString ew) (minConfOrDefault options)).
  destruct (Promise_all4 order _ _ _ _) as [[[[r0 r1] r2] r3]|err] eqn:E.
  - apply Promise_all4_OK in E as (E0 & E1 & E2 & E3).
    unfold new_Wallet_then, transformTxs, initialWallet.
    cbn [addressString minConf networkName etherWallet gasLimit historyTxs
         balance confirmedBalance txsCount gasPrice].
    destruct (mapM (transformTx (getAddressString ew)) r3) as [txs|err] eqn:Em.
    + eexists. eexists. split; [reflexivity|].
      apply ending_delivered.
      exists ew, r0, r1, r2, r3, txs. repeat split; assumption.
    + eexists. eexists. split; [reflexivity|].
      now apply (ending_thrown api options ew err r0 r1 r2 r3).
  - eexists. eexists. split; [reflexivity|].
    apply ending_rejected. now apply Promise_all4_Throw in E.
Qed.

(** Whatever the constructor does when it returns normally. *)
Lemma new_Wallet_OK (api : API) (order : list nat) (options : Options)
    (c : Construction) :
  new_Wallet api order options = OK c ->
  (truthy (opt_seed options) = false
   /\ c = mkConstruction None
            (doneError options (AssertionError "seed cannot be empty")) None)
  \/ (truthy (opt_seed options) = true
      /\ exists ew tail last,
           fromPrivateKey (hdMasterKey (opt_seed options)) = OK ew
           /\ c = mkConstruction
                    (Some (initialWallet options ew))
                    (lookupRequests (getAddressString ew) (minConfOrDefault options)
                     ++ tail)%list
                    (Some last)
           /\ ending api options ew tail last).
Proof.
  intros Hnew. destruct (truthy (opt_seed options)) eqn:Hseed.
  - right. split; [reflexivity|].
    destruct (fromPrivateKey (hdMasterKey (opt_seed options))) as [ew|err] eqn:Hew.
    + destruct (new_Wallet_cases api order options ew Hseed Hew) as (tail & last & E & Hc).
      rewrite E in Hnew. apply OK_inj in Hnew. subst c.
      now exists ew, tail, last.
    + rewrite (new_Wallet_no_key api order options err Hseed Hew) in Hnew. discriminate.
  - left. split; [reflexivity|].
    rewrite (new_Wallet_empty_seed api order options Hseed) in Hnew.
    now apply OK_inj in Hnew.
Qed.

(** A wallet reaches a callback of the constructor only fully populated,
    and without an error beside it. *)
Lemma new_Wallet_delivers (api : API) (order : list nat) (options : Options)
    (c : Construction) (e : option exn) (w : Wallet) :
  new_Wallet api order options = OK c ->
  In (Done e (Some w)) (events c) \/ In (TxDone e (Some w)) (events c) ->
  e = None /\ fullyPopulated api options w /\ settled c = Some w.
Proof.
  intros Hnew Hin.
  destruct (new_Wallet_OK api order options c Hnew)
    as [[_ ->] | (_ & ew & tail & last & _ & -> & Hend)]; cbn [events settled] in *.
  - destruct Hin as [H|H]; apply doneError_no_wallet in H as [H|H]; discriminate.
  - assert (Htail : In (Done e (Some w)) tail \/ In (TxDone e (Some w)) tail).
    { destruct Hin as [Hin|Hin]; apply in_app_or in Hin as [Hin|Hin];
        try (apply lookupRequests_remote in Hin; discriminate); auto. }
    destruct Hend as [err _ | err r0 r1 r2 r3 _ _ _ _ _ | w' Hw'].
    + destruct Htail as [H|H]; apply doneError_no_wallet in H as [H|H]; discriminate.
    + destruct Htail as [H|H]; apply doneError_no_wallet in H as [H|H]; discriminate.
    + destruct Htail as [H|H]; apply doneWith_wallet in H as [H|H];
        try discriminate; injection H as -> ->; now repeat split.
Qed.

(** With a seed that gives a key, four fulfilled lookups and a history
    that normalizes, the constructor delivers the populated wallet. *)
Lemma new_Wallet_success (api : API) (order : list nat) (options : Options)
    (w : Wallet) :
  truthy (opt_seed options) = true ->
  fullyPopulated api options w ->
  exists ew,
    new_Wallet api order options
    = OK (mkConstruction
            (Some (initialWallet options ew))
            (lookupRequests (getAddressString ew) (minConfOrDefault options)
             ++ doneWith options w)%list
            (Some w)).
Proof.
  intros Hseed (ew & r0 & r1 & r2 & r3 & txs & Hew & E0 & E1 & E2 & E3 & Em & ->).
  exists ew. unfold new_Wallet. rewrite Hseed, Hew. cbn [negb bind].
  cbn [addressString minConf].
  fold (minConfOrDefault options). fold (initialWallet options ew).
  rewrite E0, E1, E2, E3, Promise_all4_fulfilled.
  unfold new_Wallet_then, transformTxs, initialWallet.
  cbn [addressString minConf networkName etherWallet gasLimit historyTxs
       balance confirmedBalance txsCount gasPrice].
  rewrite Em. reflexivity.
Qed.

(** C5 (as the code has it).  With an empty seed the constructor calls
    back with the assertion error at once, having sent no request.
    Otherwise its callbacks receive either an error alone or a wallet
    alone, and such a wallet has every field set from the results of the
    four lookups; when one of the lookups is rejected they receive the
    reason of a rejected lookup and no wallet; when all four are fulfilled
    and the history normalizes they receive the populated wallet.  The
    instance itself is what the [new] expression evaluates to: the caller
    has it before any lookup settles, with balance 0, confirmed balance 0,
    transaction count 0, gas price 0 and an empty history, and it stays so
    when a lookup is rejected. *)
Theorem new_Wallet_callbacks_atomic (api : API) (order : list nat) (options : Options) :
  (truthy (opt_seed options) = false ->
   new_Wallet api order options
   = OK (mkConstruction None
           (doneError options (AssertionError "seed cannot be empty")) None)
   /\ requests (doneError options (AssertionError "seed cannot be empty")) = [])
  /\ (forall c,
         new_Wallet api order options = OK c ->
         (exists err, callbacks (events c) = doneError options err)
         \/ (exists w, callbacks (events c) = doneWith options w
                       /\ fullyPopulated api options w
                       /\ settled c = Some w))
  /\ (forall ew,
         truthy (opt_seed options) = true ->
         fromPrivateKey (hdMasterKey (opt_seed options)) = OK ew ->
         (exists e, In (Some e) (lookupRejections api (getAddressString ew)
                                                  (minConfOrDefault options))) ->
         exists err c,
           new_Wallet api order options = OK c
           /\ In (Some err) (lookupRejections api (getAddressString ew)
                                              (minConfOrDefault options))
           /\ requests (events c)
              = lookupRequests (getAddressString ew) (minConfOrDefault options)
           /\ callbacks (events c) = doneError options err
           /\ settled c = Some (initialWallet options ew))
  /\ (forall w,
         truthy (opt_seed options) = true ->
         fullyPopulated api options w ->
         exists c,
           new_Wallet api order options = OK c
           /\ callbacks (events c) = doneWith options w)
  /\ (forall ew,
         truthy (opt_seed options) = true ->
         fromPrivateKey (hdMasterKey (opt_seed options)) = OK ew ->
         exists c,
           new_Wallet api order options = OK c
           /\ returned c = Some (initialWallet options ew)).
Proof.
  split; [|split; [|split; [|split]]].
  - intros Hseed. split; [now apply new_Wallet_empty_seed | apply requests_doneError].
  - intros c Hnew.
    destruct (new_Wallet_OK api order options c Hnew)
      as [[_ ->] | (_ & ew & tail & last & _ & -> & Hend)]; cbn [events settled].
    + left. eexists. apply callbacks_doneError.
    + rewrite callbacks_lookupRequests.
      destruct Hend as [err _ | err r0 r1 r2 r3 _ _ _ _ _ | w' Hw'].
      * left. exists err. apply callbacks_doneError.
      * left. exists err. apply callbacks_doneError.
      * right. exists w'. split; [apply callbacks_doneWith | now split].
  - intros ew Hseed Hew Hrej.
    destruct (new_Wallet_cases api order options ew Hseed Hew) as (tail & last & E & Hend).
    destruct Hend as [err Hin | err r0 r1 r2 r3 E0 E1 E2 E3 _ | w' Hw'].
    + exists err. eexists. split; [exact E|]. cbn [events settled].
      split; [exact Hin|]. split; [|split; [|reflexivity]].
      * rewrite requests_lookupRequests, requests_doneError. apply app_nil_r.
      * rewrite callbacks_lookupRequests. apply callbacks_doneError.
    + exfalso. destruct Hrej as (e & He). unfold lookupRejections in He.
      rewrite E0, E1, E2, E3 in He. cbn in He.
      repeat (destruct He as [He|He]; [discriminate|]). contradiction.
    + exfalso. destruct Hrej as (e & He).
      destruct Hw' as (ew' & r0 & r1 & r2 & r3 & txs & Hew' & E0 & E1 & E2 & E3 & _).
      rewrite Hew in Hew'. apply OK_inj in Hew'. subst ew'.
      unfold lookupRejections in He. rewrite E0, E1, E2, E3 in He. cbn in He.
      repeat (destruct He as [He|He]; [discriminate|]). contradiction.
  - intros w Hseed Hw.
    destruct (new_Wallet_success api order options w Hseed Hw) as (ew & E).
    eexists. split; [exact E|]. cbn [events].
    rewrite callbacks_lookupRequests. apply callbacks_doneWith.
  - intros ew Hseed Hew.
    destruct (new_Wallet_cases api order options ew Hseed Hew) as (tail & last & E & _).
    eexists. split; [exact E | reflexivity].
Qed.

(** C10.  When [options.minConf] is absent or 0 the constructor uses 5:
    the balance is requested with 5 confirmations and the wallet it
    delivers has [minConf] 5. *)
Theorem minConf_defaults_when_falsy (api : API) (order : list nat) (options : Options) :
  opt_minConf options = None \/ opt_minConf options = Some 0 ->
  minConfOrDefault options = 5
  /\ (forall c,
         new_Wallet api order options = OK c ->
         (forall e w,
             In (Done e (Some w)) (events c) \/ In (TxDone e (Some w)) (events c) ->
             minConf w = 5)
         /\ (forall address m, In (Remote (ReqBalance address m)) (events c) -> m = 5)
         /\ (forall w, returned c = Some w \/ settled c = Some w -> minConf w = 5))
  /\ (forall w,
         truthy (opt_seed options) = true ->
         fullyPopulated api options w ->
         minConf w = 5
         /\ exists c, new_Wallet api order options = OK c
                      /\ In (Done None (Some w)) (events c)).
Proof.
  intros Hmc.
  assert (H5 : minConfOrDefault options = 5).
  { unfold minConfOrDefault. destruct Hmc as [-> | ->]; reflexivity. }
  split; [exact H5|]. split.
  - intros c Hnew. split; [|split].
    + intros e w Hin.
      destruct (new_Wallet_delivers api order options c e w Hnew Hin)
        as (_ & (ew & r0 & r1 & r2 & r3 & txs & _ & _ & _ & _ & _ & _ & ->) & _).
      exact H5.
    + intros address m Hin.
      destruct (new_Wallet_OK api order options c Hnew)
        as [[_ ->] | (_ & ew & tail & last & _ & -> & Hend)]; cbn [events] in Hin.
      * apply doneError_no_wallet in Hin as [H|H]; discriminate.
      * apply in_app_or in Hin as [Hin|Hin].
        -- unfold lookupRequests in Hin. cbn [In] in Hin.
           destruct Hin as [H|[H|[H|[H|[]]]]]; try discriminate.
           injection H as _ <-. exact H5.
        -- destruct Hend as [err _ | err r0 r1 r2 r3 _ _ _ _ _ | w' _].
           ++ apply doneError_no_wallet in Hin as [H|H]; discriminate.
           ++ apply doneError_no_wallet in Hin as [H|H]; discriminate.
           ++ apply doneWith_wallet in Hin as [H|H]; discriminate.
    + intros w Hw.
      destruct (new_Wallet_OK api order options c Hnew)
        as [[_ ->] | (_ & ew & tail & last & _ & -> & Hend)];
        cbn [returned settled] in Hw.
      * destruct Hw; discriminate.
      * destruct Hw as [Hw|Hw]; apply Some_inj in Hw; subst w; [exact H5|].
        destruct Hend as [err _ | err r0 r1 r2 r3 _ _ _ _ _ | w' Hw'];
          [exact H5 | exact H5 |].
        destruct Hw' as (ew' & r0 & r1 & r2 & r3 & txs & _ & _ & _ & _ & _ & _ & ->).
        exact H5.
  - intros w Hseed Hw.
    split.
    + destruct Hw as (ew & r0 & r1 & r2 & r3 & txs & _ & _ & _ & _ & _ & _ & ->).
      exact H5.
    + destruct (new_Wallet_success api order options w Hseed Hw) as (ew & E).
      eexists. split; [exact E|]. cbn [events].
      apply in_or_app. right. unfold doneWith. now left.
Qed.

End Construction.

(** ** The address and the key material *)

Section AddressInvariant.

Context {crypto : Crypto}.

Lemma deserialize_fields (json : Serialized) (w : Wallet) :
  deserialize json = OK w ->
  addressString w = s_addressString json
  /\ validKey w
  /\ createPrivateKey (s_privateKey json) = OK (privKey (etherWallet w)).
Proof.
  unfold deserialize, validKey.
  destruct (createPrivateKey (s_privateKey json)) as [k|e] eqn:Ek; [|discriminate].
  cbn [bind].
  destruct (fromPrivateKey k) as [ew|e] eqn:Eew; [|discriminate]. cbn [bind].
  apply fromPrivateKey_OK in Eew as [Hk ->].
  intros [= <-]. cbn [addressString etherWallet privKey]. now repeat split.
Qed.

Lemma deserialize_serialize_wallet (w0 w : Wallet) :
  deserialize (serialize w0) = OK w ->
  etherWallet w = etherWallet w0
  /\ addressString w = getAddressString (etherWallet w0).
Proof.
  intros H. destruct (deserialize_fields _ _ H) as (Ha & Hk & Hc).
  unfold serialize, getPrivateKeyString in Hc. cbn [s_privateKey] in Hc.
  unfold createPrivateKey, bufferToHex in Hc. cbn [append] in Hc.
  rewrite hex_decode_encode in Hc.
  destruct (isValidPrivate (privKey (etherWallet w0))); [|discriminate].
  cbn [negb] in Hc. apply OK_inj in Hc.
  split.
  - destruct (etherWallet w) as [k], (etherWallet w0) as [k0].
    cbn [privKey] in Hc. now rewrite Hc.
  - rewrite Ha. reflexivity.
Qed.

(** C8 (as the code has it).  A wallet that the constructor returns or
    delivers, and a wallet deserialized from what [serialize] produced,
    store the address of their key material; so does a wallet deserialized from any record
    whose [addressString] is the address of its private key, and only
    such a record: [deserialize] copies the address from the record.
    [processTx] and [sendTx] keep the key material and the address. *)
Theorem addressInvariant_established :
  (forall api order options c w,
      new_Wallet api order options = OK c ->
      (exists e, In (Done e (Some w)) (events c))
      \/ (exists e, In (TxDone e (Some w)) (events c))
      \/ returned c = Some w
      \/ settled c = Some w ->
      addressInvariant w /\ validKey w)
  /\ (forall w0 w,
         deserialize (serialize w0) = OK w -> addressInvariant w /\ validKey w)
  /\ (forall json w,
         deserialize json = OK w ->
         (addressInvariant w
          <-> s_addressString json = getAddressString (etherWallet w)))
  /\ (forall api w txId,
         addressInvariant w ->
         addressInvariant (fst (processTx api w txId))
         /\ etherWallet (fst (processTx api w txId)) = etherWallet w)
  /\ (forall api w tx,
         addressInvariant w ->
         addressInvariant (fst (sendTx api w tx))
         /\ etherWallet (fst (sendTx api w tx)) = etherWallet w).
Proof.
  split; [|split; [|split; [|split]]].
  - intros api order options c w Hnew Hw.
    assert (Hfp : forall w', fullyPopulated api options w' ->
                             addressInvariant w' /\ validKey w').
    { intros w' (ew & r0 & r1 & r2 & r3 & txs & Hew & _ & _ & _ & _ & _ & ->).
      apply fromPrivateKey_OK in Hew as [Hk ->].
      split; [reflexivity | exact Hk]. }
    destruct Hw as [(e & Hin) | [(e & Hin) | Hw]].
    + apply Hfp.
      now destruct (new_Wallet_delivers api order options c e w Hnew (or_introl Hin))
        as (_ & H & _).
    + apply Hfp.
      now destruct (new_Wallet_delivers api order options c e w Hnew (or_intror Hin))
        as (_ & H & _).
    + destruct (new_Wallet_OK api order options c Hnew)
        as [[_ ->] | (_ & ew & tail & last & Hew & -> & Hend)];
        cbn [returned settled] in Hw.
      * destruct Hw; discriminate.
      * apply fromPrivateKey_OK in Hew as [Hk Hew].
        assert (Hinit : addressInvariant (initialWallet options ew)
                        /\ validKey (initialWallet options ew)).
        { subst ew. split; [reflexivity | exact Hk]. }
        destruct Hw as [Hw|Hw]; apply Some_inj in Hw; subst w; [exact Hinit|].
        destruct Hend as [err _ | err r0 r1 r2 r3 _ _ _ _ _ | w' Hw'].
        -- exact Hinit.
        -- subst ew. split; [reflexivity | exact Hk].
        -- now apply Hfp.
  - intros w0 w H.
    destruct (deserialize_serialize_wallet w0 w H) as [He Ha].
    destruct (deserialize_fields _ _ H) as (_ & Hk & _).
    split; [|exact Hk]. unfold addressInvariant. now rewrite Ha, He.
  - intros json w H. destruct (deserialize_fields _ _ H) as (Ha & _ & _).
    unfold addressInvariant. now rewrite Ha.
  - intros api w txId Hinv.
    destruct (processTx_frame api w txId) as [He Ha].
    split; [|exact He]. unfold addressInvariant. now rewrite Ha, He.
  - intros api w tx Hinv.
    destruct (sendTx_frame api w tx) as [He Ha].
    split; [|exact He]. unfold addressInvariant. now rewrite Ha, He.
Qed.

End AddressInvariant.

(** C8 as stated fails.  Two records carry the private key 1 and differ in
    [addressString] only; both deserialize, and whatever the address of
    that key is, one of the two wallets stores an address that is not the
    address of its key material. *)
Lemma deserialize_copies_address :
  exists w0 w1,
    deserialize (recordWithAddress "0x0000000000000000000000000000000000000000") = OK w0
    /\ deserialize (recordWithAddress "0x0000000000000000000000000000000000000001") = OK w1
    /\ forall crypto : Crypto,
         ~ (@addressInvariant crypto w0 /\ @addressInvariant crypto w1).
Proof.
  eexists. eexists. split; [vm_compute; reflexivity|].
  split; [vm_compute; reflexivity|].
  intros crypto [H0 H1]. unfold addressInvariant in H0, H1.
  cbn [addressString etherWallet] in H0, H1.
  rewrite <- H0 in H1. discriminate H1.
Qed.

(** ** Concrete runs *)

(** Closed facts about the concrete data are settled by evaluation. *)
Ltac evaluated := vm_compute; repeat split; (reflexivity || discriminate).

(** C1 as stated fails: with amount 150 and fee 150 the amount is at most
    the fee, yet [createImportTx] throws nothing and returns a transaction
    of value 0. *)
Lemma createImportTx_amount_equals_fee :
  (numQ (io_amount import_150_150) <= numQ (io_fee import_150_150))%Q
  /\ forall crypto : Crypto,
       exists tx,
         @createImportTx crypto wallet1 import_150_150 = OK tx
         /\ f_value (fields tx) = 0.
Proof.
  split; [vm_compute; discriminate|].
  intros crypto. eexists. split; [reflexivity|]. reflexivity.
Qed.

Lemma createImportTx_spec_witness :
  isNumeric (io_amount import_100_150) = true
  /\ isNumeric (io_fee import_100_150) = true
  /\ @createImportTx testCrypto wallet1 import_100_150
     = Throw (Error "Insufficient funds")
  /\ @recipient testCrypto address1 addressBytes1
  /\ isValidPrivate key1 = true
  /\ exists tx,
       @createImportTx testCrypto wallet1
         (mkImportOptions (JStr "200000") (JStr "42000") 7 address1 key1) = OK tx
       /\ f_value (fields tx) = 158000
       /\ f_to (fields tx) = addressBytes1.
Proof.
  split; [reflexivity|]. split; [reflexivity|]. split.
  { apply (@createImportTx_spec testCrypto wallet1 import_100_150); reflexivity. }
  split; [evaluated|]. split; [reflexivity|].
  destruct (proj1 (proj2
              (@createImportTx_spec testCrypto wallet1
                 (mkImportOptions (JStr "200000") (JStr "42000") 7 address1 key1)
                 eq_refl eq_refl))
              158000 addressBytes1
              ltac:(evaluated) ltac:(evaluated) ltac:(evaluated) ltac:(evaluated)
              ltac:(evaluated) ltac:(evaluated) ltac:(evaluated) ltac:(evaluated))
    as (tx & E & _ & _ & _ & Ht & Hv & _).
  exists tx. split; [exact E|]. split; [exact Hv | exact Ht].
Defined.

Lemma transformTx_normalizes_witness :
  feeNumeric rawTx1 = true
  /\ isUnsigned (tx_value rawTx1) = true
  /\ exists tx',
       transformTx address1 rawTx1 = OK tx'
       /\ tx_fee tx' = JNum (-1)
       /\ tx_value tx' = JStr "-30".
Proof.
  split; [reflexivity|]. split; [reflexivity|].
  destruct (transformTx_normalizes address1 rawTx1 eq_refl eq_refl)
    as (tx' & E & _ & Hfee & Hval & _).
  exists tx'. split; [exact E|].
  split; [apply Hfee; reflexivity | apply Hval; reflexivity].
Defined.

Lemma processTx_records_witness :
  transactions_get api1 "0x7e57" (addressString wallet1) = OK rawTx1
  /\ exists historyTx,
       transformTx (addressString wallet1) rawTx1 = OK historyTx
       /\ txsCount (fst (processTx api1 wallet1 "0x7e57")) = 3
       /\ historyTxs (fst (processTx api1 wallet1 "0x7e57"))
          = historyTx :: historyTxs wallet1.
Proof.
  split; [reflexivity|].
  destruct (processTx_records api1 wallet1 "0x7e57" rawTx1
              eq_refl eq_refl eq_refl eq_refl eq_refl eq_refl)
    as (t & Et & _ & _ & Hc & Hh & _).
  exists t. split; [exact Et|]. split; [exact Hc | exact Hh].
Defined.

Lemma getPendingSpends_exact_witness :
  pendingNumeric wallet1 = true
  /\ exists s, getPendingSpends wallet1 = OK s
               /\ bigQ s == inject_Z (50 + 21000).
Proof.
  split; [reflexivity|].
  destruct (getPendingSpends_exact wallet1 eq_refl) as (s & Es & Hs).
  exists s. split; [exact Es|]. rewrite Hs. reflexivity.
Defined.

(** C5 as stated fails: with the gas price lookup rejected the callbacks
    receive the rejection, yet the caller holds the instance that [new]
    returned, with balance 0, transaction count 0, gas price 0 and an empty
    history: a state that is not fully populated. *)
Lemma new_Wallet_returns_instance :
  exists c w,
    @new_Wallet testCrypto api_noGasPrice [2; 0; 1; 3]%nat options1 = OK c
    /\ callbacks (events c)
       = doneError options1 (Rejection "gas price unavailable")
    /\ returned c = Some w
    /\ settled c = Some w
    /\ addresses_balance api_noGasPrice (addressString w) (minConf w)
       = OK (mkBalanceInfo (JStr "100000") (JStr "90000"))
    /\ balance w = JNum 0
    /\ confirmedBalance w = JNum 0
    /\ txsCount w = 0
    /\ gasPrice w = "0"
    /\ historyTxs w = []
    /\ ~ @fullyPopulated testCrypto api_noGasPrice options1 w.
Proof.
  eexists. eexists. split; [vm_compute; reflexivity|].
  repeat (split; [reflexivity|]).
  intros (ew & r0 & r1 & r2 & r3 & txs & _ & _ & _ & E2 & _). discriminate E2.
Qed.

Lemma new_Wallet_callbacks_atomic_witness :
  truthy (opt_seed options1) = true
  /\ exists err c,
       @new_Wallet testCrypto api_noGasPrice [2; 0; 1; 3]%nat options1 = OK c
       /\ callbacks (events c) = doneError options1 err.
Proof.
  split; [reflexivity|].
  destruct (proj1 (proj2 (proj2
              (@new_Wallet_callbacks_atomic testCrypto api_noGasPrice
                 [2; 0; 1; 3]%nat options1)))
              (mkEtherWallet key1) eq_refl eq_refl)
    as (err & c & E & _ & _ & Hc & _).
  - exists (Rejection "gas price unavailable"). right. right. left. reflexivity.
  - exists err, c. split; [exact E | exact Hc].
Defined.

(** C6 as stated fails.  Two wallets that [deserialize] built carry the
    private key 1 and store different addresses.  Whatever the address of
    that key is, [serialize] followed by [deserialize] gives both the same
    address, so at least one of them does not keep its own. *)
Lemma deserialize_serialize_changes_address :
  exists w0 w1,
    deserialize (recordWithAddress "0x0000000000000000000000000000000000000000") = OK w0
    /\ deserialize (recordWithAddress "0x0000000000000000000000000000000000000001") = OK w1
    /\ @validKey w0
    /\ @validKey w1
    /\ forall crypto : Crypto,
         exists w0' w1',
           @deserialize (@serialize crypto w0) = OK w0'
           /\ @deserialize (@serialize crypto w1) = OK w1'
           /\ ~ (addressString w0' = addressString w0
                 /\ addressString w1' = addressString w1).
Proof.
  eexists. eexists. split; [vm_compute; reflexivity|].
  split; [vm_compute; reflexivity|].
  split; [reflexivity|]. split; [reflexivity|].
  intros crypto. eexists. eexists.
  split; [vm_compute; reflexivity|]. split; [vm_compute; reflexivity|].
  cbn [addressString]. intros [H0 H1]. rewrite H0 in H1. discriminate H1.
Qed.

Lemma deserialize_serialize_witness :
  @validKey wallet1
  /\ exists w',
       @deserialize (@serialize testCrypto wallet1) = OK w'
       /\ balance w' = balance wallet1
       /\ etherWallet w' = etherWallet wallet1
       /\ addressString w' = address1.
Proof.
  split; [reflexivity|].
  destruct (@deserialize_serialize testCrypto wallet1 eq_refl)
    as (_ & w' & E & _ & Hb & _ & _ & _ & _ & _ & _ & He & Ha & _).
  exists w'. split; [exact E|]. split; [exact Hb|]. split; [exact He | exact Ha].
Defined.

Lemma sendTx_failure_witness :
  transactions_propagate api_noPropagate
    ("0x" ++ hex_encode (@rlp_serialize testCrypto tx1))
  = Throw (Rejection "broadcast refused")
  /\ fst (@sendTx testCrypto api_noPropagate wallet1 tx1) = wallet1.
Proof.
  split; [reflexivity|].
  apply (@sendTx_failure testCrypto api_noPropagate wallet1 tx1
           (Rejection "broadcast refused")).
  left. reflexivity.
Defined.

Lemma addressInvariant_established_witness :
  @deserialize (@serialize testCrypto wallet1) = OK wallet1
  /\ @addressInvariant testCrypto wallet1.
Proof.
  split; [reflexivity|].
  apply (proj1 (proj2 (@addressInvariant_established testCrypto)) wallet1 wallet1).
  reflexivity.
Defined.

Lemma getDefaultFee_exact_witness :
  isNumeric (JStr (gasLimit wallet1)) = true
  /\ isNumeric (JStr (gasPrice wallet1)) = true
  /\ exists fee, getDefaultFee wallet1 = OK fee /\ toFixed fee = "42000".
Proof.
  split; [reflexivity|]. split; [reflexivity|].
  destruct (getDefaultFee_exact wallet1 eq_refl eq_refl) as (fee & E & _ & H).
  exists fee. split; [exact E|]. apply H; reflexivity.
Defined.

Lemma minConf_defaults_when_falsy_witness :
  opt_minConf options1 = Some 0
  /\ truthy (opt_seed options1) = true
  /\ exists w c,
       @new_Wallet testCrypto api1 [0; 1; 2; 3]%nat options1 = OK c
       /\ In (Done None (Some w)) (events c)
       /\ minConf w = 5.
Proof.
  split; [reflexivity|]. split; [reflexivity|].
  assert (Hw : exists w, @fullyPopulated testCrypto api1 options1 w).
  { eexists. exists (mkEtherWallet key1). do 5 eexists.
    repeat split; reflexivity. }
  destruct Hw as (w & Hw).
  destruct (proj2 (proj2 (@minConf_defaults_when_falsy testCrypto api1
                            [0; 1; 2; 3]%nat options1 (or_intror eq_refl)))
              w eq_refl Hw) as (H5 & c & E & Hin).
  exists w, c. split; [exact E|]. split; [exact Hin | exact H5].
Defined.

(** * Further properties *)

(** ** Private keys as text *)

Lemma hex_decode_length_aux (n : nat) (str : string) :
  (String.length str <= n)%nat ->
  (2 * List.length (hex_decode str) <= String.length str)%nat.
Proof.
  revert str. induction n as [|n IH]; intros str Hn.
  - destruct str; [simpl; lia | simpl in Hn; lia].
  - destruct str as [|c1 [|c2 rest]]; cbn [hex_decode]; try (simpl; lia).
    destruct (hex_val c1) as [h|]; [|simpl; lia].
    destruct (hex_val c2) as [l|]; [|simpl; lia].
    destruct (Byte.of_N (16 * h + l)) as [b|]; [|simpl; lia].
    cbn [List.length String.length] in *.
    specialize (IH rest). destruct n as [|n]; [lia|].
    assert (String.length rest <= S n)%nat by lia.
    specialize (IH H). lia.
Qed.

Lemma hex_decode_length (str : string) :
  (2 * List.length (hex_decode str) <= String.length str)%nat.
Proof. now apply (hex_decode_length_aux (String.length str)). Qed.

Lemma isValidPrivate_spec (k : list byte) :
  isValidPrivate k = true <->
  List.length k = 32%nat /\ 0 < be_val k < secp256k1_n.
Proof.
  unfold isValidPrivate. rewrite !andb_true_iff, Nat.eqb_eq, !Z.ltb_lt. tauto.
Qed.

Lemma createPrivateKey_strip0x (str : string) :
  createPrivateKey str
  = (if negb (isValidPrivate (hex_decode (strip0x str)))
     then Throw (Error "Invalid private key")
     else OK (hex_decode (strip0x str))).
Proof. reflexivity. Qed.

(** X1.  [createPrivateKey] returns only a 32-byte scalar strictly between
    0 and the group order, decoded from the text after an optional [0x];
    every failure is "Invalid private key"; a text with fewer than 64
    characters after the prefix always fails. *)
Theorem createPrivateKey_outcome (str : string) :
  (forall k,
      createPrivateKey str = OK k ->
      k = hex_decode (strip0x str)
      /\ List.length k = 32%nat
      /\ 0 < be_val k < secp256k1_n
      /\ (64 <= String.length (strip0x str))%nat)
  /\ (forall e, createPrivateKey str = Throw e -> e = Error "Invalid private key")
  /\ ((String.length (strip0x str) < 64)%nat ->
      createPrivateKey str = Throw (Error "Invalid private key")).
Proof.
  rewrite createPrivateKey_strip0x.
  pose proof (hex_decode_length (strip0x str)) as Hlen.
  destruct (isValidPrivate (hex_decode (strip0x str))) eqn:E; cbn [negb].
  - apply isValidPrivate_spec in E as [Hl Hv].
    split; [|split].
    + intros k [= <-]. repeat split; try assumption; try apply Hv. lia.
    + discriminate.
    + intros Hs. lia.
  - split; [discriminate|]. split; [now intros e [= <-] | reflexivity].
Qed.

Lemma createPrivateKey_outcome_witness :
  (String.length (strip0x "0xc0ffee") < 64)%nat
  /\ createPrivateKey "0xc0ffee" = Throw (Error "Invalid private key").
Proof.
  split; [vm_compute; lia|].
  apply (proj2 (proj2 (createPrivateKey_outcome "0xc0ffee"))).
  vm_compute; lia.
Defined.

Lemma strip0x_byte_to_hex (b : byte) (rest : string) :
  strip0x (byte_to_hex b ++ rest) = byte_to_hex b ++ rest.
Proof. destruct b; reflexivity. Qed.

Lemma toUpperCase_app (s1 s2 : string) :
  toUpperCase (s1 ++ s2) = toUpperCase s1 ++ toUpperCase s2.
Proof. induction s1 as [|c s1 IH]; simpl; [reflexivity | now rewrite IH]. Qed.

Lemma hex_decode_upper_byte (b : byte) (rest : string) :
  hex_decode (toUpperCase (byte_to_hex b) ++ rest) = b :: hex_decode rest.
Proof. destruct b; reflexivity. Qed.

Lemma strip0x_upper_byte (b : byte) (rest : string) :
  strip0x (toUpperCase (byte_to_hex b) ++ rest) = toUpperCase (byte_to_hex b) ++ rest.
Proof. destruct b; reflexivity. Qed.

Lemma hex_decode_upper (buf : list byte) :
  hex_decode (toUpperCase (hex_encode buf)) = buf.
Proof.
  induction buf as [|b buf IH]; [reflexivity|].
  cbn [hex_encode]. rewrite toUpperCase_app, hex_decode_upper_byte, IH. reflexivity.
Qed.

Lemma strip0x_hex_encode (buf : list byte) :
  strip0x (hex_encode buf) = hex_encode buf
  /\ strip0x (toUpperCase (hex_encode buf)) = toUpperCase (hex_encode buf).
Proof.
  destruct buf as [|b buf]; [now split|]. cbn [hex_encode]. split.
  - apply strip0x_byte_to_hex.
  - rewrite toUpperCase_app. apply strip0x_upper_byte.
Qed.

(** X2.  The hexadecimal text of a valid private key reads back as that
    key, with or without the [0x] prefix and in either letter case. *)
Theorem createPrivateKey_reads_hex (k : list byte) :
  isValidPrivate k = true ->
  createPrivateKey (bufferToHex k) = OK k
  /\ createPrivateKey (hex_encode k) = OK k
  /\ createPrivateKey (toUpperCase (hex_encode k)) = OK k
  /\ createPrivateKey ("0x" ++ toUpperCase (hex_encode k)) = OK k.
Proof.
  intros Hk. destruct (strip0x_hex_encode k) as [Hs Hu].
  rewrite !createPrivateKey_strip0x.
  change (strip0x (bufferToHex k)) with (hex_encode k).
  change (strip0x ("0x" ++ toUpperCase (hex_encode k)))
    with (toUpperCase (hex_encode k)).
  rewrite Hs, Hu, hex_decode_encode, hex_decode_upper, Hk. cbn [negb].
  repeat split.
Qed.

Lemma createPrivateKey_reads_hex_witness :
  isValidPrivate key1 = true
  /\ createPrivateKey (toUpperCase (hex_encode key1)) = OK key1.
Proof.
  split; [reflexivity|].
  apply (createPrivateKey_reads_hex key1). reflexivity.
Defined.

(** ** Exporting the key *)

Lemma split_at_app (c : ascii) (s1 s2 : string) :
  contains c s1 = false ->
  split_at c (s1 ++ String c s2) = (s1, Some s2).
Proof.
  induction s1 as [|d s1 IH]; intros H; cbn [append split_at contains] in *.
  - now rewrite Ascii.eqb_refl.
  - apply orb_false_iff in H as [Hd Hs]. rewrite Hd, IH by exact Hs. reflexivity.
Qed.

Lemma append_assoc (s1 s2 s3 : string) : (s1 ++ s2) ++ s3 = s1 ++ (s2 ++ s3).
Proof. induction s1 as [|c s1 IH]; simpl; [reflexivity | now rewrite IH]. Qed.

Lemma split_at_snoc (c : ascii) (s1 s2 : string) :
  contains c s1 = false ->
  split_at c ((s1 ++ String c EmptyString) ++ s2) = (s1, Some s2).
Proof. intros H. rewrite append_assoc. now apply split_at_app. Qed.

Lemma contains_app (c : ascii) (s1 s2 : string) :
  contains c (s1 ++ s2) = (contains c s1 || contains c s2)%bool.
Proof.
  induction s1 as [|d s1 IH]; [reflexivity|]. cbn [append contains].
  now rewrite IH, orb_assoc.
Qed.

Lemma contains_comma_byte (b : byte) : contains "," (byte_to_hex b) = false.
Proof. destruct b; reflexivity. Qed.

Lemma contains_comma_hex (buf : list byte) : contains "," (hex_encode buf) = false.
Proof.
  induction buf as [|b buf IH]; [reflexivity|].
  cbn [hex_encode]. now rewrite contains_app, contains_comma_byte, IH.
Qed.

Section ExportKeys.

Context {crypto : Crypto}.

(** X3.  The text [exportPrivateKeys] produces has the header line
    [address,privatekey] and one row; cut at its comma the row gives the
    wallet's address and a key text that [createPrivateKey] reads back as
    the wallet's private key, whose address is the exported one. *)
Theorem exportPrivateKeys_reimports (w : Wallet) :
  validKey w ->
  addressInvariant w ->
  exists row keyText,
    split_at (ascii_of_nat 10) (exportPrivateKeys w)
    = ("address,privatekey", Some row)
    /\ split_at "," row = (addressString w, Some keyText)
    /\ keyText = hex_encode (privKey (etherWallet w))
    /\ createPrivateKey keyText = OK (privKey (etherWallet w))
    /\ (ew <- (k <- createPrivateKey keyText ;; fromPrivateKey k) ;;
        OK (getAddressString ew)) = OK (addressString w).
Proof.
  intros Hk Ha. unfold validKey in Hk.
  exists ((addressString w ++ ",") ++ hex_encode (privKey (etherWallet w))).
  exists (hex_encode (privKey (etherWallet w))).
  assert (Hc : createPrivateKey (hex_encode (privKey (etherWallet w)))
               = OK (privKey (etherWallet w))).
  { rewrite createPrivateKey_strip0x.
    rewrite (proj1 (strip0x_hex_encode _)), hex_decode_encode, Hk. reflexivity. }
  split; [|split; [|split; [reflexivity|split; [exact Hc|]]]].
  - unfold exportPrivateKeys, newline.
    change (substr 2 (getPrivateKeyString (etherWallet w)))
      with (hex_encode (privKey (etherWallet w))).
    apply split_at_snoc. reflexivity.
  - apply (split_at_snoc "," (addressString w)).
    rewrite Ha. unfold getAddressString, bufferToHex. cbn [append contains].
    apply contains_comma_hex.
  - rewrite Hc. cbn [bind]. rewrite fromPrivateKey_valid by exact Hk. cbn [bind].
    rewrite Ha. destruct (etherWallet w). reflexivity.
Qed.

End ExportKeys.

Lemma exportPrivateKeys_reimports_witness :
  @validKey wallet1
  /\ @addressInvariant testCrypto wallet1
  /\ exists row keyText,
       split_at "," row = (addressString wallet1, Some keyText)
       /\ createPrivateKey keyText = OK key1.
Proof.
  split; [reflexivity|]. split; [reflexivity|].
  destruct (@exportPrivateKeys_reimports testCrypto wallet1 eq_refl eq_refl)
    as (row & keyText & _ & Hrow & _ & Hkey & _).
  exists row, keyText. split; [exact Hrow | exact Hkey].
Defined.

(** ** When normalization fails *)

Lemma Big_cases (v : jsval) : (exists b, Big v = OK b) \/ Big v = Throw BigError.
Proof. unfold Big. destruct (parse_big (js_to_string v)) as [b|]; eauto. Qed.

Lemma isNumeric_false (v : jsval) : isNumeric v = false -> Big v = Throw BigError.
Proof.
  unfold isNumeric. destruct (Big_cases v) as [(b & ->) | ->]; [discriminate|reflexivity].
Qed.

Lemma feeOf_Throw (tx : Tx) : feeNumeric tx = false -> feeOf tx = Throw BigError.
Proof.
  unfold feeNumeric, feeOf. destruct (truthy (tx_gasUsed tx)); [|discriminate].
  cbn [implb]. intros H. apply andb_false_iff in H.
  destruct (isNumeric (tx_gasUsed tx)) eqn:Eu.
  - destruct H as [H|H]; [discriminate|].
    numeric Eu g Eg Qg. rewrite Eg. cbn [bind]. unfold times.
    now rewrite (isNumeric_false _ H).
  - now rewrite (isNumeric_false _ Eu).
Qed.

Lemma transformTx_Throw (address : string) (tx : Tx) :
  feeNumeric tx = false -> transformTx address tx = Throw BigError.
Proof.
  intros H.
  change (transformTx address tx)
    with (fee <- feeOf tx ;; OK (normalizedWith address tx fee)).
  now rewrite (feeOf_Throw tx H).
Qed.

(** X4.  [transformTx] fails exactly when the transaction has a truthy gas
    used and that field, or the gas price beside it, is not a number big.js
    accepts; the failure is big.js's.  The value, the gas and the other
    fields are never read as numbers: whatever they hold, it succeeds. *)
Theorem transformTx_fails_iff (address : string) (tx : Tx) :
  is_ok (transformTx address tx) = feeNumeric tx
  /\ (forall e, transformTx address tx = Throw e -> e = BigError)
  /\ (truthy (tx_gasUsed tx) = false -> is_ok (transformTx address tx) = true).
Proof.
  destruct (feeNumeric tx) eqn:E.
  - destruct (transformTx_OK address tx E) as (fee & -> & _).
    split; [reflexivity|]. split; [discriminate | reflexivity].
  - rewrite (transformTx_Throw address tx E).
    split; [reflexivity|]. split; [now intros e [= <-]|].
    intros Ht. unfold feeNumeric in E. rewrite Ht in E. discriminate.
Qed.

Lemma transformTx_fails_iff_witness :
  truthy (tx_gasUsed rawTx1) = false
  /\ is_ok (transformTx address1 rawTx1) = true
  /\ transformTx address1 badTx = Throw BigError.
Proof.
  destruct (transformTx_fails_iff address1 rawTx1) as (_ & _ & H).
  destruct (transformTx_fails_iff address1 badTx) as (Hb & He & _).
  split; [reflexivity|]. split; [apply H; reflexivity|].
  destruct (transformTx address1 badTx) as [t|e]; [discriminate Hb|].
  now rewrite (He e eq_refl).
Defined.

Lemma mapM_transformTx_Forall2 (address : string) (txs txs' : list Tx) :
  mapM (transformTx address) txs = OK txs' <->
  Forall2 (fun t t' => transformTx address t = OK t') txs txs'.
Proof.
  revert txs'. induction txs as [|t txs IH]; intros txs'; cbn [mapM].
  - split.
    + intros [= <-]. constructor.
    + intros H. inversion H. reflexivity.
  - split.
    + destruct (transformTx address t) as [t'|e] eqn:Et; [|discriminate]. cbn [bind].
      destruct (mapM (transformTx address) txs) as [r|e] eqn:Em; [|discriminate].
      cbn [bind]. intros [= <-]. constructor; [exact Et|]. now apply IH.
    + intros H. inversion H as [|x y l l' Hxy Hl]; subst.
      rewrite Hxy. cbn [bind]. apply IH in Hl. now rewrite Hl.
Qed.

Lemma mapM_transformTx_is_ok (address : string) (txs : list Tx) :
  is_ok (mapM (transformTx address) txs) = forallb feeNumeric txs.
Proof.
  induction txs as [|t txs IH]; [reflexivity|]. cbn [mapM forallb].
  destruct (feeNumeric t) eqn:E.
  - destruct (transformTx_OK address t E) as (fee & -> & _). cbn [bind andb].
    rewrite <- IH. now destruct (mapM (transformTx address) txs).
  - now rewrite (transformTx_Throw address t E).
Qed.

Lemma mapM_transformTx_Throw (address : string) (txs : list Tx) (e : exn) :
  mapM (transformTx address) txs = Throw e -> e = BigError.
Proof.
  induction txs as [|t txs IH]; cbn [mapM]; [discriminate|].
  destruct (feeNumeric t) eqn:E.
  - destruct (transformTx_OK address t E) as (fee & -> & _). cbn [bind].
    destruct (mapM (transformTx address) txs) as [r|e']; [discriminate|].
    cbn [bind]. intros [= <-]. now apply IH.
  - rewrite (transformTx_Throw address t E). now intros [= <-].
Qed.

(** X5.  Given an array, [transformTxs] normalizes every element by the
    rule it applies to a single transaction and keeps their number and
    order; it fails, with big.js's error, exactly when some element alone
    would fail, and an empty array gives an empty array. *)
Theorem transformTxs_array (address : string) (txs : list Tx) :
  (forall txs',
      transformTxs (isArray := true) address txs = OK txs' <->
      Forall2 (fun t t' => transformTxs (isArray := false) address t = OK t') txs txs')
  /\ (forall txs',
         transformTxs (isArray := true) address txs = OK txs' ->
         List.length txs' = List.length txs)
  /\ is_ok (transformTxs (isArray := true) address txs) = forallb feeNumeric txs
  /\ (forall e, transformTxs (isArray := true) address txs = Throw e -> e = BigError)
  /\ transformTxs (isArray := true) address [] = OK [].
Proof.
  unfold transformTxs.
  split; [intros txs'; apply mapM_transformTx_Forall2|].
  split.
  { intros txs' H. apply mapM_transformTx_Forall2 in H.
    symmetry. eapply Forall2_length. exact H. }
  split; [apply mapM_transformTx_is_ok|].
  split; [intros e; apply mapM_transformTx_Throw | reflexivity].
Qed.

Lemma transformTxs_array_witness :
  exists txs',
    transformTxs (isArray := true) address1 [rawTx1; rawTx1] = OK txs'
    /\ List.length txs' = 2%nat.
Proof.
  eexists. split; [reflexivity|].
  apply (proj1 (proj2 (transformTxs_array address1 [rawTx1; rawTx1]))).
  reflexivity.
Defined.

Lemma feeOf_normalizedWith (address : string) (tx : Tx) (fee : jsval) :
  feeOf (normalizedWith address tx fee) = feeOf tx.
Proof.
  unfold feeOf, normalizedWith. destruct (String.eqb (tx_from tx) address); reflexivity.
Qed.

(** X6.  Normalization is to be applied once.  Applied again to its own
    result it changes nothing when the sender is another address, but for
    a transaction sent from this address it prefixes a second minus, and
    the value is then no number for big.js. *)
Theorem transformTx_twice (address : string) (tx tx' : Tx) :
  transformTx address tx = OK tx' ->
  (tx_from tx <> address -> transformTx address tx' = OK tx')
  /\ (tx_from tx = address ->
      exists tx'',
        transformTx address tx' = OK tx''
        /\ tx_value tx'' = JStr ("--" ++ js_to_string (tx_value tx))
        /\ isNumeric (tx_value tx'') = false).
Proof.
  intros H.
  assert (Hf : feeNumeric tx = true).
  { destruct (feeNumeric tx) eqn:E; [reflexivity|].
    rewrite (transformTx_Throw address tx E) in H. discriminate. }
  destruct (feeOf_OK tx Hf) as (fee & Efee & _).
  change (transformTx address tx)
    with (fee <- feeOf tx ;; OK (normalizedWith address tx fee)) in H.
  rewrite Efee in H. cbn [bind] in H. apply OK_inj in H. subst tx'.
  assert (E2 : transformTx address (normalizedWith address tx fee)
               = OK (normalizedWith address (normalizedWith address tx fee) fee)).
  { change (transformTx address (normalizedWith address tx fee))
      with (f <- feeOf (normalizedWith address tx fee) ;;
            OK (normalizedWith address (normalizedWith address tx fee) f)).
    now rewrite feeOf_normalizedWith, Efee. }
  rewrite E2. split.
  - intros Hne. apply String.eqb_neq in Hne. f_equal.
    unfold normalizedWith. rewrite Hne. cbn [set_fee tx_from]. now rewrite Hne.
  - intros Heq. apply String.eqb_eq in Heq. eexists. split; [reflexivity|].
    unfold normalizedWith. rewrite Heq.
    cbn [set_fee set_value tx_from tx_value js_to_string]. rewrite Heq.
    cbn [set_value tx_value]. split; reflexivity.
Qed.

Lemma transformTx_twice_witness :
  exists tx' tx'',
    transformTx address1 rawTx1 = OK tx'
    /\ transformTx address1 tx' = OK tx''
    /\ tx_value tx'' = JStr "--30"
    /\ isNumeric (tx_value tx'') = false.
Proof.
  eexists.
  destruct (proj2 (transformTx_twice address1 rawTx1 _ eq_refl) eq_refl)
    as (tx'' & E & Hv & Hn).
  exists tx''. split; [reflexivity|]. split; [exact E|]. split; [exact Hv | exact Hn].
Defined.

(** ** Sending, all or nothing *)

Lemma isNumeric_toFixed (b : Big_t) : isNumeric (JStr (toFixed b)) = true.
Proof. unfold isNumeric. now rewrite Big_toFixed. Qed.

Lemma processTx_then_OK (that that' : Wallet) (raw h : Tx) :
  processTx_then that raw = OK (that', h) ->
  transformTx (addressString that) raw = OK h
  /\ historyTxs that' = h :: historyTxs that
  /\ isNumeric (balance that') = true
  /\ txsCount that'
     = (if String.eqb (tx_from h) (addressString that)
        then txsCount that + 1 else txsCount that).
Proof.
  unfold processTx_then, transformTxs.
  destruct (transformTx _ raw) as [t|e]; [|discriminate]. cbn [bind].
  destruct (Big (tx_gas t)) as [g|e]; [|discriminate]. cbn [bind].
  destruct (times g (tx_gasPrice t)) as [m|e]; [|discriminate]. cbn [bind].
  destruct (Big (balance that)) as [b|e]; [|discriminate]. cbn [bind].
  destruct (plus b (tx_value t)) as [b'|e]; [|discriminate]. cbn [bind].
  intros [= <- <-]. cbn [historyTxs balance txsCount].
  repeat split. apply isNumeric_toFixed.
Qed.

(** The two ways [processTx] can end. *)
Lemma processTx_outcome (api : API) (this : Wallet) (txId : string) :
  (exists e,
      processTx api this txId
      = (this, [Remote (ReqGet txId (addressString this)); Callback (Some e) None]))
  \/ (exists raw that' h,
         transactions_get api txId (addressString this) = OK raw
         /\ processTx_then this raw = OK (that', h)
         /\ processTx api this txId
            = (that', [Remote (ReqGet txId (addressString this));
                       Callback None (Some h)])).
Proof.
  unfold processTx.
  destruct (transactions_get api txId (addressString this)) as [raw|e];
    [|left; now exists e].
  destruct (processTx_then this raw) as [[that' h]|e] eqn:E; [|left; now exists e].
  right. now exists raw, that', h.
Qed.

Lemma sendTx_keeps_settings_aux {crypto : Crypto} (api : API) (this : Wallet)
    (tx : EthereumTx) :
  gasPrice (fst (sendTx api this tx)) = gasPrice this
  /\ gasLimit (fst (sendTx api this tx)) = gasLimit this.
Proof.
  unfold sendTx.
  destruct (transactions_propagate api _) as [txId|e]; [|now split].
  destruct (processTx_outcome api this txId)
    as [(e & ->) | (raw & that' & h & _ & Ethen & ->)]; cbn [fst].
  - now split.
  - apply processTx_then_frame in Ethen. tauto.
Qed.

Section Sending.

Context {crypto : Crypto}.


(** X8.  Sending never changes the confirmed balance, the gas price, the
    gas limit, the confirmation threshold or the network name: after
    construction only the balance, the transaction count and the history
    move. *)
Theorem sendTx_keeps_settings (api : API) (this : Wallet) (tx : EthereumTx) :
  confirmedBalance (fst (sendTx api this tx)) = confirmedBalance this
  /\ gasPrice (fst (sendTx api this tx)) = gasPrice this
  /\ gasLimit (fst (sendTx api this tx)) = gasLimit this
  /\ minConf (fst (sendTx api this tx)) = minConf this
  /\ networkName (fst (sendTx api this tx)) = networkName this.
Proof.
  unfold sendTx.
  destruct (transactions_propagate api _) as [txId|e]; [|now repeat split].
  destruct (processTx_outcome api this txId)
    as [(e & ->) | (raw & that' & h & _ & Ethen & ->)]; cbn [fst].
  - now repeat split.
  - apply processTx_then_frame in Ethen. tauto.
Qed.

End Sending.

(** ** Pending spends and the balance *)

Lemma span_digits_all (s : string) : all_digits (fst (span_digits s)) = true.
Proof.
  induction s as [|c s IH]; [reflexivity|]. cbn [span_digits].
  destruct (is_digit c) eqn:E; [|reflexivity].
  destruct (span_digits s) as [d r]. cbn [fst all_digits] in *. now rewrite E, IH.
Qed.

Lemma digits_val_nonneg (s : string) (acc : Z) :
  all_digits s = true -> 0 <= acc -> 0 <= digits_val acc s.
Proof.
  revert acc. induction s as [|c s IH]; intros acc Hs Hacc;
    cbn [all_digits digits_val] in *; [assumption|].
  apply andb_true_iff in Hs as [Hc Hs]. apply IH; [assumption|].
  pose proof (digit_val_range c Hc). lia.
Qed.

Lemma parse_unsigned_nonneg (s : string) (b : Big_t) :
  parse_unsigned false s = Some b -> 0 <= coef b.
Proof.
  unfold parse_unsigned.
  pose proof (span_digits_all s) as Hip.
  destruct (span_digits s) as [ip r1]. cbn [fst] in Hip.
  assert (Hfp : forall hasDot fp r2,
             match r1 with
             | String "."%char r => let (f, r') := span_digits r in (true, f, r')
             | _ => (false, EmptyString, r1)
             end = (hasDot, fp, r2) -> all_digits fp = true).
  { intros hasDot fp r2. destruct r1 as [|c r]; [now intros [= _ <- _]|].
    destruct (Ascii.eqb_spec c ".") as [->|Hn].
    - pose proof (span_digits_all r) as Hr. destruct (span_digits r) as [f r'].
      now intros [= _ <- _].
    - destruct c as [[] [] [] [] [] [] [] []]; try (now intros [= _ <- _]).
      congruence. }
  destruct (match r1 with
            | String "."%char r => let (f, r') := span_digits r in (true, f, r')
            | _ => (false, EmptyString, r1)
            end) as [[hasDot fp] r2].
  specialize (Hfp hasDot fp r2 eq_refl).
  destruct (negb (ip =? EmptyString)%string || hasDot && negb (fp =? EmptyString)%string)%bool;
    [|discriminate].
  destruct (parse_exponent r2) as [e|]; [|discriminate].
  assert (Hc : 0 <= digits_val 0 (ip ++ fp)).
  { apply digits_val_nonneg; [|lia]. now rewrite all_digits_app, Hip, Hfp. }
  destruct (Z.of_nat (String.length fp) <=? e); intros [= <-]; cbn [coef];
    [|exact Hc].
  apply Z.mul_nonneg_nonneg; [exact Hc|]. apply Z.pow_nonneg. lia.
Qed.

Lemma isUnsigned_nonneg (v : jsval) : isUnsigned v = true -> (0 <= numQ v)%Q.
Proof.
  unfold isUnsigned, isNumeric, numQ, Big. intros H.
  apply andb_true_iff in H as [Hn Hs].
  apply negb_true_iff in Hs. apply split_sign_false in Hs.
  unfold parse_big in *. rewrite Hs in *.
  destruct (parse_unsigned false (js_to_string v)) as [b|] eqn:E; [|discriminate].
  apply parse_unsigned_nonneg in E.
  unfold bigQ, Qle. cbn [Qnum Qden]. lia.
Qed.

Lemma getPendingSpends_value (w : Wallet) :
  pendingNumeric w = true ->
  exists s, getPendingSpends w = OK s /\ bigQ s == pendingSpendsQ w.
Proof.
  intros Hn. unfold getPendingSpends.
  change (Big (JNum 0)) with (OK (mkBig 0 0)). cbn [bind].
  destruct (reduce_pending w (historyTxs w) (mkBig 0 0) Hn) as (s & Hs & Hq).
  exists s. split; [exact Hs|].
  rewrite Hq. unfold pendingSpendsQ. change (bigQ (mkBig 0 0)) with 0%Q. ring.
Qed.

Lemma Qplus_nonneg (a b : Q) : (0 <= a -> 0 <= b -> 0 <= a + b)%Q.
Proof. intros Ha Hb. exact (Qplus_le_compat 0 a 0 b Ha Hb). Qed.

Lemma pendingSpendsQ_nonneg (w : Wallet) (l : list Tx) :
  forallb (fun tx => implb (isPending w tx)
                           (isUnsigned (tx_gas tx) && isUnsigned (tx_gasPrice tx))) l
  = true ->
  (0 <= fold_right Qplus 0 (map spendQ (filter (isPending w) l)))%Q.
Proof.
  induction l as [|tx l IH]; intros H; cbn [forallb] in H.
  - apply Qle_refl.
  - apply andb_true_iff in H as [Htx H]. cbn [filter].
    destruct (isPending w tx); [|now apply IH].
    cbn [implb] in Htx. apply andb_true_iff in Htx as [Hg Hp].
    cbn [map fold_right]. specialize (IH H).
    apply isUnsigned_nonneg in Hg. apply isUnsigned_nonneg in Hp.
    unfold spendQ.
    pose proof (Qabs_nonneg (numQ (tx_value tx))) as Ha.
    pose proof (Qmult_le_0_compat _ _ Hg Hp) as Hm.
    apply Qplus_nonneg; [|exact IH]. now apply Qplus_nonneg.
Qed.

(** X9.  The pending spends are never negative, whatever the sign of the
    stored values, and they are zero for a history with no entry that is
    both unconfirmed and sent from this address.  (Pending entries carry
    numeric fields, gas and gas price without a minus.) *)
Theorem getPendingSpends_nonneg (w : Wallet) :
  pendingNumeric w = true ->
  pendingUnsigned w = true ->
  exists s,
    getPendingSpends w = OK s
    /\ (0 <= bigQ s)%Q
    /\ (filter (isPending w) (historyTxs w) = [] -> bigQ s == 0).
Proof.
  intros Hn Hu. destruct (getPendingSpends_value w Hn) as (s & Es & Hs).
  exists s. split; [exact Es|]. split.
  - rewrite Hs. now apply pendingSpendsQ_nonneg.
  - intros Hf. rewrite Hs. unfold pendingSpendsQ. rewrite Hf. reflexivity.
Qed.

Lemma getPendingSpends_nonneg_witness :
  pendingNumeric wallet1 = true
  /\ pendingUnsigned wallet1 = true
  /\ exists s, getPendingSpends wallet1 = OK s /\ (0 <= bigQ s)%Q.
Proof.
  split; [reflexivity|]. split; [reflexivity|].
  destruct (getPendingSpends_nonneg wallet1 eq_refl eq_refl) as (s & E & H & _).
  exists s. split; [exact E | exact H].
Defined.

Lemma processTx_recorded (api : API) (this : Wallet) (txId : string) (raw : Tx) :
  transactions_get api txId (addressString this) = OK raw ->
  isNumeric (balance this) = true ->
  isUnsigned (tx_value raw) = true ->
  isNumeric (tx_gas raw) = true ->
  isNumeric (tx_gasPrice raw) = true ->
  feeNumeric raw = true ->
  exists fee b v g p,
    Big (balance this) = OK b
    /\ Big (tx_value (normalizedWith (addressString this) raw fee)) = OK v
    /\ Big (tx_gas raw) = OK g
    /\ Big (tx_gasPrice raw) = OK p
    /\ fst (processTx api this txId)
       = mkWallet (networkName this)
                  (JStr (toFixed (big_minus (big_plus b v) (big_times g p))))
                  (confirmedBalance this)
                  (normalizedWith (addressString this) raw fee :: historyTxs this)
                  (if String.eqb (tx_from raw) (addressString this)
                   then txsCount this + 1 else txsCount this)
                  (etherWallet this) (addressString this) (gasPrice this)
                  (gasLimit this) (minConf this).
Proof.
  intros Hget Hb Hv Hg Hp Hf.
  destruct (transformTx_OK (addressString this) raw Hf) as (fee & Et & _).
  destruct (normalizedWith_fields (addressString this) raw fee)
    as (_ & Hfrom & _ & Hgas & Hgp & _).
  destruct (normalizedWith_numeric (addressString this) raw fee Hv) as [Hnv _].
  numeric Hb b Eb Qb. numeric Hg g Eg Qg. numeric Hp p Ep Qp. numeric Hnv v Ev Qv.
  exists fee, b, v, g, p. repeat (split; [assumption|]).
  unfold processTx. rewrite Hget.
  unfold processTx_then, transformTxs, times, plus.
  rewrite Et. cbn [bind]. rewrite Hgas, Hgp, Hfrom, Eg, Ep, Eb, Ev. reflexivity.
Qed.

(** X10.  Recording a transaction that this address sent and that has
    fewer than [minConf] confirmations moves value + gas x gasPrice from
    the balance to the pending spends: the balance falls by exactly that
    amount, the pending spends rise by it, and their sum is unchanged. *)
Theorem processTx_moves_to_pending (api : API) (this : Wallet) (txId : string) (raw : Tx) :
  transactions_get api txId (addressString this) = OK raw ->
  tx_from raw = addressString this ->
  tx_confirmations raw < minConf this ->
  isNumeric (balance this) = true ->
  isUnsigned (tx_value raw) = true ->
  isNumeric (tx_gas raw) = true ->
  isNumeric (tx_gasPrice raw) = true ->
  feeNumeric raw = true ->
  pendingNumeric this = true ->
  exists s s',
    getPendingSpends this = OK s
    /\ getPendingSpends (fst (processTx api this txId)) = OK s'
    /\ bigQ s' == bigQ s + (numQ (tx_value raw) + numQ (tx_gas raw) * numQ (tx_gasPrice raw))
    /\ numQ (balance (fst (processTx api this txId)))
       == numQ (balance this)
          - (numQ (tx_value raw) + numQ (tx_gas raw) * numQ (tx_gasPrice raw))
    /\ numQ (balance (fst (processTx api this txId))) + bigQ s'
       == numQ (balance this) + bigQ s.
Proof.
  intros Hget Hfrom Hconf Hb Hv Hg Hp Hf Hpn.
  destruct (processTx_recorded api this txId raw Hget Hb Hv Hg Hp Hf)
    as (fee & b & v & g & p & Eb & Ev & Eg & Ep & ->).
  set (t := normalizedWith (addressString this) raw fee) in *.
  destruct (normalizedWith_fields (addressString this) raw fee)
    as (_ & Htf & _ & Htg & Htp & _ & Htc).
  destruct (normalizedWith_numeric (addressString this) raw fee Hv) as [Hnv Hval].
  fold t in Htf, Htg, Htp, Htc, Hnv, Hval.
  assert (Heqb : String.eqb (tx_from raw) (addressString this) = true)
    by now apply String.eqb_eq.
  rewrite Heqb in *.
  set (this' := mkWallet (networkName this)
                         (JStr (toFixed (big_minus (big_plus b v) (big_times g p))))
                         (confirmedBalance this) (t :: historyTxs this)
                         (txsCount this + 1) (etherWallet this) (addressString this)
                         (gasPrice this) (gasLimit this) (minConf this)).
  assert (Hpend : isPending this' t = true).
  { unfold isPending, this'. cbn [minConf addressString].
    rewrite Htf, Htc, Heqb. apply andb_true_iff. split; [|reflexivity].
    now apply Z.ltb_lt. }
  assert (Hpn' : pendingNumeric this' = true).
  { unfold pendingNumeric, this'. cbn [historyTxs forallb].
    apply andb_true_iff. split.
    - unfold numericSpend. rewrite Hnv, Htg, Htp, Hg, Hp. now destruct (isPending _ t).
    - exact Hpn. }
  destruct (getPendingSpends_value this Hpn) as (s & Es & Hs).
  destruct (getPendingSpends_value this' Hpn') as (s' & Es' & Hs').
  exists s, s'. split; [exact Es|]. split; [exact Es'|].
  assert (Hsum : bigQ s' == bigQ s
                 + (numQ (tx_value raw) + numQ (tx_gas raw) * numQ (tx_gasPrice raw))).
  { rewrite Hs', Hs. unfold pendingSpendsQ at 1. unfold this' at 2.
    cbn [historyTxs filter]. rewrite Hpend. cbn [map fold_right].
    change (fold_right Qplus 0%Q
              (map spendQ (filter (isPending this') (historyTxs this))))
      with (pendingSpendsQ this).
    unfold spendQ. rewrite Htg, Htp, Hval, Qabs_opp.
    rewrite (Qabs_pos _ (isUnsigned_nonneg _ Hv)). ring. }
  assert (Hbal : numQ (balance this')
                 == numQ (balance this)
                    - (numQ (tx_value raw) + numQ (tx_gas raw) * numQ (tx_gasPrice raw))).
  { unfold this'. cbn [balance].
    rewrite numQ_toFixed, bigQ_minus, bigQ_plus, bigQ_times.
    assert (Qb : numQ (balance this) = bigQ b) by (unfold numQ; now rewrite Eb).
    assert (Qv : numQ (tx_value t) = bigQ v) by (unfold numQ; now rewrite Ev).
    assert (Qg : numQ (tx_gas raw) = bigQ g) by (unfold numQ; now rewrite Eg).
    assert (Qp : numQ (tx_gasPrice raw) = bigQ p) by (unfold numQ; now rewrite Ep).
    rewrite <- Qb, <- Qv, <- Qg, <- Qp, Hval. ring. }
  split; [exact Hsum|]. split; [exact Hbal|].
  rewrite Hbal, Hsum. ring.
Qed.

Lemma processTx_moves_to_pending_witness :
  transactions_get api1 "0x7e57" (addressString wallet1) = OK rawTx1
  /\ tx_from rawTx1 = addressString wallet1
  /\ tx_confirmations rawTx1 < minConf wallet1
  /\ exists s s',
       getPendingSpends wallet1 = OK s
       /\ getPendingSpends (fst (processTx api1 wallet1 "0x7e57")) = OK s'
       /\ bigQ s' == bigQ s + inject_Z 42030.
Proof.
  split; [reflexivity|]. split; [reflexivity|]. split; [reflexivity|].
  destruct (processTx_moves_to_pending api1 wallet1 "0x7e57" rawTx1
              eq_refl eq_refl eq_refl eq_refl eq_refl eq_refl eq_refl eq_refl eq_refl)
    as (s & s' & E & E' & H & _).
  exists s, s'. split; [exact E|]. split; [exact E'|]. rewrite H. reflexivity.
Defined.

(** ** Integer amounts in both libraries *)

Lemma parse_int_parts (s : string) (z : Z) :
  parse_int s = Some z ->
  exists neg ds,
    split_sign s = (neg, ds) /\ ds <> EmptyString /\ all_digits ds = true
    /\ z = (if neg then - digits_val 0 ds else digits_val 0 ds).
Proof.
  unfold parse_int. destruct (split_sign s) as [neg ds].
  destruct ds as [|c ds]; [discriminate|].
  destruct (all_digits (String c ds)) eqn:E; [|discriminate].
  intros [= <-]. exists neg, (String c ds). repeat split; [discriminate | exact E].
Qed.

Lemma parse_int_parse_big (s : string) (z : Z) :
  parse_int s = Some z -> parse_big s = Some (mkBig z 0).
Proof.
  intros H. destruct (parse_int_parts s z H) as (neg & ds & Hs & Hne & Hd & ->).
  unfold parse_big. rewrite Hs. unfold parse_unsigned.
  rewrite <- (append_nil_r ds) at 1.
  rewrite span_digits_app by (assumption || reflexivity).
  apply String.eqb_neq in Hne. rewrite Hne. cbn [negb orb parse_exponent].
  rewrite append_nil_r. cbn [String.length Z.of_nat Z.leb Z.compare].
  change (10 ^ (0 - 0)) with 1. now rewrite Z.mul_1_r.
Qed.

Lemma parse_int_Big (v : jsval) (z : Z) :
  parse_int (js_to_string v) = Some z -> Big v = OK (mkBig z 0).
Proof. intros H. unfold Big. now rewrite (parse_int_parse_big _ _ H). Qed.

Section Building.

Context {crypto : Crypto} {validator : Validator}.

Lemma BN_parse_int (s : string) (z : Z) : parse_int s = Some z -> BN s = z.
Proof. intros H. unfold BN. now rewrite H. Qed.

Lemma createTx_accepted (this : Wallet) (to value : string) :
  validator_transaction this to value = OK tt ->
  createTx this to value
  = (t <- new_EthereumTx
            (mkTxData (txsCount this) (BN (gasPrice this)) (BN (gasLimit this))
                      to (BN value) 1) ;;
     sign t (privKey (etherWallet this))).
Proof. intros Hv. unfold createTx. now rewrite Hv. Qed.

(** What [createTx] tells about a transaction it returned. *)
Lemma createTx_OK (this : Wallet) (to value : string) (tx : EthereumTx) :
  createTx this to value = OK tx ->
  validator_transaction this to value = OK tt
  /\ isValidPrivate (privKey (etherWallet this)) = true
  /\ signature tx = Some (ecsign (fields tx) (privKey (etherWallet this)))
  /\ intToBuffer (txsCount this) = OK (f_nonce (fields tx))
  /\ f_gasPrice (fields tx) = Z.abs (BN (gasPrice this))
  /\ f_gasLimit (fields tx) = Z.abs (BN (gasLimit this))
  /\ toBuffer to = OK (f_to (fields tx))
  /\ (List.length (f_to (fields tx)) = 0 \/ List.length (f_to (fields tx)) = 20)%nat
  /\ f_value (fields tx) = Z.abs (BN value)
  /\ f_chainId (fields tx) = 1.
Proof.
  unfold createTx.
  destruct (validator_transaction this to value) as [[]|e]; [|discriminate].
  cbn [bind]. intros H. apply build_OK in H. split; [reflexivity | exact H].
Qed.

Lemma nonce_natural (n i : Z) : intToBuffer n = OK i -> 0 <= n -> i = n.
Proof.
  intros H Hn. rewrite (intToBuffer_natural n Hn) in H. now apply OK_inj in H.
Qed.

(** X11.  A transaction is built only when the validator lets it through:
    [createTx] throws what [validator.transaction] throws.  A transaction
    that comes back was accepted by the validator and is signed with the
    wallet's own, valid, private key; its recipient is what the string
    given reads as, 20 bytes or none; it carries the wallet's transaction
    count as nonce, the magnitudes of its gas price, of its gas limit and
    of the value given, and chain id 1.  Once the validator has accepted,
    a valid key, a recipient of 20 bytes and quantities that fit 32 bytes
    give a transaction, and a recipient that reads as a buffer of another
    length gives none: the transaction library throws. *)
Theorem createTx_gated (this : Wallet) (to value : string) :
  (forall e, validator_transaction this to value = Throw e ->
             createTx this to value = Throw e)
  /\ (forall tx,
         createTx this to value = OK tx ->
         validator_transaction this to value = OK tt
         /\ validKey this
         /\ signature tx = Some (ecsign (fields tx) (privKey (etherWallet this)))
         /\ toBuffer to = OK (f_to (fields tx))
         /\ (List.length (f_to (fields tx)) = 0
             \/ List.length (f_to (fields tx)) = 20)%nat
         /\ (0 <= txsCount this -> f_nonce (fields tx) = txsCount this)
         /\ f_gasPrice (fields tx) = Z.abs (BN (gasPrice this))
         /\ f_gasLimit (fields tx) = Z.abs (BN (gasLimit this))
         /\ f_chainId (fields tx) = 1
         /\ (forall z, parse_int value = Some z -> f_value (fields tx) = Z.abs z))
  /\ (forall b,
         validator_transaction this to value = OK tt ->
         validKey this ->
         recipient to b ->
         0 <= txsCount this < 2 ^ 256 ->
         isQuantity (gasPrice this) = true ->
         isQuantity (gasLimit this) = true ->
         isQuantity value = true ->
         exists tx, createTx this to value = OK tx /\ f_to (fields tx) = b)
  /\ (forall v,
         validator_transaction this to value = OK tt ->
         toBuffer to = OK v ->
         List.length v <> 0%nat -> List.length v <> 20%nat ->
         is_ok (createTx this to value) = false).
Proof.
  split; [|split; [|split]].
  - intros e He. unfold createTx. now rewrite He.
  - intros tx H.
    apply createTx_OK in H as (Hv & Hk & Hs & Hn & Hp & Hl & Ht & Hlen & Hval & Hc).
    repeat (split; [assumption|]). split.
    { intros H0. exact (nonce_natural _ _ Hn H0). }
    repeat (split; [assumption|]).
    intros z Hz. now rewrite Hval, (BN_parse_int _ _ Hz).
  - intros b Hv Hk Hb Hn Hp Hl Hval. rewrite (createTx_accepted _ _ _ Hv).
    apply isQuantity_fits in Hp. apply isQuantity_fits in Hl.
    apply isQuantity_fits in Hval.
    rewrite (build_succeeds _ _ b); try assumption.
    eexists. split; reflexivity.
  - intros v Hv Ht H0 H20. rewrite (createTx_accepted _ _ _ Hv).
    apply build_bad_recipient with (v := v); [exact Ht | exact H0 | exact H20].
Qed.

(** X12.  The default fee and the gas budget of the transactions the
    wallet builds: with a gas limit and a gas price that are decimal
    integers, [getDefaultFee] is exactly gas limit x gas price, and the
    gas limit x gas price that [createTx] and [createImportTx] put into a
    transaction is its magnitude; the two are equal when neither
    parameter is negative. *)
Theorem getDefaultFee_is_gas_budget (this : Wallet) (gl gp : Z) :
  parse_int (gasLimit this) = Some gl ->
  parse_int (gasPrice this) = Some gp ->
  getDefaultFee this = OK (mkBig (gl * gp) 0)
  /\ (forall to value tx,
         createTx this to value = OK tx ->
         f_gasLimit (fields tx) * f_gasPrice (fields tx) = Z.abs (gl * gp)
         /\ (0 <= gl -> 0 <= gp ->
             f_gasLimit (fields tx) * f_gasPrice (fields tx) = gl * gp))
  /\ (forall options tx,
         createImportTx this options = OK tx ->
         f_gasLimit (fields tx) * f_gasPrice (fields tx) = Z.abs (gl * gp)
         /\ (0 <= gl -> 0 <= gp ->
             f_gasLimit (fields tx) * f_gasPrice (fields tx) = gl * gp)).
Proof.
  intros Hl Hp.
  assert (Habs : forall x y : Z,
             x = Z.abs (BN (gasLimit this)) -> y = Z.abs (BN (gasPrice this)) ->
             x * y = Z.abs (gl * gp)
             /\ (0 <= gl -> 0 <= gp -> x * y = gl * gp)).
  { intros x y -> ->. rewrite (BN_parse_int _ _ Hl), (BN_parse_int _ _ Hp).
    rewrite <- Z.abs_mul. split; [reflexivity|].
    intros H0 H1. apply Z.abs_eq. now apply Z.mul_nonneg_nonneg. }
  split; [|split].
  - unfold getDefaultFee, times.
    rewrite (parse_int_Big (JStr (gasLimit this)) gl Hl),
            (parse_int_Big (JStr (gasPrice this)) gp Hp).
    reflexivity.
  - intros to value tx H.
    apply createTx_OK in H as (_ & _ & _ & _ & Egp & Egl & _). now apply Habs.
  - intros options tx H.
    apply createImportTx_OK in H as (_ & _ & _ & Egp & Egl & _). now apply Habs.
Qed.

(** X13.  A sweep at the default fee spends the whole amount.  With gas
    parameters that are natural numbers, the fee handed over as
    [getDefaultFee().toFixed()], a recipient of 20 bytes, a valid key and
    quantities that fit 32 bytes, [createImportTx] builds a transaction
    whose value plus gas limit x gas price is the amount, and it throws
    "Insufficient funds" when the amount is below the default fee. *)
Theorem createImportTx_at_default_fee (this : Wallet) (amount : jsval) (n : Z)
    (to : string) (k b : list byte) (gl gp a : Z) (fee : Big_t) :
  parse_int (gasLimit this) = Some gl ->
  parse_int (gasPrice this) = Some gp ->
  parse_int (js_to_string amount) = Some a ->
  getDefaultFee this = OK fee ->
  0 <= gl < 2 ^ 256 ->
  0 <= gp < 2 ^ 256 ->
  a < 2 ^ 256 ->
  0 <= n < 2 ^ 256 ->
  recipient to b ->
  isValidPrivate k = true ->
  (gl * gp <= a ->
   exists tx,
     createImportTx this (mkImportOptions amount (JStr (toFixed fee)) n to k) = OK tx
     /\ f_value (fields tx) + f_gasLimit (fields tx) * f_gasPrice (fields tx) = a
     /\ f_to (fields tx) = b)
  /\ (a < gl * gp ->
      createImportTx this (mkImportOptions amount (JStr (toFixed fee)) n to k)
      = Throw (Error "Insufficient funds")).
Proof.
  intros Hl Hp Ha Hfee Hgl Hgp Ha256 Hn Hb Hk.
  assert (Efee : fee = mkBig (gl * gp) 0).
  { unfold getDefaultFee, times in Hfee.
    rewrite (parse_int_Big (JStr (gasLimit this)) gl Hl),
            (parse_int_Big (JStr (gasPrice this)) gp Hp) in Hfee.
    cbn [bind] in Hfee. apply OK_inj in Hfee. now subst fee. }
  subst fee.
  set (options := mkImportOptions amount (JStr (toFixed (mkBig (gl * gp) 0))) n to k).
  assert (Ea : Big (io_amount options) = OK (mkBig a 0)) by now apply parse_int_Big.
  assert (Ef : Big (io_fee options) = OK (mkBig (gl * gp) 0)).
  { cbn [options io_fee]. now rewrite Big_toFixed. }
  assert (HqA : bigQ (mkBig a 0) == inject_Z a).
  { unfold bigQ, Qeq, inject_Z. cbn [coef dp Qnum Qden].
    change (Z.to_pos (10 ^ Z.of_nat 0)) with 1%positive. lia. }
  assert (HqF : bigQ (mkBig (gl * gp) 0) == inject_Z (gl * gp)).
  { unfold bigQ, Qeq, inject_Z. cbn [coef dp Qnum Qden].
    change (Z.to_pos (10 ^ Z.of_nat 0)) with 1%positive. lia. }
  split.
  - intros Hle.
    destruct (createImportTx_builds this options (mkBig a 0) (mkBig (gl * gp) 0)
                (a - gl * gp) b Ea Ef) as [_ E]; cbn [options io_txsCount io_to io_privateKey];
      try assumption.
    + rewrite HqA, HqF. now rewrite <- Zle_Qle.
    + rewrite HqA, HqF. unfold Qminus. now rewrite <- inject_Z_opp, <- inject_Z_plus.
    + nia.
    + unfold isQuantity. rewrite Hp. apply Z.ltb_lt. lia.
    + unfold isQuantity. rewrite Hl. apply Z.ltb_lt. lia.
    + eexists. split; [exact E|].
      cbn [fields f_value f_gasLimit f_gasPrice f_to].
      rewrite (BN_parse_int _ _ Hl), (BN_parse_int _ _ Hp). split; [lia | reflexivity].
  - intros Hlt. apply (createImportTx_funds this options _ _ Ea Ef).
    rewrite HqA, HqF. now rewrite <- Zlt_Qlt.
Qed.

End Building.

Lemma sendTx_txsCount {crypto : Crypto} (api : API) (this : Wallet) (tx : EthereumTx) :
  (forall h,
      callbacks (snd (sendTx api this tx)) = [Callback None (Some h)] ->
      txsCount (fst (sendTx api this tx))
      = (if String.eqb (tx_from h) (addressString this)
         then txsCount this + 1 else txsCount this))
  /\ (forall e,
         callbacks (snd (sendTx api this tx)) = [Callback (Some e) None] ->
         fst (sendTx api this tx) = this).
Proof.
  unfold sendTx.
  destruct (transactions_propagate api _) as [txId|e0].
  - destruct (processTx_outcome api this txId)
      as [(e & ->) | (raw & that' & h & _ & Ethen & ->)]; cbn [fst snd].
    + split; [discriminate | reflexivity].
    + apply processTx_then_OK in Ethen as (_ & _ & _ & Hc).
      split; [|discriminate]. intros h' [= <-]. exact Hc.
  - cbn [fst snd]. split; [discriminate | reflexivity].
Qed.

(** X14.  The nonce follows what was sent.  For a wallet whose transaction
    count is a natural number, the transaction [createTx] builds carries
    that count as nonce; one built after a send that was recorded from
    this address has the nonce of the transaction sent plus one; after a
    send that failed, or that recorded a transaction of another sender,
    it has the same nonce.  Its gas price and gas limit are those of the
    first. *)
Theorem createTx_nonce_after_send {crypto : Crypto} {validator : Validator}
    (api : API) (this : Wallet) (to value to' value' : string) (tx1 tx2 : EthereumTx) :
  0 <= txsCount this ->
  createTx this to value = OK tx1 ->
  createTx (fst (sendTx api this tx1)) to' value' = OK tx2 ->
  f_nonce (fields tx1) = txsCount this
  /\ (forall h,
         callbacks (snd (sendTx api this tx1)) = [Callback None (Some h)] ->
         f_nonce (fields tx2)
         = (if String.eqb (tx_from h) (addressString this)
            then f_nonce (fields tx1) + 1 else f_nonce (fields tx1)))
  /\ (forall e,
         callbacks (snd (sendTx api this tx1)) = [Callback (Some e) None] ->
         f_nonce (fields tx2) = f_nonce (fields tx1))
  /\ f_gasPrice (fields tx2) = f_gasPrice (fields tx1)
  /\ f_gasLimit (fields tx2) = f_gasLimit (fields tx1).
Proof.
  intros Hc H1 H2.
  apply createTx_OK in H1 as (_ & _ & _ & Hn1 & Hp1 & Hl1 & _).
  apply createTx_OK in H2 as (_ & _ & _ & Hn2 & Hp2 & Hl2 & _).
  apply nonce_natural in Hn1; [|exact Hc].
  destruct (sendTx_txsCount api this tx1) as [Hok Herr].
  destruct (sendTx_keeps_settings_aux api this tx1) as (Hgp & Hgl).
  split; [exact Hn1|]. split; [|split].
  - intros h Hh. specialize (Hok h Hh). rewrite Hok in Hn2. rewrite Hn1.
    apply nonce_natural in Hn2; [exact Hn2|].
    destruct (String.eqb (tx_from h) (addressString this)); lia.
  - intros e He. rewrite (Herr e He) in Hn2. rewrite Hn1.
    now apply nonce_natural in Hn2.
  - now rewrite Hp2, Hl2, Hp1, Hl1, Hgp, Hgl.
Qed.

(** ** Importing a key *)

Lemma first_rejection_none2 (order : list nat) :
  first_rejection order [None; None] = None.
Proof.
  induction order as [|i order IH]; [reflexivity|]. cbn [first_rejection].
  destruct i as [|[|[|i]]]; exact IH.
Qed.

Lemma Promise_all2_fulfilled {A B : Type} (order : list nat) (a : A) (b : B) :
  Promise_all2 order (OK a) (OK b) = OK (a, b).
Proof. unfold Promise_all2. cbn [rejection]. now rewrite first_rejection_none2. Qed.

Lemma Promise_all2_Throw {A B : Type} (order : list nat)
    (p0 : result A) (p1 : result B) (e : exn) :
  Promise_all2 order p0 p1 = Throw e -> In (Some e) [rejection p0; rejection p1].
Proof.
  unfold Promise_all2.
  destruct (first_rejection order _) as [e'|] eqn:E.
  - intros [= <-]. now apply first_rejection_In in E.
  - destruct p0 as [a|e0]; cbn [bind rejection In].
    2:{ intros [= <-]. now left. }
    destruct p1 as [b|e1]; cbn [bind rejection In].
    2:{ intros [= <-]. right. now left. }
    discriminate.
Qed.

Lemma Promise_all2_OK {A B : Type} (order : list nat)
    (p0 : result A) (p1 : result B) (r : A * B) :
  Promise_all2 order p0 p1 = OK r -> p0 = OK (fst r) /\ p1 = OK (snd r).
Proof.
  unfold Promise_all2.
  destruct (first_rejection order _); [discriminate|].
  destruct p0, p1; cbn [bind]; try discriminate.
  intros [= <-]. now split.
Qed.

Section Importing.

Context {crypto : Crypto}.

Lemma getImportTxOptions_valid (api : API) (order : list nat) (this : Wallet)
    (privateKey : list byte) :
  isValidPrivate privateKey = true ->
  let address := bufferToHex (privateToAddress privateKey) in
  getImportTxOptions api order this privateKey
  = OK ([Remote (ReqBalance address (minConf this)); Remote (ReqTxsCount address)],
        results <- Promise_all2 order
                     (addresses_balance api address (minConf this))
                     (addresses_txsCount api address) ;;
        OK (mkImportSource privateKey (bi_confirmedBalance (fst results))
                           (snd results))).
Proof. intros Hk address. unfold getImportTxOptions. now rewrite Hk. Qed.

(** X15.  [getImportTxOptions] throws, without sending anything, on a key
    that is not a valid scalar.  For a valid key it asks for the balance
    and the transaction count of the address of that key, with this
    wallet's confirmation threshold, and for nothing else.  Whatever the
    order in which the two lookups settle, two fulfilled lookups give the
    key, the confirmed balance (not the balance) as amount and the count;
    a rejected lookup rejects the promise with the reason of a rejected
    lookup. *)
Theorem getImportTxOptions_outcome (api : API) (order : list nat) (this : Wallet)
    (privateKey : list byte) :
  let address := bufferToHex (privateToAddress privateKey) in
  (isValidPrivate privateKey = false ->
   getImportTxOptions api order this privateKey = Throw KeyError)
  /\ (isValidPrivate privateKey = true ->
      exists promise,
        getImportTxOptions api order this privateKey
        = OK ([Remote (ReqBalance address (minConf this)); Remote (ReqTxsCount address)],
              promise)
        /\ (forall r0 r1,
               addresses_balance api address (minConf this) = OK r0 ->
               addresses_txsCount api address = OK r1 ->
               promise = OK (mkImportSource privateKey (bi_confirmedBalance r0) r1))
        /\ (forall src,
               promise = OK src ->
               src_privateKey src = privateKey
               /\ exists r0,
                    addresses_balance api address (minConf this) = OK r0
                    /\ src_amount src = bi_confirmedBalance r0
                    /\ addresses_txsCount api address = OK (src_txsCount src))
        /\ (forall e,
               promise = Throw e ->
               In (Some e) [rejection (addresses_balance api address (minConf this));
                            rejection (addresses_txsCount api address)])).
Proof.
  intros address. split.
  { intros Hk. unfold getImportTxOptions. now rewrite Hk. }
  intros Hk. rewrite (getImportTxOptions_valid api order this privateKey Hk).
  fold address. eexists. split; [reflexivity|]. split; [|split].
  - intros r0 r1 E0 E1. now rewrite E0, E1, Promise_all2_fulfilled.
  - intros src H.
    destruct (Promise_all2 order _ _) as [r|e] eqn:E; [|discriminate].
    cbn [bind] in H. apply OK_inj in H. subst src.
    apply Promise_all2_OK in E as [E0 E1]. cbn [src_privateKey src_amount src_txsCount].
    split; [reflexivity|]. exists (fst r). now repeat split.
  - intros e H.
    destruct (Promise_all2 order _ _) as [r|e'] eqn:E; [discriminate|].
    cbn [bind] in H. injection H as <-. now apply Promise_all2_Throw in E.
Qed.

(** X16.  Importing end to end.  For a valid key whose two lookups are
    fulfilled, with the source that [getImportTxOptions] gave, a fee and
    a recipient, [createImportTx] throws "Insufficient funds" exactly
    when the confirmed balance of the imported address is below the fee;
    otherwise, given a recipient of 20 bytes and quantities that fit 32
    bytes, the transaction has the imported account's transaction count
    as nonce, is signed with the imported key, goes to the recipient
    given and carries the confirmed balance less the fee. *)
Theorem getImportTxOptions_then_createImportTx (api : API) (order : list nat)
    (this : Wallet) (privateKey : list byte) (fee : jsval) (to : string)
    (r0 : BalanceInfo) (r1 : Z) :
  let address := bufferToHex (privateToAddress privateKey) in
  isValidPrivate privateKey = true ->
  addresses_balance api address (minConf this) = OK r0 ->
  addresses_txsCount api address = OK r1 ->
  isNumeric (bi_confirmedBalance r0) = true ->
  isNumeric fee = true ->
  exists evs src,
    getImportTxOptions api order this privateKey = OK (evs, OK src)
    /\ (createImportTx this (importOptions src fee to)
        = Throw (Error "Insufficient funds")
        <-> (numQ (bi_confirmedBalance r0) < numQ fee)%Q)
    /\ (forall (z : Z) (b : list byte),
           (numQ fee <= numQ (bi_confirmedBalance r0))%Q ->
           numQ (bi_confirmedBalance r0) - numQ fee == inject_Z z ->
           z < 2 ^ 256 ->
           0 <= r1 < 2 ^ 256 ->
           isQuantity (gasPrice this) = true ->
           isQuantity (gasLimit this) = true ->
           recipient to b ->
           exists tx,
             createImportTx this (importOptions src fee to) = OK tx
             /\ f_nonce (fields tx) = r1
             /\ f_to (fields tx) = b
             /\ f_value (fields tx) = z
             /\ signature tx = Some (ecsign (fields tx) privateKey)).
Proof.
  intros address Hk E0 E1 Ha Hf.
  rewrite (getImportTxOptions_valid api order this privateKey Hk). fold address.
  rewrite E0, E1, Promise_all2_fulfilled. cbn [bind fst snd].
  eexists. eexists. split; [reflexivity|].
  set (src := mkImportSource privateKey (bi_confirmedBalance r0) r1).
  numeric Ha a Ea Qa. numeric Hf f Ef Qf. rewrite Qa, Qf.
  split.
  - exact (createImportTx_funds this (importOptions src fee to) a f Ea Ef).
  - intros z b Hle Hz Hz256 Hn Hp Hl Hb.
    destruct (createImportTx_builds this (importOptions src fee to) a f z b
                Ea Ef Hle Hz Hz256 Hn Hp Hl Hb Hk) as [_ E].
    eexists. split; [exact E|].
    cbn [fields signature f_nonce f_to f_value importOptions io_txsCount
         io_privateKey src src_txsCount src_privateKey].
    now repeat split.
Qed.

End Importing.

(** ** Persisting, once more *)

Section PersistingAgain.

Context {crypto : Crypto}.

(** X17.  Serializing is stable under a round trip: for a wallet with a
    valid key, what [deserialize] rebuilds from [serialize w] serializes
    to the same record as [w], whatever address [w] stores; and the
    rebuilt wallet is [w] itself exactly when [w] stores the address of
    its key. *)
Theorem serialize_stable (w : Wallet) :
  validKey w ->
  exists w',
    deserialize (serialize w) = OK w'
    /\ serialize w' = serialize w
    /\ (w' = w <-> addressInvariant w).
Proof.
  intros Hk. unfold validKey in Hk.
  unfold deserialize.
  assert (Hc : createPrivateKey (s_privateKey (serialize w))
               = OK (privKey (etherWallet w))).
  { unfold serialize, getPrivateKeyString. cbn [s_privateKey].
    now apply createPrivateKey_bufferToHex. }
  rewrite Hc. cbn [bind]. rewrite fromPrivateKey_valid by exact Hk. cbn [bind].
  eexists. split; [reflexivity|].
  destruct w as [nn b cb h c [k] a gp gl mc].
  unfold serialize, getBalance, addressInvariant.
  cbn [s_networkName s_balance s_confirmedBalance s_historyTxs s_txsCount
       s_addressString s_gasPrice s_gasLimit s_minConf networkName balance
       confirmedBalance historyTxs txsCount etherWallet addressString gasPrice
       gasLimit minConf privKey].
  split; [reflexivity|]. split.
  - intros [= H]. now symmetry.
  - intros ->. reflexivity.
Qed.

End PersistingAgain.

(** X18.  [deserialize] succeeds exactly when the record's private key
    decodes to a valid scalar, and fails otherwise with "Invalid private
    key"; on success every other field, the address included, is the
    record's, unchanged and unchecked. *)
Theorem deserialize_outcome (json : Serialized) :
  is_ok (deserialize json) = isValidPrivate (hex_decode (strip0x (s_privateKey json)))
  /\ (forall e, deserialize json = Throw e -> e = Error "Invalid private key")
  /\ (forall w,
         deserialize json = OK w ->
         privKey (etherWallet w) = hex_decode (strip0x (s_privateKey json))
         /\ addressString w = s_addressString json
         /\ networkName w = s_networkName json
         /\ balance w = s_balance json
         /\ confirmedBalance w = s_confirmedBalance json
         /\ historyTxs w = s_historyTxs json
         /\ txsCount w = s_txsCount json
         /\ gasPrice w = s_gasPrice json
         /\ gasLimit w = s_gasLimit json
         /\ minConf w = s_minConf json).
Proof.
  unfold deserialize. rewrite createPrivateKey_strip0x.
  destruct (isValidPrivate (hex_decode (strip0x (s_privateKey json)))) eqn:E;
    cbn [negb bind].
  - rewrite fromPrivateKey_valid by exact E. cbn [bind is_ok].
    split; [reflexivity|]. split; [discriminate|].
    intros w [= <-]. now repeat split.
  - split; [reflexivity|]. split; [now intros e [= <-] | discriminate].
Qed.

Lemma deserialize_outcome_witness :
  deserialize (recordWithAddress "0xdecaf") = OK
    (mkWallet (JStr "ethereum") (JStr "0") (JStr "0") [] 0 (mkEtherWallet key1)
              "0xdecaf" "0" "21000" 5)
  /\ addressString
       (mkWallet (JStr "ethereum") (JStr "0") (JStr "0") [] 0 (mkEtherWallet key1)
                 "0xdecaf" "0" "21000" 5)
     = s_addressString (recordWithAddress "0xdecaf").
Proof.
  split; [reflexivity|].
  apply (proj2 (proj2 (deserialize_outcome (recordWithAddress "0xdecaf")))).
  reflexivity.
Defined.

(** ** Construction, once more *)

Section ConstructionAgain.

Context {crypto : Crypto}.

Lemma new_Wallet_handedOver (api : API) (order : list nat) (options : Options)
    (c : Construction) (w : Wallet) :
  new_Wallet api order options = OK c ->
  handedOver c w ->
  fromPrivateKey (hdMasterKey (opt_seed options)) = OK (etherWallet w)
  /\ addressString w = getAddressString (etherWallet w)
  /\ gasLimit w = "21000"
  /\ networkName w = opt_networkName options
  /\ minConf w = minConfOrDefault options.
Proof.
  intros Hnew Hw.
  assert (Hfp : forall w', fullyPopulated api options w' ->
                  fromPrivateKey (hdMasterKey (opt_seed options)) = OK (etherWallet w')
                  /\ addressString w' = getAddressString (etherWallet w')
                  /\ gasLimit w' = "21000"
                  /\ networkName w' = opt_networkName options
                  /\ minConf w' = minConfOrDefault options).
  { intros w' (ew & r0 & r1 & r2 & r3 & txs & Hew & _ & _ & _ & _ & _ & ->).
    now repeat split. }
  destruct Hw as [Hw | [Hw | [(e & Hin) | (e & Hin)]]].
  3:{ apply Hfp.
      now destruct (new_Wallet_delivers api order options c e w Hnew (or_introl Hin))
        as (_ & H & _). }
  3:{ apply Hfp.
      now destruct (new_Wallet_delivers api order options c e w Hnew (or_intror Hin))
        as (_ & H & _). }
  all: destruct (new_Wallet_OK api order options c Hnew)
         as [[_ ->] | (_ & ew & tail & last & Hew & -> & Hend)];
       cbn [returned settled] in Hw; [discriminate|];
       apply Some_inj in Hw; subst w.
  - now repeat split.
  - destruct Hend as [err _ | err r0 r1 r2 r3 _ _ _ _ _ | w' Hw'].
    + now repeat split.
    + now repeat split.
    + now apply Hfp.
Qed.

(** X19.  The identity of a wallet depends on the seed alone.  Any two
    constructions from the same seed, whatever the remote API answers,
    in whatever order, and whatever the other options, hand over wallets
    with the same private key, the key derived from the seed, and the
    same address; and every wallet handed over has gas limit 21000 and
    the network name of its options. *)
Theorem new_Wallet_identity (api1 api2 : API) (order1 order2 : list nat)
    (options1 options2 : Options) (c1 c2 : Construction) (w1 w2 : Wallet) :
  opt_seed options1 = opt_seed options2 ->
  new_Wallet api1 order1 options1 = OK c1 ->
  new_Wallet api2 order2 options2 = OK c2 ->
  handedOver c1 w1 ->
  handedOver c2 w2 ->
  etherWallet w1 = etherWallet w2
  /\ addressString w1 = addressString w2
  /\ privKey (etherWallet w1) = hdMasterKey (opt_seed options1)
  /\ gasLimit w1 = "21000"
  /\ networkName w1 = opt_networkName options1.
Proof.
  intros Hseed H1 H2 Hw1 Hw2.
  destruct (new_Wallet_handedOver api1 order1 options1 c1 w1 H1 Hw1)
    as (Hk1 & Ha1 & Hg1 & Hn1 & _).
  destruct (new_Wallet_handedOver api2 order2 options2 c2 w2 H2 Hw2)
    as (Hk2 & Ha2 & _).
  rewrite <- Hseed in Hk2. rewrite Hk1 in Hk2. apply OK_inj in Hk2.
  apply fromPrivateKey_OK in Hk1 as [_ Hk1].
  split; [exact Hk2|]. split; [now rewrite Ha1, Ha2, Hk2|].
  split; [now rewrite Hk1|]. now split.
Qed.

(** X20.  One history entry that does not normalize fails the whole
    construction.  With the four lookups fulfilled and an entry whose
    truthy gas used, or the gas price beside it, is not a number, the
    callbacks receive big.js's error and no wallet, and the instance is
    left with the balances, count and gas price of the lookups but an
    empty history. *)
Theorem new_Wallet_malformed_history (api : API) (order : list nat) (options : Options)
    (ew : EtherWallet) (r0 : BalanceInfo) (r1 : Z) (r2 : string) (r3 : list Tx) :
  truthy (opt_seed options) = true ->
  fromPrivateKey (hdMasterKey (opt_seed options)) = OK ew ->
  addresses_balance api (getAddressString ew) (minConfOrDefault options) = OK r0 ->
  addresses_txsCount api (getAddressString ew) = OK r1 ->
  common_gasPrice api = OK r2 ->
  addresses_txs api (getAddressString ew) = OK r3 ->
  forallb feeNumeric r3 = false ->
  exists c,
    new_Wallet api order options = OK c
    /\ callbacks (events c) = doneError options BigError
    /\ settled c
       = Some (mkWallet (opt_networkName options) (bi_balance r0)
                        (bi_confirmedBalance r0) [] r1 ew (getAddressString ew)
                        r2 "21000" (minConfOrDefault options)).
Proof.
  intros Hseed Hew E0 E1 E2 E3 Hbad.
  assert (Hm : exists err, mapM (transformTx (getAddressString ew)) r3 = Throw err).
  { pose proof (mapM_transformTx_is_ok (getAddressString ew) r3) as H.
    rewrite Hbad in H.
    destruct (mapM (transformTx (getAddressString ew)) r3) as [txs|err];
      [discriminate | now exists err]. }
  destruct Hm as (err0 & Hm). pose proof (mapM_transformTx_Throw _ _ _ Hm) as ->.
  destruct (new_Wallet_cases api order options ew Hseed Hew) as (tail & last & E & Hend).
  eexists. split; [exact E|]. cbn [events settled].
  rewrite callbacks_lookupRequests.
  destruct Hend as [err Hin | err r0' r1' r2' r3' E0' E1' E2' E3' Hm' | w' Hw'].
  - exfalso. unfold lookupRejections in Hin. rewrite E0, E1, E2, E3 in Hin.
    cbn in Hin. repeat (destruct Hin as [Hin|Hin]; [discriminate|]). contradiction.
  - rewrite E0 in E0'. rewrite E1 in E1'. rewrite E2 in E2'. rewrite E3 in E3'.
    apply OK_inj in E0'. apply OK_inj in E1'. apply OK_inj in E2'. apply OK_inj in E3'.
    subst. rewrite Hm in Hm'. injection Hm' as <-.
    split; [apply callbacks_doneError | reflexivity].
  - exfalso.
    destruct Hw' as (ew' & r0' & r1' & r2' & r3' & txs & Hew' & _ & _ & _ & E3' & Hm' & _).
    rewrite Hew in Hew'. apply OK_inj in Hew'. subst ew'.
    rewrite E3 in E3'. apply OK_inj in E3'. subst r3'.
    rewrite Hm in Hm'. discriminate.
Qed.

End ConstructionAgain.

(** ** Concrete runs of the further properties *)

Lemma createTx_gated_witness :
  validator_transaction (Validator := rejectAll) wallet1 address1 "30"
  = Throw (Error "Invalid address")
  /\ @createTx testCrypto rejectAll wallet1 address1 "30"
     = Throw (Error "Invalid address")
  /\ @recipient testCrypto address1 addressBytes1
  /\ (exists tx,
        @createTx testCrypto acceptAll wallet1 address1 "30" = OK tx
        /\ f_to (fields tx) = addressBytes1)
  /\ @toBuffer testCrypto "0xb0b" = OK [x0b; x0b]
  /\ is_ok (@createTx testCrypto acceptAll wallet1 "0xb0b" "30") = false.
Proof.
  split; [reflexivity|]. split.
  { apply (proj1 (@createTx_gated testCrypto rejectAll wallet1 address1 "30")).
    reflexivity. }
  split; [evaluated|]. split.
  { apply (proj1 (proj2 (proj2
             (@createTx_gated testCrypto acceptAll wallet1 address1 "30")))
             addressBytes1); evaluated. }
  split; [reflexivity|].
  apply (proj2 (proj2 (proj2
           (@createTx_gated testCrypto acceptAll wallet1 "0xb0b" "30")))
           [x0b; x0b]); evaluated.
Defined.

Lemma getDefaultFee_is_gas_budget_witness :
  parse_int (gasLimit wallet1) = Some 21000
  /\ parse_int (gasPrice wallet1) = Some 2
  /\ getDefaultFee wallet1 = OK (mkBig 42000 0)
  /\ (exists tx,
        @createTx testCrypto acceptAll wallet1 address1 "30" = OK tx
        /\ f_gasLimit (fields tx) * f_gasPrice (fields tx) = 42000)
  /\ (exists tx,
        @createImportTx testCrypto wallet1 import_150_150 = OK tx
        /\ f_gasLimit (fields tx) * f_gasPrice (fields tx) = 42000).
Proof.
  split; [reflexivity|]. split; [reflexivity|].
  destruct (@getDefaultFee_is_gas_budget testCrypto acceptAll wallet1 21000 2
              eq_refl eq_refl) as (Hfee & Htx & Himp).
  split; [exact Hfee|]. split.
  - eexists. split; [vm_compute; reflexivity|].
    refine (proj1 (Htx address1 "30" _ _)). vm_compute; reflexivity.
  - eexists. split; [vm_compute; reflexivity|].
    refine (proj1 (Himp import_150_150 _ _)). vm_compute; reflexivity.
Defined.

Lemma createImportTx_at_default_fee_witness :
  getDefaultFee wallet1 = OK (mkBig 42000 0)
  /\ 21000 * 2 <= 100000
  /\ @recipient testCrypto address1 addressBytes1
  /\ isValidPrivate key1 = true
  /\ exists tx,
       @createImportTx testCrypto wallet1
         (mkImportOptions (JStr "100000") (JStr (toFixed (mkBig 42000 0))) 7 address1 key1)
       = OK tx
       /\ f_value (fields tx) + f_gasLimit (fields tx) * f_gasPrice (fields tx) = 100000
       /\ f_to (fields tx) = addressBytes1.
Proof.
  split; [reflexivity|]. split; [lia|]. split; [evaluated|]. split; [reflexivity|].
  apply (@createImportTx_at_default_fee testCrypto wallet1 (JStr "100000") 7 address1
           key1 addressBytes1 21000 2 100000 (mkBig 42000 0)); evaluated.
Defined.

Lemma createTx_nonce_after_send_witness :
  0 <= txsCount wallet1
  /\ exists tx1 tx2,
       @createTx testCrypto acceptAll wallet1 address1 "30" = OK tx1
       /\ @createTx testCrypto acceptAll (fst (@sendTx testCrypto api1 wallet1 tx1))
            address1 "40" = OK tx2
       /\ f_nonce (fields tx1) = 2
       /\ f_nonce (fields tx2) = 2 + 1.
Proof.
  split; [evaluated|].
  eexists. eexists. split; [vm_compute; reflexivity|]. split; [vm_compute; reflexivity|].
  destruct (@createTx_nonce_after_send testCrypto acceptAll api1 wallet1
              address1 "30" address1 "40" _ _ ltac:(evaluated) eq_refl eq_refl)
    as (H1 & H2 & _).
  split; [exact H1|]. exact (H2 _ eq_refl).
Defined.

Lemma getImportTxOptions_outcome_witness :
  isValidPrivate key1 = true
  /\ exists evs,
       @getImportTxOptions testCrypto api1 [1; 0]%nat wallet1 key1
       = OK (evs, OK (mkImportSource key1 (JStr "90000") 2)).
Proof.
  split; [reflexivity|].
  destruct (proj2 (@getImportTxOptions_outcome testCrypto api1 [1; 0]%nat wallet1 key1)
              eq_refl) as (promise & E & H & _).
  eexists. rewrite E.
  rewrite (H (mkBalanceInfo (JStr "100000") (JStr "90000")) 2 eq_refl eq_refl).
  reflexivity.
Defined.

Lemma getImportTxOptions_then_createImportTx_witness :
  isValidPrivate key1 = true
  /\ isNumeric (JStr "90000") = true
  /\ isNumeric (JStr "42000") = true
  /\ @recipient testCrypto address1 addressBytes1
  /\ exists evs src,
       @getImportTxOptions testCrypto api1 [0; 1]%nat wallet1 key1 = OK (evs, OK src)
       /\ exists tx,
            @createImportTx testCrypto wallet1 (importOptions src (JStr "42000") address1)
            = OK tx
            /\ f_nonce (fields tx) = 2
            /\ f_value (fields tx) = 48000.
Proof.
  split; [reflexivity|]. split; [reflexivity|]. split; [reflexivity|].
  split; [evaluated|].
  destruct (@getImportTxOptions_then_createImportTx testCrypto api1 [0; 1]%nat
              wallet1 key1 (JStr "42000") address1
              (mkBalanceInfo (JStr "100000") (JStr "90000")) 2
              eq_refl eq_refl eq_refl eq_refl eq_refl) as (evs & src & Esrc & _ & H).
  exists evs, src. split; [exact Esrc|].
  destruct (H 48000 addressBytes1
              ltac:(evaluated) ltac:(evaluated) ltac:(evaluated) ltac:(evaluated)
              ltac:(evaluated) ltac:(evaluated) ltac:(evaluated))
    as (tx & Etx & Hn & _ & Hv & _).
  exists tx. split; [exact Etx|]. split; [exact Hn | exact Hv].
Defined.

Lemma serialize_stable_witness :
  @validKey wallet1
  /\ exists w',
       @deserialize (@serialize testCrypto wallet1) = OK w'
       /\ @serialize testCrypto w' = @serialize testCrypto wallet1.
Proof.
  split; [reflexivity|].
  destruct (@serialize_stable testCrypto wallet1 eq_refl) as (w' & E & H & _).
  exists w'. split; [exact E | exact H].
Defined.

Lemma new_Wallet_identity_witness :
  exists c1 c2 w1 w2,
    @new_Wallet testCrypto api1 [0; 1; 2; 3]%nat options1 = OK c1
    /\ @new_Wallet testCrypto api_noGasPrice [3; 2; 1; 0]%nat
         (mkOptions (opt_seed options1) (JStr "ropsten") None false) = OK c2
    /\ settled c1 = Some w1
    /\ returned c2 = Some w2
    /\ addressString w1 = addressString w2.
Proof.
  eexists. eexists. eexists. eexists.
  split; [vm_compute; reflexivity|]. split; [vm_compute; reflexivity|].
  split; [reflexivity|]. split; [reflexivity|].
  eapply (@new_Wallet_identity testCrypto api1 api_noGasPrice
            [0; 1; 2; 3]%nat [3; 2; 1; 0]%nat options1
            (mkOptions (opt_seed options1) (JStr "ropsten") None false)).
  - reflexivity.
  - vm_compute; reflexivity.
  - vm_compute; reflexivity.
  - right. left. reflexivity.
  - left. reflexivity.
Defined.

Lemma new_Wallet_malformed_history_witness :
  forallb feeNumeric [rawTx1; badTx] = false
  /\ exists c,
       @new_Wallet testCrypto api_badHistory [0; 1; 2; 3]%nat options1 = OK c
       /\ callbacks (events c) = doneError options1 BigError.
Proof.
  split; [reflexivity|].
  destruct (@new_Wallet_malformed_history testCrypto api_badHistory [0; 1; 2; 3]%nat
              options1 (mkEtherWallet key1)
              (mkBalanceInfo (JStr "100000") (JStr "90000")) 2 "2" [rawTx1; badTx]
              eq_refl eq_refl eq_refl eq_refl eq_refl eq_refl eq_refl)
    as (c & E & H & _).
  exists c. split; [exact E | exact H].
Defined.
